(** * Family-tree widget: ingestion, tree assembly, navigation and search

    A shallow embedding of the [FamilyTree] class of the fam-tree widget.
    The repository carries two copies of the class which differ in the
    first and second pass of [buildTree]; both are embedded, the copy under
    [widgets/fam-tree/fam-tree.js] as the [Widget] variant and the other
    copy as the [Block] variant.  Everything else is shared. *)

From Stdlib Require Import ZArith List String Ascii Bool Lia.
From Stdlib Require Import Permutation Sorted DecimalString.
Import ListNotations.

Local Open Scope string_scope.
Local Open Scope list_scope.
Local Open Scope Z_scope.

(** ** JavaScript values met in the record source

    A field of a record is absent ([undefined]), [null], a number or a
    string.  Numbers are the integral ones, [JNum n] standing for a safe
    integer, whose string form is its decimal numeral; strings are taken
    over the ASCII characters. *)

Inductive jsval : Type :=
| JUndefined
| JNull
| JNum (n : Z)
| JStr (s : string).

Definition jsval_eqb (a b : jsval) : bool :=
  match a, b with
  | JUndefined, JUndefined => true
  | JNull, JNull => true
  | JNum n, JNum m => n =? m
  | JStr s, JStr t => String.eqb s t
  | _, _ => false
  end.

(** ToBoolean *)
Definition truthy (v : jsval) : bool :=
  match v with
  | JUndefined | JNull => false
  | JNum n => negb (n =? 0)
  | JStr s => negb (String.eqb s "")
  end.

Definition decimal (n : Z) : string := NilZero.string_of_int (Z.to_int n).

(** String(v) *)
Definition toString (v : jsval) : string :=
  match v with
  | JUndefined => "undefined"
  | JNull => "null"
  | JNum n => decimal n
  | JStr s => s
  end.

(** [a || b] on strings: the empty string is the only falsy one. *)
Definition orElse (a b : string) : string :=
  if String.eqb a "" then b else a.

(** ** String primitives *)

Definition isWhite (c : ascii) : bool :=
  let n := nat_of_ascii c in
  ((9 <=? n) && (n <=? 13))%nat || (n =? 32)%nat.

Definition isDigit (c : ascii) : bool :=
  let n := nat_of_ascii c in ((48 <=? n) && (n <=? 57))%nat.

Definition digitVal (c : ascii) : Z := Z.of_nat (nat_of_ascii c) - 48.

Fixpoint dropWhile (f : ascii -> bool) (s : string) : string :=
  match s with
  | EmptyString => EmptyString
  | String c r => if f c then dropWhile f r else s
  end.

Fixpoint rev_string_aux (s acc : string) : string :=
  match s with
  | EmptyString => acc
  | String c r => rev_string_aux r (String c acc)
  end.

Definition rev_string (s : string) : string := rev_string_aux s EmptyString.

(** String.prototype.trim, on the ASCII white space characters. *)
Definition trim (s : string) : string :=
  rev_string (dropWhile isWhite (rev_string (dropWhile isWhite s))).

(** String.prototype.startsWith *)
Fixpoint startsWith (s p : string) : bool :=
  match p, s with
  | EmptyString, _ => true
  | String a p', String b s' => Ascii.eqb a b && startsWith s' p'
  | String _ _, EmptyString => false
  end.

(** String.prototype.includes *)
Fixpoint includes (s p : string) : bool :=
  startsWith s p ||
  match s with
  | EmptyString => false
  | String _ s' => includes s' p
  end.

Definition lowerChar (c : ascii) : ascii :=
  let n := nat_of_ascii c in
  if ((65 <=? n) && (n <=? 90))%nat then ascii_of_nat (n + 32) else c.

(** String.prototype.toLowerCase, on ASCII letters. *)
Fixpoint toLowerCase (s : string) : string :=
  match s with
  | EmptyString => EmptyString
  | String c r => String (lowerChar c) (toLowerCase r)
  end.

(** ** parseFloat, integer fragment

    The numeral is read after leading white space: an optional sign and a
    run of decimal digits.  A numeral that goes on with a fraction or an
    exponent, or that is [Infinity], denotes a proper floating-point value
    and is reported as [POther]; the functions below give no result on
    it. *)

Inductive pfloat : Type :=
| PNaN
| PInt (n : Z)
| POther.

Fixpoint readDigits (s : string) (acc : Z) : Z * string :=
  match s with
  | String c r => if isDigit c then readDigits r (10 * acc + digitVal c) else (acc, s)
  | EmptyString => (acc, s)
  end.

Definition startsFraction (s : string) : bool :=
  match s with
  | String "."%char (String c _) => isDigit c
  | _ => false
  end.

Definition parseUnsigned (s : string) : pfloat :=
  match s with
  | String c _ =>
      if isDigit c then
        let '(n, rest) := readDigits s 0 in
        match rest with
        | String "."%char _ | String "e"%char _ | String "E"%char _ => POther
        | _ => PInt n
        end
      else if startsFraction s || startsWith s "Infinity" then POther
      else PNaN
  | EmptyString => PNaN
  end.

Definition parseFloatStr (s : string) : pfloat :=
  match dropWhile isWhite s with
  | String "-"%char r =>
      match parseUnsigned r with
      | PInt n => PInt (- n)
      | r' => r'
      end
  | String "+"%char r => parseUnsigned r
  | t => parseUnsigned t
  end.

Definition safeInteger (n : Z) : bool := Z.abs n <? 2 ^ 53.

Definition parseFloat (v : jsval) : pfloat :=
  match v with
  | JUndefined | JNull => PNaN
  | JNum n => if safeInteger n then PInt n else POther
  | JStr s => parseFloatStr s
  end.

(** ** Date, as far as [convertExcelDate] uses it

    Time values are milliseconds since 1970-01-01.  The local time zone is
    taken to have a constant offset, so that adding whole days to a local
    midnight stays on local midnight and the local calendar fields are
    those of the day number; the offset itself then cancels and is left
    out.  The calendar functions are those of the language definition. *)

Definition msPerDay : Z := 86400000.

Definition DayFromYear (y : Z) : Z :=
  365 * (y - 1970) + (y - 1969) / 4 - (y - 1901) / 100 + (y - 1601) / 400.

Definition DaysInYear (y : Z) : Z :=
  if negb (y mod 4 =? 0) then 365
  else if negb (y mod 100 =? 0) then 366
  else if negb (y mod 400 =? 0) then 365
  else 366.

Definition InLeapYear (y : Z) : Z := DaysInYear y - 365.

(** The largest [y] with [DayFromYear y <= d], searched downwards from a
    year that lies above it. *)
Fixpoint yearSearch (fuel : nat) (y d : Z) : Z :=
  match fuel with
  | O => y
  | S f => if DayFromYear y <=? d then y else yearSearch f (y - 1) d
  end.

Definition YearFromDay (d : Z) : Z :=
  yearSearch (Z.to_nat (Z.abs d / 100000 + 3))
             (1970 + Z.max (d / 365) (d / 366) + 1) d.

Definition DayWithinYear (d : Z) : Z := d - DayFromYear (YearFromDay d).

(** MonthFromTime, months counted from 0, from the day within the year
    [w] and the leap-year flag [l]. *)
Definition monthOfYearDay (w l : Z) : Z :=
  if w <? 31 then 0
  else if w <? 59 + l then 1
  else if w <? 90 + l then 2
  else if w <? 120 + l then 3
  else if w <? 151 + l then 4
  else if w <? 181 + l then 5
  else if w <? 212 + l then 6
  else if w <? 243 + l then 7
  else if w <? 273 + l then 8
  else if w <? 304 + l then 9
  else if w <? 334 + l then 10
  else 11.

(** DateFromTime *)
Definition dateOfYearDay (w l : Z) : Z :=
  match monthOfYearDay w l with
  | 0 => w + 1
  | 1 => w - 30
  | 2 => w - 58 - l
  | 3 => w - 89 - l
  | 4 => w - 119 - l
  | 5 => w - 150 - l
  | 6 => w - 180 - l
  | 7 => w - 211 - l
  | 8 => w - 242 - l
  | 9 => w - 272 - l
  | 10 => w - 303 - l
  | _ => w - 333 - l
  end.

Definition MonthFromDay (d : Z) : Z :=
  monthOfYearDay (DayWithinYear d) (InLeapYear (YearFromDay d)).

Definition DateFromDay (d : Z) : Z :=
  dateOfYearDay (DayWithinYear d) (InLeapYear (YearFromDay d)).

(** [new Date(1899, 11, 30).getTime()] *)
Definition excelEpoch : Z := -25569 * msPerDay.

(** TimeClip: [None] stands for the invalid date. *)
Definition timeClip (t : Z) : option Z :=
  if Z.abs t <=? 8640000000000000 then Some t else None.

(** [String(x).padStart(2, '0')] for a non-negative [x]. *)
Definition padStart2 (x : Z) : string :=
  if x <? 10 then ("0" ++ decimal x)%string else decimal x.

(** ** convertExcelDate

    [None] is returned exactly when [parseFloat] leaves the integer
    fragment. *)

Definition convertExcelDate (excelDate : jsval) : option string :=
  if negb (truthy excelDate) || jsval_eqb excelDate (JStr "")
     || jsval_eqb excelDate (JStr "0") || jsval_eqb excelDate (JNum 0)
  then Some ""
  else
    match parseFloat excelDate with
    | POther => None
    | PNaN => Some (toString excelDate)
    | PInt numDate =>
        if numDate <=? 0 then Some (toString excelDate)
        else if numDate <? 10000 then Some (decimal numDate)
        else
          let daysToAdd := if 60 <=? numDate then numDate else numDate + 1 in
          match timeClip (excelEpoch + daysToAdd * 24 * 60 * 60 * 1000) with
          | None => Some (toString excelDate)
          | Some t =>
              let d := t / msPerDay in
              let year := YearFromDay d in
              let month := padStart2 (MonthFromDay d + 1) in
              let day := padStart2 (DateFromDay d) in
              Some (decimal year ++ "-" ++ month ++ "-" ++ day)%string
          end
    end.

(** ** Records, events and persons *)

Record record : Type := mkRecord {
  Person : string;             (* the empty string when the field is absent *)
  AnchorId : jsval;
  Ereignis : string;
  Datum : jsval;
  Partner : string;
  PartnerGeburtTod : string;
  Eltern1 : string;
  Eltern2 : string;
  ParentId : jsval
}.

Record event : Type := mkEvent {
  type : string;
  date : string;
  partner : string;
  partnerBirthDeath : string;
  parent1 : string;
  parent2 : string
}.

(** A person object.  [children] holds references to person objects; a
    reference is the [id] of the object, which is also the key under which
    the object sits in the [persons] map. *)
Record person : Type := mkPerson {
  id : jsval;
  name : string;
  events : list event;
  children : list jsval;
  parentId : jsval
}.

(** The [persons] map, in insertion order. *)
Definition registry : Type := list person.

Definition newPerson (k : jsval) (n : string) : person :=
  mkPerson k n [] [] JNull.

(** Map.prototype.get / has *)
Definition persons_get (k : jsval) (reg : registry) : option person :=
  find (fun p => jsval_eqb (id p) k) reg.

Definition persons_has (k : jsval) (reg : registry) : bool :=
  existsb (fun p => jsval_eqb (id p) k) reg.

(** Map.prototype.set: an existing key keeps its place and gets the new
    value, a new key goes to the end. *)
Fixpoint persons_set (v : person) (reg : registry) : registry :=
  match reg with
  | [] => [v]
  | p :: r => if jsval_eqb (id p) (id v) then v :: r else p :: persons_set v r
  end.

(** A mutation of the object stored under [k]. *)
Definition modify (k : jsval) (f : person -> person) (reg : registry) : registry :=
  map (fun p => if jsval_eqb (id p) k then f p else p) reg.

Definition pushEvent (e : event) (p : person) : person :=
  mkPerson (id p) (name p) (events p ++ [e]) (children p) (parentId p).

Definition pushChild (c : jsval) (p : person) : person :=
  mkPerson (id p) (name p) (events p) (children p ++ [c]) (parentId p).

Definition setParentId (v : jsval) (p : person) : person :=
  mkPerson (id p) (name p) (events p) (children p) v.

Definition setChildren (cs : list jsval) (p : person) : person :=
  mkPerson (id p) (name p) (events p) cs (parentId p).

(** ** buildTree, first pass *)

Inductive variant : Type := Widget | Block.

(** [p.name === hint || p.name.includes(hint) || hint.includes(p.name)] *)
Definition nameMatches (hint : string) (p : person) : bool :=
  String.eqb (name p) hint || includes (name p) hint || includes hint (name p).

(** [p.name === hint || p.name.includes(hint)] *)
Definition nameContains (hint : string) (p : person) : bool :=
  String.eqb (name p) hint || includes (name p) hint.

(** The person a record stands for: the map after the person has been
    created if need be, and the person's id. *)
Definition resolveIdentity (v : variant) (r : record) (reg : registry)
  : registry * jsval :=
  match v with
  | Widget =>
      let anchorId := if truthy (AnchorId r) then AnchorId r else JStr (Person r) in
      if persons_has anchorId reg then (reg, anchorId)
      else (persons_set (newPerson anchorId (Person r)) reg, anchorId)
  | Block =>
      if truthy (AnchorId r) then
        let anchorId := JStr (toString (AnchorId r)) in
        if persons_has anchorId reg then (reg, anchorId)
        else (persons_set (newPerson anchorId (Person r)) reg, anchorId)
      else
        match find (fun p => String.eqb (name p) (Person r)) reg with
        | Some existingPerson => (reg, id existingPerson)
        | None =>
            let anchorId := JStr (Person r) in
            (persons_set (newPerson anchorId (Person r)) reg, anchorId)
        end
  end.

Definition assignParent (k : jsval) (found : option person) (reg : registry)
  : registry :=
  match found with
  | Some parent => modify k (setParentId (id parent)) reg
  | None => reg
  end.

(** The parent relationship set by one record for the person [k]. *)
Definition resolveParent (v : variant) (r : record) (k : jsval) (reg : registry)
  : registry :=
  if truthy (ParentId r) then
    modify k (setParentId (JStr (toString (ParentId r)))) reg
  else
    match v with
    | Widget =>
        if negb (String.eqb (Eltern1 r) "") then
          assignParent k (find (nameContains (Eltern1 r)) reg) reg
        else reg
    | Block =>
        if negb (String.eqb (Eltern1 r) "") then
          match find (nameMatches (Eltern1 r)) reg with
          | Some parent => modify k (setParentId (id parent)) reg
          | None =>
              if negb (String.eqb (Eltern2 r) "") then
                assignParent k (find (nameMatches (Eltern2 r)) reg) reg
              else reg
          end
        else if negb (String.eqb (Eltern2 r) "") then
          assignParent k (find (nameMatches (Eltern2 r)) reg) reg
        else reg
    end.

Definition makeEvent (r : record) (d : string) : event :=
  mkEvent (Ereignis r) (orElse d "") (Partner r) (PartnerGeburtTod r)
          (Eltern1 r) (Eltern2 r).

(** One record of the first pass.  [None] when the date field leaves the
    modelled fragment of [parseFloat]. *)
Definition ingest (v : variant) (reg : registry) (r : record) : option registry :=
  if String.eqb (Person r) "" then Some reg
  else
    let '(reg1, anchorId) := resolveIdentity v r reg in
    match convertExcelDate (Datum r) with
    | None => None
    | Some d =>
        let reg2 := modify anchorId (pushEvent (makeEvent r d)) reg1 in
        Some (resolveParent v r anchorId reg2)
    end.

Fixpoint firstPass (v : variant) (reg : registry) (data : list record)
  : option registry :=
  match data with
  | [] => Some reg
  | r :: rest =>
      match ingest v reg r with
      | None => None
      | Some reg' => firstPass v reg' rest
      end
  end.

(** ** buildTree, second pass *)

Definition hasHint (v : variant) (e : event) : bool :=
  match v with
  | Widget => negb (String.eqb (parent1 e) "")
  | Block => negb (String.eqb (parent1 e) "") || negb (String.eqb (parent2 e) "")
  end.

(** The parent found through the name hints of the person's first event
    that carries one. *)
Definition parentByName (v : variant) (p : person) (reg : registry)
  : option person :=
  match find (hasHint v) (events p) with
  | None => None
  | Some e =>
      match v with
      | Widget => find (nameMatches (parent1 e)) reg
      | Block =>
          let first :=
            if negb (String.eqb (parent1 e) "")
            then find (nameMatches (parent1 e)) reg else None in
          match first with
          | Some q => Some q
          | None =>
              if negb (String.eqb (parent2 e) "")
              then find (nameMatches (parent2 e)) reg else None
          end
      end
  end.

Definition attachByName (v : variant) (p : person) (reg : registry) : registry :=
  match parentByName v p reg with
  | Some q =>
      if existsb (fun c => jsval_eqb c (id p)) (children q) then reg
      else modify (id p) (setParentId (id q)) (modify (id q) (pushChild (id p)) reg)
  | None => reg
  end.

(** The callback of the second [forEach], for the person stored under
    [k]. *)
Definition link (v : variant) (reg : registry) (k : jsval) : registry :=
  match persons_get k reg with
  | None => reg
  | Some p =>
      if truthy (parentId p) then
        match persons_get (parentId p) reg with
        | Some parent => modify (id parent) (pushChild (id p)) reg
        | None => attachByName v p reg
        end
      else attachByName v p reg
  end.

Definition secondPass (v : variant) (reg : registry) : registry :=
  fold_left (link v) (map id reg) reg.

(** ** Sorting

    Array.prototype.sort, as a stable insertion sort: every element in
    turn is placed in the sorted prefix in front of the first element it
    compares below.  For a consistent comparator this gives the order that
    the language prescribes. *)

Section Sort.
Context {A : Type}.
Variable cmp : A -> A -> Z.

Fixpoint insertBy (x : A) (l : list A) : list A :=
  match l with
  | [] => [x]
  | h :: t => if cmp x h <? 0 then x :: l else h :: insertBy x t
  end.

Definition sortBy (l : list A) : list A :=
  fold_left (fun acc x => insertBy x acc) l [].
End Sort.

(** ** buildTree, children order and root *)

Definition fourDigits (s : string) : option Z :=
  match s with
  | String a (String b (String c (String d _))) =>
      if isDigit a && isDigit b && isDigit c && isDigit d
      then Some (1000 * digitVal a + 100 * digitVal b + 10 * digitVal c + digitVal d)
      else None
  | _ => None
  end.

(** [None] is the [null] of the source. *)
Definition getBirthDate (p : person) : option Z :=
  match find (fun e => String.eqb (type e) "Geburt") (events p) with
  | Some birthEvent =>
      if negb (String.eqb (date birthEvent) "") then fourDigits (date birthEvent)
      else None
  | None => None
  end.

(** Truthiness of what [getBirthDate] returns: [null] and [0] are falsy. *)
Definition hasBirth (b : option Z) : bool :=
  match b with
  | Some y => negb (y =? 0)
  | None => false
  end.

Definition yearOf (b : option Z) : Z :=
  match b with
  | Some y => y
  | None => 0
  end.

(** The comparator of the children sort, on the birth dates. *)
Definition compareBirth (aBirth bBirth : option Z) : Z :=
  if negb (hasBirth aBirth) then 1
  else if negb (hasBirth bBirth) then -1
  else yearOf aBirth - yearOf bBirth.

(** The birth date of the person behind a child reference. *)
Definition birthOf (reg : registry) (c : jsval) : option Z :=
  match persons_get c reg with
  | Some p => getBirthDate p
  | None => None
  end.

Definition sortChildren (reg : registry) : registry :=
  map (fun p =>
         setChildren
           (sortBy (fun a b => compareBirth (birthOf reg a) (birthOf reg b))
                   (children p)) p) reg.

Definition noParent (p : person) : bool :=
  negb (truthy (parentId p)) || jsval_eqb (parentId p) (JStr "").

(** The callback of [reduce]. *)
Definition earlier (earliest current : person) : person :=
  let earliestBirth := getBirthDate earliest in
  let currentBirth := getBirthDate current in
  if negb (hasBirth earliestBirth) then current
  else if negb (hasBirth currentBirth) then earliest
  else if yearOf earliestBirth <? yearOf currentBirth then earliest else current.

(** [reduce] without an initial value, on a non-empty array. *)
Definition reduceEarlier (first : person) (rest : list person) : person :=
  fold_left earlier rest first.

(** The fallback of root selection, taken when the person with id ["0"] is
    not the root. *)
Definition fallbackRoot (reg : registry) : option person :=
  match filter noParent reg with
  | first :: rest => Some (reduceEarlier first rest)
  | [] => hd_error reg
  end.

Definition selectRoot (reg : registry) : option person :=
  match persons_get (JStr "0") reg with
  | Some personWithId0 =>
      if noParent personWithId0 then Some personWithId0 else fallbackRoot reg
  | None => fallbackRoot reg
  end.

Record FamilyTree : Type := mkTree {
  persons : registry;
  rootPerson : option person;
  currentRoot : option person
}.

Definition assemble (v : variant) (reg : registry) : FamilyTree :=
  let reg' := sortChildren (secondPass v reg) in
  mkTree reg' (selectRoot reg') (selectRoot reg').

(** [buildTree] on a freshly constructed object, whose map is empty. *)
Definition buildTree (v : variant) (data : list record) : option FamilyTree :=
  match firstPass v [] data with
  | Some reg => Some (assemble v reg)
  | None => None
  end.

(** ** Navigation *)

Definition walksOn (current : person) : bool :=
  truthy (parentId current)
  && negb (jsval_eqb (parentId current) (JStr "0"))
  && negb (jsval_eqb (parentId current) (JStr "")).

(** The [while] loop of [getPathToRoot]; one unit of fuel per test of the
    loop condition, [None] when the fuel runs out.  [path] is kept in the
    order of the pushes. *)
Fixpoint walkUp (fuel : nat) (reg : registry) (visited : list jsval)
         (path : list person) (current : person) : option (list person) :=
  match fuel with
  | O => None
  | S f =>
      if existsb (jsval_eqb (id current)) visited then Some path
      else
        let visited' := id current :: visited in
        let path' := path ++ [current] in
        if walksOn current then
          match persons_get (parentId current) reg with
          | Some parent => walkUp f reg visited' path' parent
          | None => Some path'
          end
        else Some path'
  end.

Definition anchorAtRoot (root : person) (path : list person) : list person :=
  match last (map Some path) None with
  | Some top => if jsval_eqb (id top) (id root) then path else path ++ [root]
  | None => path ++ [root]
  end.

(** [getPathToRoot], for a tree that has a root. *)
Definition getPathToRoot (reg : registry) (root start : person)
  : option (list person) :=
  match walkUp (List.length reg + 2) reg [] [] start with
  | Some path => Some (rev (anchorAtRoot root path))
  | None => None
  end.

(** The loop of [getBreadcrumbPath], which puts every person in front of
    the path. *)
Fixpoint crumbUp (fuel : nat) (reg : registry) (visited : list jsval)
         (path : list person) (current : person) : option (list person) :=
  match fuel with
  | O => None
  | S f =>
      if existsb (jsval_eqb (id current)) visited then Some path
      else
        let visited' := id current :: visited in
        let path' := current :: path in
        if walksOn current then
          match persons_get (parentId current) reg with
          | Some parent => crumbUp f reg visited' path' parent
          | None => Some path'
          end
        else Some path'
  end.

Definition getBreadcrumbPath (reg : registry) (root start : person)
  : option (list person) :=
  match crumbUp (List.length reg + 2) reg [] [] start with
  | Some path =>
      match path with
      | top :: _ =>
          if jsval_eqb (id top) (id root) then Some path else Some (root :: path)
      | [] => Some (root :: path)
      end
  | None => None
  end.

(** The names that [updateURL] hands to the history. *)
Definition pathNames (reg : registry) (root focus : person)
  : option (list string) :=
  option_map (map name) (getBreadcrumbPath reg root focus).

(** String.prototype.split on a non-empty separator.  [skip] counts the
    characters of a separator still to be passed over, [cur] is the piece
    being read, last character first. *)
Fixpoint splitAux (sep s : string) (skip : nat) (cur : string) : list string :=
  match s with
  | EmptyString => [rev_string cur]
  | String c r =>
      match skip with
      | S k => splitAux sep r k cur
      | O =>
          if startsWith s sep
          then rev_string cur :: splitAux sep r (String.length sep - 1) EmptyString
          else splitAux sep r O (String c cur)
      end
  end.

Definition split (sep s : string) : list string := splitAux sep s O EmptyString.

Definition findByName (reg : registry) (n : string) : option person :=
  find (fun p => String.eqb (name p) n) reg.

(** The [for] loop over the path names, with its [break]. *)
Fixpoint followPath (reg : registry) (pathNames : list string)
         (currentPerson : option person) : option person :=
  match pathNames with
  | [] => currentPerson
  | n :: rest =>
      match findByName reg (trim n) with
      | Some p => followPath reg rest (Some p)
      | None => currentPerson
      end
  end.

(** The focus that the loop and the test after it leave. *)
Definition reconstruct (t : FamilyTree) (pathNames : list string) : option person :=
  match followPath (persons t) pathNames None with
  | Some p => Some p
  | None => rootPerson t
  end.

(** [loadFromURL]; [decoded] is the decoded [path] parameter, the empty
    string when there is none. *)
Definition loadFromURL (t : FamilyTree) (decoded : string) : FamilyTree :=
  if String.eqb decoded "" then mkTree (persons t) (rootPerson t) (rootPerson t)
  else mkTree (persons t) (rootPerson t) (reconstruct t (split " > " decoded)).

(** ** Descendant count

    One unit of fuel per nested call; [None] when the nesting exceeds the
    fuel. *)

Fixpoint sumOpt (l : list (option nat)) : option nat :=
  match l with
  | [] => Some O
  | Some n :: r => match sumOpt r with Some m => Some (n + m)%nat | None => None end
  | None :: _ => None
  end.

Fixpoint countDescendants (fuel : nat) (reg : registry) (p : person) : option nat :=
  match fuel with
  | O => None
  | S f =>
      match sumOpt (map (fun c =>
                           match persons_get c reg with
                           | Some child => countDescendants f reg child
                           | None => Some O
                           end) (children p)) with
      | Some s => Some (List.length (children p) + s)%nat
      | None => None
      end
  end.

(** ** Search *)

Inductive reason : Type := ByName | BySpouse.

Record hit : Type := mkHit {
  hitPerson : person;
  matchReason : reason;
  matchedSpouse : option string
}.

Definition isMarriage (e : event) : bool :=
  String.eqb (type e) "Heirat" && negb (String.eqb (partner e) "").

Definition matchPerson (queryLower : string) (p : person) : list hit :=
  if includes (toLowerCase (name p)) queryLower then [mkHit p ByName None]
  else
    match find (fun m => includes (toLowerCase (partner m)) queryLower)
               (filter isMarriage (events p)) with
    | Some marriage => [mkHit p BySpouse (Some (partner marriage))]
    | None => []
    end.

Section Search.
(** String.prototype.localeCompare is left to the host. *)
Variable localeCompare : string -> string -> Z.

Definition isPrefixHit (queryLower : string) (h : hit) : bool :=
  startsWith (toLowerCase (name (hitPerson h))) queryLower.

Definition relevance (queryLower : string) (a b : hit) : Z :=
  match matchReason a, matchReason b with
  | ByName, BySpouse => -1
  | BySpouse, ByName => 1
  | _, _ =>
      let aExact := isPrefixHit queryLower a in
      let bExact := isPrefixHit queryLower b in
      if aExact && negb bExact then -1
      else if negb aExact && bExact then 1
      else localeCompare (name (hitPerson a)) (name (hitPerson b))
  end.

Definition rankedMatches (reg : registry) (query : string) : list hit :=
  let queryLower := toLowerCase query in
  sortBy (relevance queryLower) (flat_map (matchPerson queryLower) reg).

Definition performSearch (reg : registry) (query : string) : list hit :=
  firstn 20 (rankedMatches reg query).
End Search.

(** ** Notions used in the statements *)

(** The parent that the upward walk moves to. *)
Definition parentOf (reg : registry) (p : person) : option person :=
  if walksOn p then persons_get (parentId p) reg else None.

(** The [n]-th ancestor along those links. *)
Fixpoint ancestor (reg : registry) (n : nat) (start : person) : option person :=
  match n with
  | O => Some start
  | S k =>
      match parentOf reg start with
      | Some q => ancestor reg k q
      | None => None
      end
  end.

(** A name of a persisted path resolves when some person bears it. *)
Definition resolves (reg : registry) (n : string) : Prop :=
  findByName reg (trim n) <> None.

Definition mkRec (p : string) (a : jsval) (e : string) (d : jsval)
           (e1 : string) (par : jsval) : record :=
  mkRecord p a e d "" "" e1 "" par.

(** A small family: Rosa at the root anchor, her children Anna and Karl,
    and Anna's son Emil. *)
Definition demoData : list record :=
  [ mkRec "Rosa" (JStr "0") "Geburt" (JNum 1485) "" JNull;
    mkRec "Karl" (JStr "2") "Geburt" (JNum 1520) "" (JStr "0");
    mkRec "Anna" (JStr "1") "Geburt" (JNum 1515) "" (JStr "0");
    mkRec "Emil" (JStr "3") "Geburt" (JNum 1540) "" (JStr "1") ].

Definition demoTree : FamilyTree :=
  Eval vm_compute in
    match buildTree Block demoData with
    | Some t => t
    | None => mkTree [] None None
    end.

Definition personNamed (t : FamilyTree) (n : string) : person :=
  match findByName (persons t) n with
  | Some p => p
  | None => newPerson JNull n
  end.

(** Two persons without a parent and without a birth date. *)
Definition orphanData : list record :=
  [ mkRec "Anna" JNull "Heirat" (JNum 1510) "" JNull;
    mkRec "Bert" JNull "Tod" (JNum 1570) "" JNull ].

(** Three persons without parent id, none at the root anchor. *)
Definition foundlingData : list record :=
  [ mkRec "Karl" (JStr "5") "Geburt" (JNum 1520) "" JNull;
    mkRec "Anna" (JStr "6") "Geburt" (JNum 1515) "" JNull;
    mkRec "Bert" (JStr "7") "Tod" (JNum 1590) "" JNull ].

Definition foundlingTree : FamilyTree :=
  Eval vm_compute in
    match buildTree Block foundlingData with
    | Some t => t
    | None => mkTree [] None None
    end.

(** The root anchor once as the number 0 and once as the string ["0"]. *)
Definition zeroAnchorData : list record :=
  [ mkRec "Peter" (JNum 0) "Geburt" (JNum 1485) "" JNull;
    mkRec "Peter" (JStr "0") "Tod" (JNum 1550) "" JNull ].

(** One anchor id once as a number and once as a string. *)
Definition mixedAnchorData : list record :=
  [ mkRec "Anna" (JNum 5) "Geburt" (JNum 1515) "" JNull;
    mkRec "Anna" (JStr "5") "Tod" (JNum 1580) "" JNull ].

(** A record without anchor id whose person name is the anchor id of
    somebody else. *)
Definition shadowData : list record :=
  [ mkRec "Peter" (JStr "Hans") "Geburt" (JNum 1485) "" JNull;
    mkRec "Hans" JNull "Geburt" (JNum 1510) "" JNull;
    mkRec "Peter" (JStr "Hans") "Tod" (JNum 1550) "" JNull ].

(** A parent hint that is longer than the parent's name. *)
Definition hintData : list record :=
  [ mkRec "Hans" JNull "Geburt" (JNum 1500) "" JNull;
    mkRec "Kind" JNull "Geburt" (JNum 1530) "Hans Mueller" JNull ].

Definition hintData2 : list record :=
  [ mkRec "Hans" JNull "Geburt" (JNum 1500) "" JNull;
    mkRec "Otto" JNull "Geburt" (JNum 1501) "" JNull;
    mkRec "Kind" JNull "Geburt" (JNum 1530) "Otto" JNull;
    mkRec "Kind" JNull "Taufe" (JNum 1530) "Hans Mueller" JNull ].

(** Two persons naming each other as parent. *)
Definition cycleData : list record :=
  [ mkRec "Anna" (JStr "1") "Geburt" (JNum 1500) "" (JStr "2");
    mkRec "Bert" (JStr "2") "Geburt" (JNum 1530) "" (JStr "1") ].

(** A person whose parent hint is part of the person's own name. *)
Definition namesakeData : list record :=
  [ mkRec "Hans Mueller" JNull "Geburt" (JNum 1530) "Hans" JNull ].

(** A child with the birth date ["0000"] next to one born in 1500. *)
Definition yearZeroData : list record :=
  [ mkRec "Rosa" (JStr "0") "Geburt" (JNum 1470) "" JNull;
    mkRec "Anna" (JStr "1") "Geburt" (JStr "0000") "" (JStr "0");
    mkRec "Bert" (JStr "2") "Geburt" (JNum 1500) "" (JStr "0") ].

(** What a registry shows of its persons. *)
Definition summary (reg : registry) : list (jsval * string * nat) :=
  map (fun p => (id p, name p, List.length (events p))) reg.

Definition links (reg : registry) : list (string * jsval * list jsval) :=
  map (fun p => (name p, parentId p, children p)) reg.

(** The comparator puts [x] strictly in front of [y]. *)
Definition below {A : Type} (cmp : A -> A -> Z) (x y : A) : bool :=
  cmp x y <? 0.

(** Neither of two elements goes strictly in front of the other. *)
Definition level {A : Type} (cmp : A -> A -> Z) (x y : A) : bool :=
  negb (below cmp x y) && negb (below cmp y x).

(** The order of two birth dates in a sorted children list: an undated
    one is last, dated ones ascend. *)
Definition birthOrder (x y : option Z) : Prop :=
  hasBirth y = false
  \/ (hasBirth x = true /\ hasBirth y = true /\ yearOf x <= yearOf y).

(** The comparator of the children sort, on references. *)
Definition compareChildren (reg : registry) (a b : jsval) : Z :=
  compareBirth (birthOf reg a) (birthOf reg b).

(** The order of two hits in a ranked result: a name match before a
    spouse match; in one tier a prefix match before another match;
    otherwise the later one does not collate in front of the earlier. *)
Definition ranked (localeCompare : string -> string -> Z) (queryLower : string)
           (a b : hit) : Prop :=
  match matchReason a, matchReason b with
  | ByName, BySpouse => True
  | BySpouse, ByName => False
  | _, _ =>
      match isPrefixHit queryLower a, isPrefixHit queryLower b with
      | true, false => True
      | false, true => False
      | _, _ => 0 <= localeCompare (name (hitPerson b)) (name (hitPerson a))
      end
  end.

(** Calendar dates as year, month (from 1) and day of the month. *)
Definition civil (d : Z) : Z * Z * Z :=
  (YearFromDay d, MonthFromDay d + 1, DateFromDay d).

Definition daysInMonth (l m : Z) : Z :=
  if m =? 2 then 28 + l
  else if (m =? 4) || (m =? 6) || (m =? 9) || (m =? 11) then 30
  else 31.

(** The day after a calendar date. *)
Definition nextDay (c : Z * Z * Z) : Z * Z * Z :=
  let '(y, m, dd) := c in
  if dd <? daysInMonth (InLeapYear y) m then (y, m, dd + 1)
  else if m <? 12 then (y, m + 1, 1)
  else (y + 1, 1, 1).

(** The calendar date [n] days after [c]. *)
Fixpoint daysAfter (n : nat) (c : Z * Z * Z) : Z * Z * Z :=
  match n with
  | O => c
  | S k => nextDay (daysAfter k c)
  end.

(** The test that the tables of month and day of the month agree with
    [nextDay] at day [w] of a year with leap flag [l]. *)
Definition stepChecked (l w : Z) : bool :=
  let m := monthOfYearDay w l + 1 in
  let dd := dateOfYearDay w l in
  let m' := monthOfYearDay (w + 1) l + 1 in
  let dd' := dateOfYearDay (w + 1) l in
  if w + 1 <? 365 + l then
    if dd <? daysInMonth l m then (m' =? m) && (dd' =? dd + 1)
    else (m <? 12) && (m' =? m + 1) && (dd' =? 1)
  else negb (dd <? daysInMonth l m) && negb (m <? 12).

(** A calendar date the way [convertExcelDate] prints it. *)
Definition printDate (c : Z * Z * Z) : string :=
  let '(y, m, dd) := c in
  (decimal y ++ "-" ++ padStart2 m ++ "-" ++ padStart2 dd)%string.

Definition formatDay (d : Z) : string := printDate (civil d).

(** Day number of Dec 30, 1899. *)
Definition epochDay : Z := -25569.

(** Every person of [reg] is still there in [reg'], under the same
    identifier and with the same events. *)
Definition sameEvents (reg reg' : registry) : Prop :=
  forall k p, persons_get k reg = Some p ->
              exists p', persons_get k reg' = Some p' /\ events p' = events p.

(** The record does not create a person keyed by [k] out of a name. *)
Definition harmless (k : string) (r : record) : Prop :=
  truthy (AnchorId r) = false -> Person r <> k.

Definition cycleTree : FamilyTree :=
  Eval vm_compute in
    match buildTree Block cycleData with
    | Some t => t
    | None => mkTree [] None None
    end.

(** Lexicographic comparison by character codes. *)
Fixpoint compareStr (a b : string) : Z :=
  match a, b with
  | EmptyString, EmptyString => 0
  | EmptyString, String _ _ => -1
  | String _ _, EmptyString => 1
  | String x a', String y b' =>
      if (nat_of_ascii x <? nat_of_ascii y)%nat then -1
      else if (nat_of_ascii y <? nat_of_ascii x)%nat then 1
      else compareStr a' b'
  end.

(** Case-insensitive lexicographic comparison. *)
Definition ciCompare (a b : string) : Z :=
  compareStr (toLowerCase a) (toLowerCase b).

(** The order of two hits that the spec asks for: as [ranked], with the
    names compared case-insensitively. *)
Definition rankedCI (queryLower : string) (a b : hit) : Prop :=
  match matchReason a, matchReason b with
  | ByName, BySpouse => True
  | BySpouse, ByName => False
  | _, _ =>
      match isPrefixHit queryLower a, isPrefixHit queryLower b with
      | true, false => True
      | false, true => False
      | _, _ => below ciCompare (name (hitPerson b)) (name (hitPerson a)) = false
      end
  end.

(** Anna Schmidt, married to Otto Schmidt, next to two persons with
    "otto" in their own name. *)
Definition searchData : list record :=
  [ mkRecord "Anna Schmidt" (JStr "1") "Heirat" (JNum 1540) "Otto Schmidt" ""
             "" "" JNull;
    mkRecord "Lotto Meier" (JStr "2") "Geburt" (JNum 1520) "" "" "" "" JNull;
    mkRecord "Otto Braun" (JStr "3") "Geburt" (JNum 1530) "" "" "" "" JNull ].

Definition searchTree : FamilyTree :=
  Eval vm_compute in
    match buildTree Block searchData with
    | Some t => t
    | None => mkTree [] None None
    end.

(** ** Further notions *)

(** All child references of a registry, list after list. *)
Definition allChildren (reg : registry) : list jsval :=
  flat_map children reg.

(** The number of events held by the persons of a registry. *)
Definition totalEvents (reg : registry) : nat :=
  list_sum (map (fun p => List.length (events p)) reg).

(** The records that [buildTree] does not skip. *)
Definition named (r : record) : bool := negb (String.eqb (Person r) "").

(** The state of the second pass of [buildTree] after the persons under
    the keys [done] have been handled: every child reference was handled,
    resolves, and belongs to a person whose parent id is the key of the
    list it is in; no list holds a reference twice; a handled person whose
    parent id resolves is in the list of that parent. *)
Definition linked (done : list jsval) (reg : registry) : Prop :=
  (forall kq q c,
      persons_get kq reg = Some q -> In c (children q) ->
      In c done /\ exists pc, persons_get c reg = Some pc /\ parentId pc = kq)
  /\ (forall kq q, persons_get kq reg = Some q -> NoDup (children q))
  /\ (forall kp p q,
         In kp done -> persons_get kp reg = Some p ->
         truthy (parentId p) = true ->
         persons_get (parentId p) reg = Some q -> In kp (children q)).

(** ** History and URL *)

(** Array.prototype.join *)
Fixpoint join (sep : string) (l : list string) : string :=
  match l with
  | [] => EmptyString
  | x :: r =>
      match r with
      | [] => x
      | _ :: _ => (x ++ sep ++ join sep r)%string
      end
  end.

(** What [updateURL] hands to the history: the state object with the
    path names, and the [path] parameter of the URL, [None] when the
    parameter is deleted.  The parameter is kept in the form that
    [loadFromURL] holds after decoding. *)
Record historyEntry : Type := mkEntry {
  statePath : list string;
  pathParam : option string
}.

Definition updateURL (reg : registry) (root focus : person)
  : option historyEntry :=
  match getBreadcrumbPath reg root focus with
  | None => None
  | Some path =>
      let pathNames := map name path in
      let pathString := join " > " pathNames in
      let keep :=
        (1 <? List.length path)%nat
        || match path with
           | [top] => negb (jsval_eqb (id top) (id root))
           | _ => false
           end in
      Some (mkEntry pathNames (if keep then Some pathString else None))
  end.

(** [navigateToPerson], for a tree that has a root: the new state and the
    history entry that is pushed. *)
Definition navigateToPerson (t : FamilyTree) (root focus : person)
  : option (FamilyTree * historyEntry) :=
  match updateURL (persons t) root focus with
  | Some e => Some (mkTree (persons t) (rootPerson t) (Some focus), e)
  | None => None
  end.

(** The decoded [path] parameter as [loadFromURL] reads it. *)
Definition decodedParam (e : historyEntry) : string :=
  match pathParam e with
  | Some s => s
  | None => EmptyString
  end.

(** The loop of the [popstate] handler, which takes the names as they
    are. *)
Fixpoint followState (reg : registry) (pathNames : list string)
         (currentPerson : option person) : option person :=
  match pathNames with
  | [] => currentPerson
  | n :: rest =>
      match findByName reg n with
      | Some p => followState reg rest (Some p)
      | None => currentPerson
      end
  end.

(** The [popstate] handler; [state] is the path of the state object, if
    the event has one. *)
Definition onPopState (t : FamilyTree) (state : option (list string))
  : FamilyTree :=
  match state with
  | Some pathNames =>
      match followState (persons t) pathNames None with
      | Some p => mkTree (persons t) (rootPerson t) (Some p)
      | None => mkTree (persons t) (rootPerson t) (rootPerson t)
      end
  | None => mkTree (persons t) (rootPerson t) (rootPerson t)
  end.

(** A name that [split] gives back from a joined path: followed by the
    first two characters of the separator it holds no separator. *)
Definition urlSafe (n : string) : Prop :=
  includes (n ++ " >") " > " = false.

(** ** Years in display strings *)

(** [\w] of a regular expression *)
Definition isWordChar (c : ascii) : bool :=
  let n := nat_of_ascii c in
  isDigit c || ((65 <=? n) && (n <=? 90))%nat || ((97 <=? n) && (n <=? 122))%nat
  || (n =? 95)%nat.

Definition startsWord (s : string) : bool :=
  match s with
  | String c _ => isWordChar c
  | EmptyString => false
  end.

(** [/^\d{4}$/] *)
Definition isYearString (s : string) : bool :=
  match s with
  | String a (String b (String c (String d EmptyString))) =>
      isDigit a && isDigit b && isDigit c && isDigit d
  | _ => false
  end.

(** [/^(\d{4})/] *)
Definition leadingYear (s : string) : option string :=
  match s with
  | String a (String b (String c (String d _))) =>
      if isDigit a && isDigit b && isDigit c && isDigit d
      then Some (String a (String b (String c (String d EmptyString))))
      else None
  | _ => None
  end.

(** [\d{4}\b] at the start of [s] *)
Definition yearAt (s : string) : option string :=
  match s with
  | String a (String b (String c (String d r))) =>
      if isDigit a && isDigit b && isDigit c && isDigit d && negb (startsWord r)
      then Some (String a (String b (String c (String d EmptyString))))
      else None
  | _ => None
  end.

(** The matches of [/\b(\d{4})\b/g], from left to right.  [prevWord]
    tells whether the character before [s] is a word character, [skip]
    counts the characters of a match still to be passed over. *)
Fixpoint yearRuns (skip : nat) (prevWord : bool) (s : string) : list string :=
  match s with
  | EmptyString => []
  | String c r =>
      match skip with
      | S k => yearRuns k (isWordChar c) r
      | O =>
          if prevWord then yearRuns O (isWordChar c) r
          else
            match yearAt s with
            | Some y => y :: yearRuns 3 (isWordChar c) r
            | None => yearRuns O (isWordChar c) r
            end
      end
  end.

(** [getYear] *)
Definition getYear (dateStr : string) : string :=
  if String.eqb dateStr "" then ""
  else if isYearString (trim dateStr) then trim dateStr
  else
    match leadingYear dateStr with
    | Some y => y
    | None =>
        match yearRuns O false dateStr with
        | y :: _ => y
        | [] => dateStr
        end
    end.

(** The marks of birth and death and the en dash, as the bytes of their
    UTF-8 encoding. *)
Definition birthMark : string := "*".
Definition deathMark : string :=
  String "226"%char (String "128"%char (String "160"%char EmptyString)).
Definition enDash : string :=
  String "226"%char (String "128"%char (String "147"%char EmptyString)).

(** [formatPartnerBirthDeath] *)
Definition formatPartnerBirthDeath (partnerBirthDeath : string) : string :=
  if String.eqb partnerBirthDeath "" then ""
  else
    match yearRuns O false partnerBirthDeath with
    | [] => partnerBirthDeath
    | first :: more =>
        let hasBirth := includes partnerBirthDeath birthMark in
        let hasDeath := includes partnerBirthDeath deathMark in
        let hasRange :=
          includes partnerBirthDeath enDash || includes partnerBirthDeath "-" in
        if hasRange && (2 <=? List.length (first :: more))%nat
        then (first ++ enDash ++ last more first)%string
        else if hasBirth then (birthMark ++ first)%string
        else if hasDeath then (deathMark ++ first)%string
        else first
    end.

(** The digits, for checks that run over all years of four digits. *)
Definition digitChars : list ascii :=
  ["0"; "1"; "2"; "3"; "4"; "5"; "6"; "7"; "8"; "9"]%char.

Definition fourDigitStrings : list string :=
  flat_map (fun a =>
    flat_map (fun b =>
      flat_map (fun c =>
        map (fun d => String a (String b (String c (String d EmptyString))))
            digitChars) digitChars) digitChars) digitChars.

(** What is checked of the decimal form of each [n] from 1 to 9999: [getYear]
    leaves it as it is, it opens with four digits exactly from 1000 on, and
    those digits read as [n]. *)
Definition yearChecked (n : Z) : bool :=
  String.eqb (getYear (decimal n)) (decimal n)
  && (if n <? 1000
      then match fourDigits (decimal n) with None => true | Some _ => false end
      else isYearString (decimal n)
           && match fourDigits (decimal n) with
              | Some y => y =? n
              | None => false
              end).

(** The year a number in the [Datum] column stands for: itself below
    10000, the year of its calendar date from there on. *)
Definition yearOfNumber (n : Z) : Z :=
  if n <? 10000 then n else YearFromDay (epochDay + n).

(** What is checked of each year [y] of four digits: alone, behind the mark
    of birth and behind the mark of death it is formatted to itself. *)
Definition spanChecked (y : string) : bool :=
  String.eqb (formatPartnerBirthDeath y) y
  && String.eqb (formatPartnerBirthDeath (birthMark ++ y)) (birthMark ++ y)
  && String.eqb (formatPartnerBirthDeath (deathMark ++ y)) (deathMark ++ y).

(** ** The events shown on a card *)

(** The objects [getUniqueEvents] builds: an event without its parent
    hints. *)
Record card : Type := mkCard {
  cardType : string;
  cardDate : string;
  cardPartner : string;
  cardPartnerBirthDeath : string
}.

Definition eventKey (e : event) : string :=
  (type e ++ "_" ++ date e ++ "_" ++ partner e)%string.

Definition cardOf (e : event) : card :=
  mkCard (type e) (date e) (partner e) (partnerBirthDeath e).

(** The branch taken when the key is in the map already. *)
Definition mergePartner (e : event) (existing : card) : card :=
  if negb (String.eqb (partner e) "")
     && negb (includes (cardPartner existing) (partner e))
  then mkCard (cardType existing) (cardDate existing)
         (if negb (String.eqb (cardPartner existing) "")
          then (cardPartner existing ++ ", " ++ partner e)%string
          else partner e)
         (cardPartnerBirthDeath existing)
  else existing.

(** One round of the [forEach]; the [Map] is the list of its entries in
    the order of insertion. *)
Definition addEvent (eventMap : list (string * card)) (e : event)
  : list (string * card) :=
  let key := eventKey e in
  if existsb (fun kv => String.eqb (fst kv) key) eventMap
  then map (fun kv => if String.eqb (fst kv) key
                      then (fst kv, mergePartner e (snd kv)) else kv) eventMap
  else eventMap ++ [(key, cardOf e)].

Definition getUniqueEvents (evs : list event) : list card :=
  map snd (fold_left addEvent evs []).

(** Same type, date and partner. *)
Definition sameEntry (a b : event) : bool :=
  String.eqb (type a) (type b) && String.eqb (date a) (date b)
  && String.eqb (partner a) (partner b).

(** The events that differ from all events before them, and from those of
    [seen], in type, date or partner. *)
Fixpoint firstEntries (seen evs : list event) : list event :=
  match evs with
  | [] => []
  | e :: rest =>
      if existsb (sameEntry e) seen then firstEntries seen rest
      else e :: firstEntries (e :: seen) rest
  end.

(** Neither the type nor the date holds an underscore. *)
Definition plainKey (e : event) : Prop :=
  includes (type e) "_" = false /\ includes (date e) "_" = false.

(** The state of the loop: what is in the map are the cards of events
    seen, under their keys, and every event seen has its key there. *)
Definition cardsOf (seen : list event) (eventMap : list (string * card)) : Prop :=
  (forall kv, In kv eventMap ->
     exists e, In e seen /\ fst kv = eventKey e /\ snd kv = cardOf e)
  /\ (forall e, In e seen ->
        existsb (fun kv => String.eqb (fst kv) (eventKey e)) eventMap = true).

(** ** Highlighting a query *)

(** The class [[.*+?^${}()|[\]\\]] of [escapeRegex]. *)
Definition isEscaped (c : ascii) : bool :=
  existsb (Ascii.eqb c)
    ["."; "*"; "+"; "?"; "^"; "$"; "{"; "}"; "("; ")"; "|"; "["; "]"; "\"]%char.

(** [escapeRegex]: a backslash before each character of the class. *)
Fixpoint escapeRegex (s : string) : string :=
  match s with
  | EmptyString => EmptyString
  | String c r =>
      if isEscaped c then String "\" (String c (escapeRegex r))
      else String c (escapeRegex r)
  end.

(** The syntax characters of the pattern grammar of [RegExp]. *)
Definition isSyntaxChar (c : ascii) : bool :=
  existsb (Ascii.eqb c)
    ["^"; "$"; "\"; "."; "*"; "+"; "?"; "("; ")"; "["; "]"; "{"; "}"; "|"]%char.

(** The text a pattern stands for when it is made of plain characters and
    of syntax characters behind a backslash; [None] for a pattern with an
    operator or another escape.  [escaped] tells that a backslash has
    just been read. *)
Fixpoint literalOf (escaped : bool) (pattern : string) : option string :=
  match pattern with
  | EmptyString => if escaped then None else Some EmptyString
  | String c r =>
      if escaped then
        if isSyntaxChar c then option_map (String c) (literalOf false r)
        else None
      else if Ascii.eqb c "\" then literalOf true r
      else if isSyntaxChar c then None
      else option_map (String c) (literalOf false r)
  end.

(** [startsWith] without regard to the case of ASCII letters, the [i] flag. *)
Fixpoint startsWithCI (s p : string) : bool :=
  match p, s with
  | EmptyString, _ => true
  | String a p', String b s' =>
      Ascii.eqb (lowerChar a) (lowerChar b) && startsWithCI s' p'
  | String _ _, EmptyString => false
  end.

Fixpoint takeS (n : nat) (s : string) : string :=
  match n, s with
  | S k, String c r => String c (takeS k r)
  | _, _ => EmptyString
  end.

Fixpoint dropS (n : nat) (s : string) : string :=
  match n, s with
  | S k, String _ r => dropS k r
  | _, _ => s
  end.

Definition quoteMark : string := String "034"%char EmptyString.
Definition openTag : string :=
  ("<span class=" ++ quoteMark ++ "fam-tree-search-highlight" ++ quoteMark
   ++ ">")%string.
Definition closeTag : string := "</span>".

(** [text.replace(regex, ...)] with the flags [g] and [i] for a pattern
    that stands for the non-empty text [lit]: each match, found from left
    to right and from the end of the match before, is put between the
    tags.  [skip] counts the characters of a match still to be passed
    over. *)
Fixpoint replaceMatches (lit : string) (skip : nat) (s : string) : string :=
  match s with
  | EmptyString => EmptyString
  | String c r =>
      match skip with
      | S k => replaceMatches lit k r
      | O =>
          if startsWithCI s lit
          then (openTag ++ takeS (String.length lit) s ++ closeTag
                ++ replaceMatches lit (String.length lit - 1) r)%string
          else String c (replaceMatches lit O r)
      end
  end.

(** [highlightText]; [None] when the pattern is not one [literalOf]
    reads. *)
Definition highlightText (text query : string) : option string :=
  if String.eqb query "" then Some text
  else
    match literalOf false (escapeRegex query) with
    | Some lit => Some (replaceMatches lit O text)
    | None => None
    end.

(** Levels of the persons of [demoTree], falling from parent to child. *)
Definition demoDepth (k : jsval) : nat :=
  if jsval_eqb k (JStr "0") then 2 else if jsval_eqb k (JStr "1") then 1 else 0.

(** ** Where the two copies agree *)

(** A record without a person name, or one that bears its anchor as a
    non-empty string and gives no parent by name. *)
Definition plainRecord (r : record) : Prop :=
  Person r = ""
  \/ (Eltern1 r = "" /\ Eltern2 r = ""
      /\ exists s, AnchorId r = JStr s /\ s <> "").

(** No event of the registry carries a parent hint. *)
Definition noHints (reg : registry) : Prop :=
  forall p e, In p reg -> In e (events p) -> parent1 e = "" /\ parent2 e = "".

(** ** The marriages of a card *)

Definition hexVal (c : ascii) : option Z :=
  let n := nat_of_ascii c in
  if isDigit c then Some (Z.of_nat n - 48)
  else if ((97 <=? n) && (n <=? 102))%nat then Some (Z.of_nat n - 87)
  else if ((65 <=? n) && (n <=? 70))%nat then Some (Z.of_nat n - 55)
  else None.

Fixpoint readHex (s : string) (acc : Z) : Z :=
  match s with
  | String c r =>
      match hexVal c with
      | Some d => readHex r (16 * acc + d)
      | None => acc
      end
  | EmptyString => acc
  end.

(** [parseInt] without a radix, behind the sign; [None] is [NaN]. *)
Definition parseIntUnsigned (s : string) : option Z :=
  if startsWith s "0x" || startsWith s "0X" then
    match dropS 2 s with
    | String c _ =>
        match hexVal c with
        | Some _ => Some (readHex (dropS 2 s) 0)
        | None => None
        end
    | EmptyString => None
    end
  else
    match s with
    | String c _ => if isDigit c then Some (fst (readDigits s 0)) else None
    | EmptyString => None
    end.

Definition parseInt (s : string) : option Z :=
  match dropWhile isWhite s with
  | String "-"%char r => option_map Z.opp (parseIntUnsigned r)
  | String "+"%char r => parseIntUnsigned r
  | t => parseIntUnsigned t
  end.

(** [parseInt(date) || 0] *)
Definition marriageYear (d : string) : Z :=
  match parseInt d with
  | Some n => n
  | None => 0
  end.

Definition isMarriageCard (c : card) : bool := String.eqb (cardType c) "Heirat".

Section Card.
(** String.prototype.localeCompare is left to the host. *)
Variable localeCompare : string -> string -> Z.

(** The comparator of the marriage sort. *)
Definition compareMarriage (a b : card) : Z :=
  let dateA := cardDate a in
  let dateB := cardDate b in
  let yearA := marriageYear dateA in
  let yearB := marriageYear dateB in
  if negb (yearA =? yearB) then yearA - yearB
  else localeCompare dateA dateB.

(** The marriages of a card in the order they are shown in; [None] when
    the number a date begins with is too large to be held exactly. *)
Definition sortedMarriages (evs : list event) : option (list card) :=
  let uniqueEvents := getUniqueEvents evs in
  let filteredEvents :=
    filter (fun e => negb (String.eqb (cardType e) "Geburt")
                     && negb (String.eqb (cardType e) "Tod")) uniqueEvents in
  let marriages := filter isMarriageCard filteredEvents in
  if forallb (fun m => safeInteger (marriageYear (cardDate m))) marriages
  then Some (sortBy compareMarriage marriages)
  else None.
End Card.

(** The order of two marriages on a card: by the number the date begins
    with, none counting as 0, and for equal numbers the later one does not
    collate in front of the earlier. *)
Definition marriageOrder (localeCompare : string -> string -> Z) (a b : card)
  : Prop :=
  marriageYear (cardDate a) < marriageYear (cardDate b)
  \/ (marriageYear (cardDate a) = marriageYear (cardDate b)
      /\ 0 <= localeCompare (cardDate b) (cardDate a)).

(** * Properties *)

(** ** Date normalizer *)

Example formatDay_epoch : formatDay epochDay = "1899-12-30".
Proof. vm_compute. reflexivity. Qed.

Example convertExcelDate_samples :
  convertExcelDate (JNum 10000) = Some "1927-05-18" /\
  convertExcelDate (JStr "25569") = Some "1970-01-01" /\
  convertExcelDate (JNum 36585) = Some "2000-02-29" /\
  convertExcelDate (JNum 45000) = Some "2023-03-15" /\
  convertExcelDate (JNum 2958465) = Some "9999-12-31" /\
  convertExcelDate (JNum 2958466) = Some "10000-01-01" /\
  convertExcelDate (JNum 100025569) = Some "275760-09-13" /\
  convertExcelDate (JNum 100025570) = Some "100025570" /\
  convertExcelDate (JStr "1920-05-17") = Some "1920" /\
  convertExcelDate (JStr "ca. 1500") = Some "ca. 1500" /\
  convertExcelDate (JStr "0000") = Some "0000" /\
  convertExcelDate (JStr "17.05.1920") = None.
Proof. vm_compute. repeat split; reflexivity. Qed.

(** *** The calendar of the Date object *)

(** A year has 365 or 366 days, by the leap-year rule. *)
Lemma DayFromYear_succ (y : Z) :
  DayFromYear (y + 1) = DayFromYear y + DaysInYear y.
Proof.
  unfold DayFromYear, DaysInYear.
  destruct (Z.eqb_spec (y mod 4) 0); cbn [negb];
    [destruct (Z.eqb_spec (y mod 100) 0); cbn [negb];
     [destruct (Z.eqb_spec (y mod 400) 0); cbn [negb] |] |];
    Z.div_mod_to_equations; lia.
Qed.

Lemma yearSearch_spec (d : Z) (fuel : nat) :
  forall y,
    d < DayFromYear (y + 1) ->
    (exists k, 0 <= k < Z.of_nat fuel /\ DayFromYear (y - k) <= d) ->
    DayFromYear (yearSearch fuel y d) <= d < DayFromYear (yearSearch fuel y d + 1).
Proof.
  induction fuel as [| f IH]; intros y Hup (k & Hk & Hlow).
  - lia.
  - simpl. destruct (Z.leb_spec (DayFromYear y) d) as [Hle | Hgt].
    + lia.
    + apply IH.
      * replace (y - 1 + 1) with y by lia. exact Hgt.
      * exists (k - 1). assert (k <> 0) by (intros ->; rewrite Z.sub_0_r in Hlow; lia).
        split; [lia |]. now replace (y - 1 - (k - 1)) with (y - k) by lia.
Qed.

(** [YearFromDay] is the year of the language definition: the one whose
    first day is not after [d] while that of the next year is. *)
Lemma YearFromDay_spec (d : Z) :
  DayFromYear (YearFromDay d) <= d < DayFromYear (YearFromDay d + 1).
Proof.
  unfold YearFromDay. apply yearSearch_spec.
  - unfold DayFromYear. Z.div_mod_to_equations. lia.
  - exists (Z.abs d / 100000 + 2). split.
    + rewrite Z2Nat.id by (Z.div_mod_to_equations; lia). Z.div_mod_to_equations; lia.
    + unfold DayFromYear. Z.div_mod_to_equations. lia.
Qed.

(** The tables of month and day of the month, checked against [nextDay]
    on every day of an ordinary and of a leap year. *)
Lemma stepChecked_all :
  forallb (fun w => stepChecked 0 (Z.of_nat w) && stepChecked 1 (Z.of_nat w))
          (seq 0 366) = true.
Proof. vm_compute. reflexivity. Qed.

Lemma stepChecked_ok (l w : Z) :
  l = 0 \/ l = 1 -> 0 <= w < 365 + l -> stepChecked l w = true.
Proof.
  intros Hl Hw. pose proof stepChecked_all as H.
  rewrite forallb_forall in H. specialize (H (Z.to_nat w)).
  rewrite Z2Nat.id in H by lia.
  assert (Hin : In (Z.to_nat w) (seq 0 366)) by (apply in_seq; lia).
  apply H in Hin. apply andb_true_iff in Hin as [H0 H1].
  destruct Hl as [-> | ->]; assumption.
Qed.

Lemma DaysInYear_cases (y : Z) : InLeapYear y = 0 \/ InLeapYear y = 1.
Proof.
  unfold InLeapYear, DaysInYear.
  destruct (negb (y mod 4 =? 0)); [now left |].
  destruct (negb (y mod 100 =? 0)); [now right |].
  destruct (negb (y mod 400 =? 0)); [now left | now right].
Qed.

Lemma DayFromYear_mono (y1 y2 : Z) : y1 < y2 -> DayFromYear y1 < DayFromYear y2.
Proof. unfold DayFromYear. intros H. Z.div_mod_to_equations. lia. Qed.

Lemma YearFromDay_unique (d y : Z) :
  DayFromYear y <= d < DayFromYear (y + 1) -> YearFromDay d = y.
Proof.
  intros H. pose proof (YearFromDay_spec d) as Hs.
  destruct (Z.lt_trichotomy (YearFromDay d) y) as [Hlt | [Heq | Hgt]];
    [| assumption |].
  - assert (DayFromYear (YearFromDay d + 1) <= DayFromYear y).
    { destruct (Z.eq_dec (YearFromDay d + 1) y) as [-> | Hne]; [lia |].
      apply Z.lt_le_incl, DayFromYear_mono. lia. }
    lia.
  - assert (DayFromYear (y + 1) <= DayFromYear (YearFromDay d)).
    { destruct (Z.eq_dec (y + 1) (YearFromDay d)) as [-> | Hne]; [lia |].
      apply Z.lt_le_incl, DayFromYear_mono. lia. }
    lia.
Qed.

Lemma civil_of_year (d y w : Z) :
  d = DayFromYear y + w -> 0 <= w < 365 + InLeapYear y ->
  YearFromDay d = y /\ DayWithinYear d = w.
Proof.
  intros -> Hw.
  assert (Hy : YearFromDay (DayFromYear y + w) = y).
  { apply YearFromDay_unique. rewrite DayFromYear_succ. unfold InLeapYear in Hw. lia. }
  split; [assumption |]. unfold DayWithinYear. rewrite Hy. lia.
Qed.

(** The calendar date of the next day number is the next calendar
    date. *)
Lemma civil_succ (d : Z) : civil (d + 1) = nextDay (civil d).
Proof.
  pose proof (YearFromDay_spec d) as Hs.
  set (y := YearFromDay d) in *.
  set (w := d - DayFromYear y).
  rewrite DayFromYear_succ in Hs.
  pose proof (DaysInYear_cases y) as Hl.
  assert (Hrange : 0 <= w < 365 + InLeapYear y).
  { unfold w, InLeapYear. lia. }
  assert (Hd : YearFromDay d = y /\ DayWithinYear d = w).
  { apply civil_of_year; [unfold w; lia | assumption]. }
  destruct Hd as [Hy Hw].
  pose proof (stepChecked_ok _ _ Hl Hrange) as Hstep.
  unfold stepChecked in Hstep.
  unfold civil, nextDay, MonthFromDay, DateFromDay. fold y. rewrite Hw.
  destruct (Z.ltb_spec (w + 1) (365 + InLeapYear y)) as [Hin | Hout].
  - assert (Hd1 : YearFromDay (d + 1) = y /\ DayWithinYear (d + 1) = w + 1).
    { apply civil_of_year; [unfold w; lia | lia]. }
    destruct Hd1 as [-> ->].
    destruct (dateOfYearDay w (InLeapYear y)
              <? daysInMonth (InLeapYear y) (monthOfYearDay w (InLeapYear y) + 1)).
    + apply andb_true_iff in Hstep as [H1 H2].
      apply Z.eqb_eq in H1, H2. now rewrite H1, H2.
    + apply andb_true_iff in Hstep as [H1 H3].
      apply andb_true_iff in H1 as [H1 H2].
      rewrite H1. apply Z.eqb_eq in H2, H3. now rewrite H2, H3.
  - assert (Hd1 : YearFromDay (d + 1) = y + 1 /\ DayWithinYear (d + 1) = 0).
    { apply civil_of_year.
      - rewrite DayFromYear_succ. unfold w, InLeapYear in *. lia.
      - destruct (DaysInYear_cases (y + 1)); lia. }
    destruct Hd1 as [-> ->].
    apply andb_true_iff in Hstep as [H1 H2].
    apply negb_true_iff in H1, H2. rewrite H1, H2. reflexivity.
Qed.

Lemma civil_daysAfter (d : Z) (n : nat) :
  civil (d + Z.of_nat n) = daysAfter n (civil d).
Proof.
  induction n as [| n IH].
  - now rewrite Z.add_0_r.
  - rewrite Nat2Z.inj_succ. replace (d + Z.succ (Z.of_nat n)) with (d + Z.of_nat n + 1) by lia.
    rewrite civil_succ, IH. reflexivity.
Qed.

Lemma civil_epoch : civil epochDay = (1899, 12, 30).
Proof. vm_compute. reflexivity. Qed.

(** The date printed for day [epochDay + n] is the one reached from
    Dec 30, 1899 by going to the next day [n] times. *)
Lemma formatDay_daysAfter (n : Z) :
  0 <= n ->
  formatDay (epochDay + n) = printDate (daysAfter (Z.to_nat n) (1899, 12, 30)).
Proof.
  intros Hn. unfold formatDay. rewrite <- civil_epoch, <- civil_daysAfter.
  now rewrite Z2Nat.id.
Qed.

(** C1, as the spec has it, fails: the serial numbers 1, 60 and 61 lie
    below 10000 and are read as years, so that [1] is not turned into
    the first day of 1900. *)
Lemma normalizeDate_examples_refuted :
  ~ (convertExcelDate (JNum 0) = Some ""
     /\ convertExcelDate (JNum 1485) = Some "1485"
     /\ convertExcelDate (JNum 1) = Some "1900-01-01"
     /\ convertExcelDate (JNum 60) = Some "1900-02-29"
     /\ convertExcelDate (JNum 61) = Some "1900-03-01").
Proof.
  intros (_ & _ & H & _). vm_compute in H. discriminate H.
Qed.

(** C1, amended: the normalizer maps 0 to the empty string and each of
    1485, 1, 60 and 61 to its own decimal form, every number below 10000
    being a bare year. *)
Theorem normalizeDate_examples :
  convertExcelDate (JNum 0) = Some ""
  /\ convertExcelDate (JNum 1485) = Some "1485"
  /\ convertExcelDate (JNum 1) = Some "1"
  /\ convertExcelDate (JNum 60) = Some "60"
  /\ convertExcelDate (JNum 61) = Some "61".
Proof. vm_compute. repeat split; reflexivity. Qed.

(** The branch that adds [n + 1] days is never taken: it sits behind the
    test that sends every number below 10000 away as a year. *)
Lemma daysToAdd_is_serial (n : Z) :
  10000 <= n -> (if 60 <=? n then n else n + 1) = n.
Proof. intros H. destruct (60 <=? n) eqn:E; [reflexivity | lia]. Qed.

Lemma epoch_plus_days (n : Z) :
  (excelEpoch + n * 24 * 60 * 60 * 1000) / msPerDay = epochDay + n.
Proof.
  unfold excelEpoch, msPerDay, epochDay.
  replace (-25569 * 86400000 + n * 24 * 60 * 60 * 1000)
    with ((-25569 + n) * 86400000) by lia.
  apply Z.div_mul. lia.
Qed.

Lemma timeClip_range (n : Z) :
  10000 <= n ->
  timeClip (excelEpoch + n * 24 * 60 * 60 * 1000) =
  if n <=? 100025569 then Some (excelEpoch + n * 24 * 60 * 60 * 1000) else None.
Proof.
  intros H. unfold timeClip, excelEpoch, msPerDay.
  destruct (n <=? 100025569) eqn:E.
  - apply Z.leb_le in E.
    destruct (Z.leb_spec (Z.abs (-25569 * 86400000 + n * 24 * 60 * 60 * 1000))
                8640000000000000); [reflexivity | lia].
  - apply Z.leb_gt in E.
    destruct (Z.leb_spec (Z.abs (-25569 * 86400000 + n * 24 * 60 * 60 * 1000))
                8640000000000000); [lia | reflexivity].
Qed.

Lemma truthy_not_zero (v : jsval) :
  truthy v = true -> v <> JStr "0" ->
  negb (truthy v) || jsval_eqb v (JStr "") || jsval_eqb v (JStr "0")
    || jsval_eqb v (JNum 0) = false.
Proof.
  intros Ht Hz. rewrite Ht. simpl.
  destruct v as [ | | n | s]; simpl in *; try discriminate.
  - destruct (n =? 0); [discriminate | reflexivity].
  - destruct (String.eqb_spec s ""); [discriminate |].
    destruct (String.eqb_spec s "0"); [subst; congruence | reflexivity].
Qed.




(** ** Basic facts *)

Lemma jsval_eqb_eq (a b : jsval) : jsval_eqb a b = true <-> a = b.
Proof.
  destruct a, b; simpl; split; intros H; try discriminate; try reflexivity.
  - apply Z.eqb_eq in H. now subst.
  - inversion H. apply Z.eqb_refl.
  - apply String.eqb_eq in H. now subst.
  - inversion H. apply String.eqb_refl.
Qed.

Lemma jsval_eqb_refl (a : jsval) : jsval_eqb a a = true.
Proof. now apply jsval_eqb_eq. Qed.

Lemma jsval_eqb_sym (a b : jsval) : jsval_eqb a b = jsval_eqb b a.
Proof.
  destruct (jsval_eqb a b) eqn:E; symmetry.
  - apply jsval_eqb_eq in E. subst. apply jsval_eqb_refl.
  - destruct (jsval_eqb b a) eqn:E'; [| reflexivity].
    apply jsval_eqb_eq in E'. subst. now rewrite jsval_eqb_refl in E.
Qed.

Lemma visited_has (k : jsval) (visited : list jsval) :
  existsb (jsval_eqb k) visited = true <-> In k visited.
Proof.
  rewrite existsb_exists. split.
  - intros (x & Hin & Hx). apply jsval_eqb_eq in Hx. now subst.
  - intros Hin. exists k. split; [assumption | apply jsval_eqb_refl].
Qed.

Lemma persons_get_some (k : jsval) (reg : registry) (p : person) :
  persons_get k reg = Some p -> In p reg /\ id p = k.
Proof.
  unfold persons_get. intros H. apply find_some in H as [Hin Hid].
  apply jsval_eqb_eq in Hid. now split.
Qed.

(** [find] returns the first element in list order that passes the test. *)
Lemma find_first {A : Type} (f : A -> bool) (l : list A) (x : A) :
  find f l = Some x ->
  exists before after,
    l = before ++ x :: after /\ f x = true /\ Forall (fun y => f y = false) before.
Proof.
  induction l as [| a l IH]; simpl; [discriminate |].
  destruct (f a) eqn:E.
  - intros [= ->]. exists [], l. repeat split; [assumption | constructor].
  - intros H. destruct (IH H) as (b & c & -> & Hx & Hb).
    exists (a :: b), c. repeat split; [assumption | now constructor].
Qed.

Lemma find_none_all {A : Type} (f : A -> bool) (l : list A) :
  find f l = None -> Forall (fun y => f y = false) l.
Proof.
  intros H. apply Forall_forall. intros y Hy. now apply (find_none f l H).
Qed.

(** ** Navigator: the upward walk *)

Lemma walkUp_spec (reg : registry) (fuel : nat) :
  forall visited path current out,
    walkUp fuel reg visited path current = Some out ->
    exists ext,
      out = path ++ ext
      /\ (forall i p, nth_error ext i = Some p -> ancestor reg i current = Some p)
      /\ NoDup (map id ext)
      /\ (forall p, In p ext -> ~ In (id p) visited)
      /\ (forall p, In p ext -> p = current \/ In p reg).
Proof.
  induction fuel as [| f IH]; intros visited path current out H; simpl in H.
  - discriminate.
  - destruct (existsb (jsval_eqb (id current)) visited) eqn:Hv.
    + injection H as <-. exists []. rewrite app_nil_r.
      repeat split; try (intros; contradiction); try constructor.
      intros i p Hn. destruct i; discriminate.
    + assert (Hnot : ~ In (id current) visited).
      { intros Hin. apply visited_has in Hin. congruence. }
      assert (Hone : forall i p, nth_error [current] i = Some p ->
                                 ancestor reg i current = Some p).
      { intros [| [| i]] p Hn; simpl in Hn; try discriminate.
        now injection Hn as <-. }
      assert (Hstop : out = path ++ [current] ->
                exists ext, out = path ++ ext
                  /\ (forall i p, nth_error ext i = Some p ->
                                  ancestor reg i current = Some p)
                  /\ NoDup (map id ext)
                  /\ (forall p, In p ext -> ~ In (id p) visited)
                  /\ (forall p, In p ext -> p = current \/ In p reg)).
      { intros ->. exists [current]. repeat split.
        - exact Hone.
        - simpl. constructor; [intros [] | constructor].
        - intros p [<- | []]. exact Hnot.
        - intros p [<- | []]. now left. }
      destruct (walksOn current) eqn:Hw.
      * destruct (persons_get (parentId current) reg) as [parent |] eqn:Hg.
        -- destruct (IH _ _ _ _ H) as (ext & -> & Hanc & Hnd & Hvis & Hreg).
           exists (current :: ext). rewrite <- app_assoc. simpl.
           repeat split.
           ++ intros [| i] p Hn; simpl in Hn.
              ** now injection Hn as <-.
              ** simpl. unfold parentOf. rewrite Hw, Hg. now apply Hanc.
           ++ simpl. constructor; [| assumption].
              intros Hin. apply in_map_iff in Hin as (q & Hq & Hin).
              apply (Hvis q Hin). left. now symmetry.
           ++ intros p [<- | Hin]; [exact Hnot |].
              intros Hin'. apply (Hvis p Hin). now right.
           ++ intros p [<- | Hin]; [now left |].
              destruct (Hreg p Hin) as [-> | Hr]; [| now right].
              right. now apply persons_get_some in Hg.
        -- injection H as <-. now apply Hstop.
      * injection H as <-. now apply Hstop.
Qed.

Lemma walkUp_enough_fuel (reg : registry) (base : list jsval) :
  (forall p, In p reg -> In (id p) base) ->
  forall fuel visited path current,
    NoDup visited -> incl visited base -> In (id current) base ->
    (List.length base < fuel + List.length visited)%nat ->
    exists out, walkUp fuel reg visited path current = Some out.
Proof.
  intros Hbase. induction fuel as [| f IH]; intros visited path current Hnd Hincl Hcur Hlen.
  - pose proof (NoDup_incl_length Hnd Hincl). simpl in Hlen. lia.
  - simpl. destruct (existsb (jsval_eqb (id current)) visited) eqn:Hv.
    + now eexists.
    + destruct (walksOn current); [| now eexists].
      destruct (persons_get (parentId current) reg) as [parent |] eqn:Hg;
        [| now eexists].
      apply IH.
      * constructor; [| assumption].
        intros Hin. apply visited_has in Hin. congruence.
      * intros k [<- | Hk]; [assumption | now apply Hincl].
      * apply Hbase. now apply persons_get_some in Hg.
      * simpl. lia.
Qed.

(** More fuel does not change a result once it is there. *)
Lemma walkUp_more_fuel (reg : registry) (fuel : nat) :
  forall extra visited path current out,
    walkUp fuel reg visited path current = Some out ->
    walkUp (fuel + extra) reg visited path current = Some out.
Proof.
  induction fuel as [| f IH]; intros extra visited path current out H;
    [discriminate |].
  simpl in *. destruct (existsb (jsval_eqb (id current)) visited); [assumption |].
  destruct (walksOn current); [| assumption].
  destruct (persons_get (parentId current) reg); [| assumption].
  now apply IH.
Qed.

(** C6: for every registry, whatever its parent links, and every person,
    the upward walk of [getPathToRoot] ends within the fuel given to it
    and the function returns; the persons walked over have pairwise
    different identifiers; the [i]-th of them is the [i]-th ancestor of
    the starting person, so the walk is no longer than the ancestor chain
    and never longer than the registry plus the starting person. *)
Theorem pathToRoot_terminates (reg : registry) (root start : person) :
  exists walk,
    walkUp (List.length reg + 2) reg [] [] start = Some walk
    /\ getPathToRoot reg root start = Some (rev (anchorAtRoot root walk))
    /\ NoDup (map id walk)
    /\ (forall i p, nth_error walk i = Some p -> ancestor reg i start = Some p)
    /\ (List.length walk <= S (List.length reg))%nat.
Proof.
  set (base := id start :: map id reg).
  destruct (walkUp_enough_fuel reg base) with
    (fuel := (List.length reg + 2)%nat) (visited := @nil jsval)
    (path := @nil person) (current := start) as (walk & Hw).
  - intros p Hp. right. now apply in_map.
  - constructor.
  - intros k [].
  - now left.
  - unfold base. simpl. rewrite length_map. lia.
  - exists walk. split; [exact Hw |].
    unfold getPathToRoot. rewrite Hw. split; [reflexivity |].
    destruct (walkUp_spec _ _ _ _ _ _ Hw) as (ext & -> & Hanc & Hnd & _ & Hreg).
    simpl. repeat split; try assumption.
    assert (Hincl : incl (map id ext) base).
    { intros k Hk. apply in_map_iff in Hk as (p & <- & Hp).
      destruct (Hreg p Hp) as [-> | Hr]; [now left |].
      right. now apply in_map. }
    pose proof (NoDup_incl_length Hnd Hincl) as Hl.
    unfold base in Hl. simpl in Hl. rewrite !length_map in Hl. exact Hl.
Qed.

(** On the two persons that name each other as parent the walk stops
    when it comes back to its start.  The root is the first person, Anna;
    the walk from Anna ends at Bert, so the root is put in front once
    more. *)
Example cycle_paths :
  option_map name (rootPerson cycleTree) = Some "Anna"
  /\ option_map (map name)
       (walkUp 4 (persons cycleTree) [] [] (personNamed cycleTree "Bert"))
     = Some ["Bert"; "Anna"]
  /\ option_map (map name)
       (getPathToRoot (persons cycleTree) (personNamed cycleTree "Anna")
                      (personNamed cycleTree "Bert"))
     = Some ["Anna"; "Bert"]
  /\ option_map (map name)
       (getPathToRoot (persons cycleTree) (personNamed cycleTree "Anna")
                      (personNamed cycleTree "Anna"))
     = Some ["Anna"; "Bert"; "Anna"].
Proof. vm_compute. repeat split; reflexivity. Qed.

Example demoTree_built : buildTree Block demoData = Some demoTree.
Proof. vm_compute. reflexivity. Qed.

Example demoTree_children :
  map (fun p => (name p, children p)) (persons demoTree)
  = [ ("Rosa", [JStr "1"; JStr "2"]); ("Karl", []);
      ("Anna", [JStr "3"]); ("Emil", []) ].
Proof. vm_compute. reflexivity. Qed.

Example demoTree_path :
  option_map (map name)
    (getPathToRoot (persons demoTree) (personNamed demoTree "Rosa")
                   (personNamed demoTree "Emil"))
  = Some ["Rosa"; "Anna"; "Emil"].
Proof. vm_compute. reflexivity. Qed.

Lemma walkUp_starts (reg : registry) (fuel : nat) (start : person)
      (out : list person) :
  walkUp fuel reg [] [] start = Some out -> exists more, out = start :: more.
Proof.
  destruct fuel as [| f]; simpl; [discriminate |].
  destruct (walksOn start).
  - destruct (persons_get (parentId start) reg) as [parent |].
    + intros H. destruct (walkUp_spec _ _ _ _ _ _ H) as (ext & -> & _).
      now exists ext.
    + intros [= <-]. now exists [].
  - intros [= <-]. now exists [].
Qed.

(** The path returned ends in the person it was asked for. *)
Lemma getPathToRoot_ends_in_start (reg : registry) (root start : person)
      (path : list person) :
  getPathToRoot reg root start = Some path ->
  exists front, path = front ++ [start].
Proof.
  unfold getPathToRoot.
  destruct (walkUp (List.length reg + 2) reg [] [] start) as [walk |] eqn:Hw;
    [| discriminate].
  intros [= <-]. destruct (walkUp_starts _ _ _ _ Hw) as (more & ->).
  unfold anchorAtRoot.
  destruct (last (map Some (start :: more)) None) as [top |].
  - destruct (jsval_eqb (id top) (id root)).
    + exists (rev more). reflexivity.
    + exists (root :: rev more). rewrite rev_app_distr. reflexivity.
  - exists (root :: rev more). rewrite rev_app_distr. reflexivity.
Qed.

Lemma crumbUp_walkUp (reg : registry) (fuel : nat) :
  forall visited path current,
    crumbUp fuel reg visited (rev path) current
    = option_map (@rev person) (walkUp fuel reg visited path current).
Proof.
  induction fuel as [| f IH]; intros visited path current; [reflexivity |].
  simpl. destruct (existsb (jsval_eqb (id current)) visited); [reflexivity |].
  assert (Hrev : current :: rev path = rev (path ++ [current])).
  { now rewrite rev_app_distr. }
  destruct (walksOn current).
  - destruct (persons_get (parentId current) reg) as [parent |].
    + rewrite Hrev. apply IH.
    + simpl. now rewrite Hrev.
  - simpl. now rewrite Hrev.
Qed.

Lemma last_rev_head {A : Type} (l : list A) :
  last (map Some l) None = hd_error (rev l).
Proof.
  induction l as [| a l IH]; [reflexivity |].
  simpl rev. destruct l as [| b l]; [reflexivity |].
  change (last (map Some (a :: b :: l)) None) with (last (map Some (b :: l)) None).
  rewrite IH. simpl rev. destruct (rev l ++ [b]) eqn:E; [| reflexivity].
  destruct (rev l); discriminate E.
Qed.

(** The breadcrumb path is the path to the root. *)
Lemma getBreadcrumbPath_getPathToRoot (reg : registry) (root start : person) :
  getBreadcrumbPath reg root start = getPathToRoot reg root start.
Proof.
  unfold getBreadcrumbPath, getPathToRoot.
  change (@nil person) with (rev (@nil person)) at 1.
  rewrite crumbUp_walkUp.
  destruct (walkUp (List.length reg + 2) reg [] [] start) as [walk |];
    [| reflexivity].
  simpl. unfold anchorAtRoot. rewrite last_rev_head.
  destruct (rev walk) as [| top more] eqn:E; simpl.
  - rewrite rev_app_distr. simpl. now rewrite E.
  - destruct (jsval_eqb (id top) (id root)); [now rewrite E |].
    rewrite rev_app_distr. simpl. now rewrite E.
Qed.

(** ** Navigator: focus from a persisted path *)

Lemma followPath_resolved (reg : registry) (resolved rest : list string) :
  Forall (resolves reg) resolved ->
  forall cur,
    followPath reg (resolved ++ rest) cur
    = followPath reg rest
        (match rev resolved with
         | [] => cur
         | n :: _ => findByName reg (trim n)
         end).
Proof.
  induction 1 as [| n r Hn Hr IH]; intros cur; [reflexivity |].
  simpl. unfold resolves in Hn.
  destruct (findByName reg (trim n)) as [p |] eqn:Hf; [| congruence].
  rewrite IH. destruct (rev r) as [| m x]; simpl; [now rewrite Hf | reflexivity].
Qed.

Lemma followPath_unresolved (reg : registry) (rest : list string)
      (cur : option person) :
  (forall bad more, rest = bad :: more -> findByName reg (trim bad) = None) ->
  followPath reg rest cur = cur.
Proof.
  destruct rest as [| bad more]; [reflexivity |].
  intros H. simpl. now rewrite (H bad more eq_refl).
Qed.

(** C3, as the spec has it, fails: with Rosa and Anna found and the third
    name unknown the focus is Anna, not the root Rosa. *)
Lemma reconstruct_keeps_last_resolved :
  findByName (persons demoTree) (trim "Zed") = None
  /\ reconstruct demoTree ["Rosa"; "Anna"; "Zed"]
     = Some (personNamed demoTree "Anna")
  /\ currentRoot (loadFromURL demoTree "Rosa > Anna > Zed")
     = Some (personNamed demoTree "Anna")
  /\ reconstruct demoTree ["Rosa"; "Anna"; "Zed"] <> rootPerson demoTree.
Proof.
  vm_compute. repeat split; try reflexivity. discriminate.
Qed.

(** C3, amended: when the names of the list resolve up to a first
    unresolved name, or all of them do, the focus becomes the person found
    for the last resolved name, that is the first person in registry order
    bearing the trimmed name; it is the root only when no name was
    resolved.  So the original focus is reproduced when its name ends the
    resolved part and it is the first person bearing that name. *)
Theorem reconstruct_focus (t : FamilyTree) (resolved rest : list string) :
  Forall (resolves (persons t)) resolved ->
  (forall bad more, rest = bad :: more ->
                    findByName (persons t) (trim bad) = None) ->
  reconstruct t (resolved ++ rest)
  = match rev resolved with
    | [] => rootPerson t
    | n :: _ => findByName (persons t) (trim n)
    end
  /\ (forall f front,
        resolved = front ++ [name f] ->
        findByName (persons t) (trim (name f)) = Some f ->
        reconstruct t (resolved ++ rest) = Some f).
Proof.
  intros Hres Hbad.
  assert (Hmain : reconstruct t (resolved ++ rest)
                  = match rev resolved with
                    | [] => rootPerson t
                    | n :: _ => findByName (persons t) (trim n)
                    end).
  { unfold reconstruct. rewrite followPath_resolved by assumption.
    rewrite followPath_unresolved by assumption.
    destruct (rev resolved) as [| n x] eqn:Hrev; [reflexivity |].
    assert (Hn : In n resolved).
    { apply in_rev. rewrite Hrev. now left. }
    rewrite Forall_forall in Hres. specialize (Hres n Hn). unfold resolves in Hres.
    destruct (findByName (persons t) (trim n)); [reflexivity | congruence]. }
  split; [exact Hmain |].
  intros f front -> Hf. rewrite Hmain, rev_app_distr. simpl. exact Hf.
Qed.

Lemma reconstruct_focus_witness :
  reconstruct demoTree (["Rosa"; "Anna"] ++ ["Zed"])
  = findByName (persons demoTree) (trim "Anna")
  /\ reconstruct demoTree (["Rosa"; "Anna"; "Emil"] ++ [])
     = Some (personNamed demoTree "Emil").
Proof.
  split.
  - refine (proj1 (reconstruct_focus demoTree ["Rosa"; "Anna"] ["Zed"] _ _)).
    + repeat constructor; unfold resolves; vm_compute; discriminate.
    + intros bad more [= <- <-]. reflexivity.
  - refine (proj2 (reconstruct_focus demoTree ["Rosa"; "Anna"; "Emil"] [] _ _)
              (personNamed demoTree "Emil") ["Rosa"; "Anna"] _ _).
    + repeat constructor; unfold resolves; vm_compute; discriminate.
    + intros bad more [=].
    + reflexivity.
    + reflexivity.
Defined.

(** The names of a breadcrumb path lead back to the person the path was
    computed for, provided they all resolve and the person is the first
    one bearing its name. *)
Lemma reconstruct_breadcrumb (t : FamilyTree) (root f : person)
      (path : list person) :
  getBreadcrumbPath (persons t) root f = Some path ->
  Forall (resolves (persons t)) (map name path) ->
  findByName (persons t) (trim (name f)) = Some f ->
  reconstruct t (map name path) = Some f.
Proof.
  intros Hp Hres Hf. rewrite getBreadcrumbPath_getPathToRoot in Hp.
  destruct (getPathToRoot_ends_in_start _ _ _ _ Hp) as (front & ->).
  unfold reconstruct.
  rewrite <- (app_nil_r (map name (front ++ [f]))).
  rewrite followPath_resolved by assumption.
  rewrite map_app, rev_app_distr. simpl. now rewrite Hf.
Qed.

(** ** Root selection *)

Lemma earlier_known (acc c : person) :
  hasBirth (getBirthDate acc) = true ->
  hasBirth (getBirthDate (earlier acc c)) = true
  /\ yearOf (getBirthDate (earlier acc c)) <= yearOf (getBirthDate acc)
  /\ (hasBirth (getBirthDate c) = true ->
      yearOf (getBirthDate (earlier acc c)) <= yearOf (getBirthDate c))
  /\ (earlier acc c = acc \/ earlier acc c = c).
Proof.
  intros Ha. unfold earlier. rewrite Ha. simpl.
  destruct (hasBirth (getBirthDate c)) eqn:Hc; simpl.
  - destruct (Z.ltb_spec (yearOf (getBirthDate acc)) (yearOf (getBirthDate c))).
    + repeat split; try assumption; try lia. now left.
    + repeat split; try assumption; try lia. now right.
  - repeat split; try assumption; try lia; try discriminate. now left.
Qed.

Lemma reduceEarlier_in (rest : list person) :
  forall acc, In (reduceEarlier acc rest) (acc :: rest).
Proof.
  unfold reduceEarlier.
  induction rest as [| c rest IH]; intros acc; simpl; [now left |].
  destruct (IH (earlier acc c)) as [H | H].
  - rewrite <- H. unfold earlier.
    destruct (negb (hasBirth (getBirthDate acc))); [right; now left |].
    destruct (negb (hasBirth (getBirthDate c))); [now left |].
    destruct (_ <? _); [now left | right; now left].
  - right. now right.
Qed.

Lemma reduceEarlier_known (rest : list person) :
  forall acc,
    hasBirth (getBirthDate acc) = true ->
    hasBirth (getBirthDate (reduceEarlier acc rest)) = true
    /\ forall c, In c (acc :: rest) -> hasBirth (getBirthDate c) = true ->
                 yearOf (getBirthDate (reduceEarlier acc rest))
                 <= yearOf (getBirthDate c).
Proof.
  unfold reduceEarlier.
  induction rest as [| c rest IH]; intros acc Ha; simpl.
  - split; [assumption |]. intros c [<- | []] _. lia.
  - destruct (earlier_known acc c Ha) as (Hk & Hle & Hc & _).
    destruct (IH _ Hk) as (Hr & Hmin). split; [assumption |].
    intros d [<- | [<- | Hd]] Hdk.
    + specialize (Hmin _ (or_introl eq_refl) Hk). lia.
    + specialize (Hmin _ (or_introl eq_refl) Hk). specialize (Hc Hdk). lia.
    + apply Hmin; [now right | assumption].
Qed.

Lemma reduceEarlier_some_known (rest : list person) :
  forall acc,
    (exists c, In c (acc :: rest) /\ hasBirth (getBirthDate c) = true) ->
    hasBirth (getBirthDate (reduceEarlier acc rest)) = true
    /\ forall c, In c (acc :: rest) -> hasBirth (getBirthDate c) = true ->
                 yearOf (getBirthDate (reduceEarlier acc rest))
                 <= yearOf (getBirthDate c).
Proof.
  induction rest as [| c rest IH]; intros acc (k & Hin & Hk).
  - destruct Hin as [<- | []]. now apply reduceEarlier_known.
  - destruct (hasBirth (getBirthDate acc)) eqn:Ha.
    + now apply reduceEarlier_known.
    + assert (Hstep : reduceEarlier acc (c :: rest) = reduceEarlier c rest).
      { unfold reduceEarlier. simpl. unfold earlier. now rewrite Ha. }
      rewrite Hstep. destruct (IH c) as (Hr & Hmin).
      * exists k. split; [| assumption].
        destruct Hin as [<- | Hin]; [congruence | assumption].
      * split; [assumption |]. intros d [<- | Hd] Hdk; [congruence |].
        now apply Hmin.
Qed.

Lemma last_nonempty {A : Type} (l : list A) (x d d' : A) :
  last (x :: l) d = last (x :: l) d'.
Proof.
  revert x. induction l as [| y l IH]; intros x; [reflexivity |].
  change (last (y :: l) d = last (y :: l) d'). apply IH.
Qed.

Lemma reduceEarlier_unknown (rest : list person) :
  forall acc,
    (forall c, In c (acc :: rest) -> hasBirth (getBirthDate c) = false) ->
    reduceEarlier acc rest = last rest acc.
Proof.
  unfold reduceEarlier.
  induction rest as [| c rest IH]; intros acc H; [reflexivity |].
  simpl fold_left. unfold earlier at 2.
  rewrite (H acc (or_introl eq_refl)). simpl negb. cbv iota.
  rewrite IH.
  - destruct rest as [| p rest']; [reflexivity |].
    change (last (c :: p :: rest') acc) with (last (p :: rest') acc).
    apply last_nonempty.
  - intros d Hd. apply H. now right.
Qed.

Lemma selectRoot_fallback (reg : registry) :
  (forall p0, persons_get (JStr "0") reg = Some p0 -> noParent p0 = false) ->
  selectRoot reg = fallbackRoot reg.
Proof.
  intros H. unfold selectRoot.
  destruct (persons_get (JStr "0") reg) as [p0 |]; [| reflexivity].
  now rewrite (H p0 eq_refl).
Qed.




Example foundling_root :
  option_map name (selectRoot (persons foundlingTree)) = Some "Anna".
Proof. vm_compute. reflexivity. Qed.

(** ** Ingestion *)

(** C5 fails on the code: the copy under [widgets/] keys the map by the
    raw anchor id, so two records whose anchor ids are the number 5 and
    the string ["5"], equal after string normalization, give two persons
    with one event each; the other copy normalizes the id and has one
    person with both events. *)
Theorem ingestion_mixed_anchor :
  (exists t, buildTree Widget mixedAnchorData = Some t
             /\ summary (persons t) = [ (JNum 5, "Anna", 1%nat);
                                        (JStr "5", "Anna", 1%nat) ])
  /\ (exists t, buildTree Block mixedAnchorData = Some t
                /\ summary (persons t) = [ (JStr "5", "Anna", 2%nat) ]).
Proof.
  split; eexists; (split; [vm_compute; reflexivity |]); reflexivity.
Qed.

(** Both copies take the number 0 for an absent anchor id: given once as
    the number and once as the string ["0"], which is one id after string
    normalization, it yields two persons of one event each, the first one
    keyed by the person's name. *)
Lemma ingestion_splits_zero_anchor :
  toString (JNum 0) = toString (JStr "0")
  /\ forall v, exists t,
      buildTree v zeroAnchorData = Some t
      /\ summary (persons t) = [ (JStr "Peter", "Peter", 1%nat);
                                 (JStr "0", "Peter", 1%nat) ].
Proof.
  split; [reflexivity |].
  intros v. destruct v; eexists; (split; [vm_compute; reflexivity |]);
    reflexivity.
Qed.

(** In the other copy a record without anchor id whose person name is
    not borne by anybody, but is the key of somebody, replaces that
    person: the event ingested before is gone. *)
Lemma ingestion_shadowed_anchor :
  exists t, buildTree Block shadowData = Some t
            /\ summary (persons t) = [ (JStr "Hans", "Hans", 2%nat) ]
            /\ map (fun p => map type (events p)) (persons t)
               = [ ["Geburt"; "Tod"] ]
            /\ map (fun p => map date (events p)) (persons t)
               = [ ["1510"; "1550"] ].
Proof.
  eexists. split; [vm_compute; reflexivity |]. repeat split; reflexivity.
Qed.

(** The three ways of identity resolution of the copy that has them. *)
Lemma resolveIdentity_block (r : record) (reg : registry) :
  (truthy (AnchorId r) = true ->
   snd (resolveIdentity Block r reg) = JStr (toString (AnchorId r)))
  /\ (truthy (AnchorId r) = false ->
      forall existing, findByName reg (Person r) = Some existing ->
        resolveIdentity Block r reg = (reg, id existing))
  /\ (truthy (AnchorId r) = false ->
      findByName reg (Person r) = None ->
      resolveIdentity Block r reg
      = (persons_set (newPerson (JStr (Person r)) (Person r)) reg,
         JStr (Person r))).
Proof.
  unfold resolveIdentity, findByName. repeat split.
  - intros ->. now destruct (persons_has _ reg).
  - intros -> existing ->. reflexivity.
  - intros -> ->. reflexivity.
Qed.

(** ** Parent resolution by name *)

Lemma startsWith_prefix (s p : string) :
  startsWith s p = true <-> exists rest, s = (p ++ rest)%string.
Proof.
  revert s. induction p as [| a p IH]; intros s; simpl.
  - split; [intros _; now exists s | intros _; now destruct s].
  - destruct s as [| b s].
    + split; [discriminate | intros (rest & H); discriminate H].
    + simpl. rewrite andb_true_iff, IH. split.
      * intros (Hab & rest & ->). apply Ascii.eqb_eq in Hab. subst.
        now exists rest.
      * intros (rest & [= -> ->]). split; [apply Ascii.eqb_refl | now exists rest].
Qed.

(** [includes] is the substring test. *)
Lemma includes_substring (s p : string) :
  includes s p = true <-> exists front rest, s = (front ++ p ++ rest)%string.
Proof.
  induction s as [| c s IH].
  - change (includes "" p) with (startsWith "" p || false).
    rewrite orb_false_r, startsWith_prefix. split.
    + intros (rest & H). now exists EmptyString, rest.
    + intros (front & rest & H). destruct front; [now exists rest |].
      discriminate H.
  - change (includes (String c s) p)
      with (startsWith (String c s) p || includes s p).
    rewrite orb_true_iff, startsWith_prefix, IH. split.
    + intros [(rest & H) | (front & rest & ->)].
      * now exists EmptyString, rest.
      * now exists (String c front), rest.
    + intros (front & rest & H). destruct front as [| d front].
      * left. now exists rest.
      * right. injection H as -> ->. now exists front, rest.
Qed.

(** A person matches a hint when the name equals the hint, contains it or
    is contained in it. *)
Lemma nameMatches_iff (hint : string) (p : person) :
  nameMatches hint p = true
  <-> name p = hint
      \/ (exists a b, name p = (a ++ hint ++ b)%string)
      \/ (exists a b, hint = (a ++ name p ++ b)%string).
Proof.
  unfold nameMatches.
  rewrite !orb_true_iff, !includes_substring, String.eqb_eq. tauto.
Qed.

(** What the first hint does in the copy that matches in both
    directions: the first matching person in registry order becomes the
    parent; without a match, and without a second hint, nothing is
    assigned. *)
Lemma resolveParent_first_hint (r : record) (k : jsval) (reg : registry) :
  truthy (ParentId r) = false ->
  Eltern1 r <> "" ->
  (forall q, find (nameMatches (Eltern1 r)) reg = Some q ->
     resolveParent Block r k reg = modify k (setParentId (id q)) reg
     /\ exists before after,
         reg = before ++ q :: after
         /\ nameMatches (Eltern1 r) q = true
         /\ Forall (fun y => nameMatches (Eltern1 r) y = false) before)
  /\ (find (nameMatches (Eltern1 r)) reg = None ->
      Forall (fun y => nameMatches (Eltern1 r) y = false) reg
      /\ (Eltern2 r = "" -> resolveParent Block r k reg = reg)).
Proof.
  intros Hp He. unfold resolveParent. rewrite Hp.
  destruct (String.eqb_spec (Eltern1 r) ""); [contradiction |]. simpl.
  split.
  - intros q Hq. rewrite Hq. split; [reflexivity | now apply find_first].
  - intros Hn. rewrite Hn. split; [now apply find_none_all |].
    intros ->. reflexivity.
Qed.

(** C7 fails on the copy under [widgets/]: its first pass matches a hint
    only against names that equal or contain it.  Hans is contained in
    the hint "Hans Mueller", yet the record leaves the child without
    parent id, where the other copy assigns Hans; with an earlier record
    naming Otto the child ends up under Otto instead of Hans. *)
Theorem first_pass_hint_one_way :
  nameMatches "Hans Mueller" (newPerson (JStr "Hans") "Hans") = true
  /\ option_map links (firstPass Widget [] hintData)
     = Some [ ("Hans", JNull, []); ("Kind", JNull, []) ]
  /\ option_map links (firstPass Block [] hintData)
     = Some [ ("Hans", JNull, []); ("Kind", JStr "Hans", []) ]
  /\ option_map (fun t => links (persons t)) (buildTree Widget hintData2)
     = Some [ ("Hans", JNull, []); ("Otto", JNull, [JStr "Kind"]);
              ("Kind", JStr "Otto", []) ]
  /\ option_map (fun t => links (persons t)) (buildTree Block hintData2)
     = Some [ ("Hans", JNull, [JStr "Kind"]); ("Otto", JNull, []);
              ("Kind", JStr "Hans", []) ].
Proof. vm_compute. repeat split; reflexivity. Qed.

(** ** Descendant count *)

Lemma sumOpt_none (l : list (option nat)) : In None l -> sumOpt l = None.
Proof.
  induction l as [| [n |] l IH]; simpl; intros H.
  - contradiction.
  - destruct H as [H | H]; [discriminate |]. now rewrite IH.
  - reflexivity.
Qed.

(** A call never returns when the call for one of the children does
    not. *)
Lemma countDescendants_child (f : nat) (reg : registry) (p child : person) :
  In (id child) (children p) ->
  persons_get (id child) reg = Some child ->
  countDescendants f reg child = None ->
  countDescendants (S f) reg p = None.
Proof.
  intros Hin Hg Hc. simpl. rewrite sumOpt_none; [reflexivity |].
  apply in_map_iff. exists (id child). split; [| assumption].
  now rewrite Hg.
Qed.

Lemma countDescendants_cycle (reg : registry) (a b : person) :
  persons_get (id a) reg = Some a ->
  persons_get (id b) reg = Some b ->
  In (id b) (children a) ->
  In (id a) (children b) ->
  forall fuel,
    countDescendants fuel reg a = None /\ countDescendants fuel reg b = None.
Proof.
  intros Ha Hb Hab Hba. induction fuel as [| f [IHa IHb]]; [now split |].
  split.
  - now apply (countDescendants_child f reg a b).
  - now apply (countDescendants_child f reg b a).
Qed.

(** C10 fails on the code: two persons naming each other as parent end
    up in each other's children list, in both copies, and the descendant
    count of either of them exceeds every bound on the nesting of its
    calls. *)
Theorem countDescendants_diverges_on_cycle :
  forall v, exists t,
    buildTree v cycleData = Some t
    /\ links (persons t) = [ ("Anna", JStr "2", [JStr "2"]);
                            ("Bert", JStr "1", [JStr "1"]) ]
    /\ forall fuel p, In p (persons t) ->
                      countDescendants fuel (persons t) p = None.
Proof.
  intros v. destruct v; eexists; (split; [vm_compute; reflexivity |]);
    (split; [reflexivity |]);
    intros fuel p Hin; cbn [persons] in *;
    match goal with
    | H : In p (?a :: ?b :: nil) |- countDescendants _ ?reg _ = _ =>
        destruct (countDescendants_cycle reg a b) with (fuel := fuel)
          as [Ha Hb];
        [ reflexivity | reflexivity | now left | now left | ];
        destruct H as [<- | [<- | []]]; assumption
    end.
Qed.

(** The same happens to a single person whose parent hint is part of the
    person's own name: the person becomes a child of itself. *)
Lemma countDescendants_diverges_on_namesake :
  exists t,
    buildTree Block namesakeData = Some t
    /\ links (persons t)
       = [ ("Hans Mueller", JStr "Hans Mueller", [JStr "Hans Mueller"]) ]
    /\ forall fuel p, In p (persons t) ->
                      countDescendants fuel (persons t) p = None.
Proof.
  eexists. split; [vm_compute; reflexivity |]. split; [reflexivity |].
  cbn [persons]. intros fuel p [<- | []].
  match goal with
  | |- countDescendants _ ?reg ?a = _ =>
      destruct (countDescendants_cycle reg a a) with (fuel := fuel) as [Ha _];
      [ reflexivity | reflexivity | now left | now left | exact Ha ]
  end.
Qed.

(** On a tree without such loops the count is found. *)
Example countDescendants_demo :
  countDescendants 4 (persons demoTree) (personNamed demoTree "Rosa") = Some 3%nat.
Proof. vm_compute. reflexivity. Qed.

(** ** Sorting with a comparator that is a strict weak order *)

Section SortFacts.
Context {A : Type}.
Variable cmp : A -> A -> Z.
Hypothesis below_asym :
  forall x y, below cmp x y = true -> below cmp y x = false.
Hypothesis below_between :
  forall x y z, below cmp x z = true ->
                below cmp x y = true \/ below cmp y z = true.

Let ordered (a b : A) : Prop := below cmp b a = false.

Lemma ordered_trans (x y z : A) : ordered x y -> ordered y z -> ordered x z.
Proof.
  unfold ordered. intros Hxy Hyz.
  destruct (below cmp z x) eqn:E; [| reflexivity].
  destruct (below_between z y x E); congruence.
Qed.

Lemma level_sym (x y : A) : level cmp x y = level cmp y x.
Proof. unfold level. apply andb_comm. Qed.

Lemma level_trans (x y z : A) :
  level cmp x y = true -> level cmp y z = true -> level cmp x z = true.
Proof.
  unfold level. rewrite !andb_true_iff, !negb_true_iff.
  intros [Hxy Hyx] [Hyz Hzy]. split.
  - destruct (below cmp x z) eqn:E; [| reflexivity].
    destruct (below_between x y z E); congruence.
  - destruct (below cmp z x) eqn:E; [| reflexivity].
    destruct (below_between z y x E); congruence.
Qed.

Lemma insertBy_in (x y : A) (l : list A) :
  In y (insertBy cmp x l) <-> y = x \/ In y l.
Proof.
  induction l as [| h t IH]; simpl.
  - intuition.
  - fold (below cmp x h). destruct (below cmp x h); simpl.
    + intuition.
    + rewrite IH. intuition.
Qed.

Lemma insertBy_perm (x : A) (l : list A) :
  Permutation (x :: l) (insertBy cmp x l).
Proof.
  induction l as [| h t IH]; simpl; [reflexivity |].
  fold (below cmp x h). destruct (below cmp x h); [reflexivity |].
  rewrite perm_swap. now constructor.
Qed.

Lemma insertBy_sorted (x : A) (l : list A) :
  StronglySorted ordered l -> StronglySorted ordered (insertBy cmp x l).
Proof.
  induction 1 as [| h t Ht IH Hh]; simpl.
  - repeat constructor.
  - fold (below cmp x h). destruct (below cmp x h) eqn:E.
    + constructor; [now constructor |].
      assert (Hxh : ordered x h) by (now apply below_asym).
      constructor; [assumption |].
      rewrite Forall_forall in *. intros y Hy.
      apply (ordered_trans x h y Hxh). now apply Hh.
    + constructor; [assumption |].
      rewrite Forall_forall in *. intros y Hy.
      apply insertBy_in in Hy as [-> | Hy]; [exact E | now apply Hh].
Qed.

(** Insertion keeps every level of the comparator in its order and puts
    the new element last in its own level. *)
Lemma insertBy_stable (z x : A) (l : list A) :
  StronglySorted ordered l ->
  filter (level cmp z) (insertBy cmp x l)
  = filter (level cmp z) l ++ filter (level cmp z) [x].
Proof.
  induction 1 as [| h t Ht IH Hh]; [simpl; reflexivity |].
  simpl insertBy. fold (below cmp x h). destruct (below cmp x h) eqn:E.
  - destruct (level cmp z x) eqn:Hzx.
    + assert (Hnone : forall y, In y (h :: t) -> level cmp z y = false).
      { intros y Hy. destruct (level cmp z y) eqn:Hzy; [| reflexivity].
        assert (Hxy : level cmp x y = true).
        { apply (level_trans x z y); [now rewrite level_sym | assumption]. }
        unfold level in Hxy. rewrite andb_true_iff, !negb_true_iff in Hxy.
        destruct Hxy as [Hxy _].
        assert (Hhy : below cmp y h = false).
        { destruct Hy as [<- | Hy].
          - destruct (below cmp h h) eqn:Ehh; [| reflexivity].
            now rewrite (below_asym h h Ehh) in Ehh.
          - rewrite Forall_forall in Hh. now apply Hh. }
        destruct (below_between x y h E); congruence. }
      assert (Hf : filter (level cmp z) (h :: t) = []).
      { clear - Hnone. induction (h :: t) as [| a r IHr]; [reflexivity |].
        simpl. rewrite (Hnone a (or_introl eq_refl)).
        apply IHr. intros y Hy. apply Hnone. now right. }
      change (filter (level cmp z) (x :: h :: t))
        with (if level cmp z x then x :: filter (level cmp z) (h :: t)
              else filter (level cmp z) (h :: t)).
      rewrite Hzx, Hf. simpl. now rewrite Hzx.
    + change (filter (level cmp z) (x :: h :: t))
        with (if level cmp z x then x :: filter (level cmp z) (h :: t)
              else filter (level cmp z) (h :: t)).
      rewrite Hzx. simpl filter at 3. rewrite Hzx. now rewrite app_nil_r.
  - simpl. rewrite IH. destruct (level cmp z h); reflexivity.
Qed.

Lemma sortBy_from (l : list A) :
  forall acc,
    StronglySorted ordered acc ->
    StronglySorted ordered (fold_left (fun a x => insertBy cmp x a) l acc)
    /\ Permutation (acc ++ l) (fold_left (fun a x => insertBy cmp x a) l acc)
    /\ forall z,
        filter (level cmp z) (fold_left (fun a x => insertBy cmp x a) l acc)
        = filter (level cmp z) acc ++ filter (level cmp z) l.
Proof.
  induction l as [| x l IH]; intros acc Hacc; simpl.
  - split; [assumption |]. split; [now rewrite app_nil_r |].
    intros z. now rewrite app_nil_r.
  - destruct (IH (insertBy cmp x acc) (insertBy_sorted x acc Hacc))
      as (Hs & Hp & Hf).
    split; [assumption |]. split.
    + rewrite <- Hp. rewrite <- insertBy_perm. simpl.
      symmetry. apply Permutation_middle.
    + intros z. rewrite Hf. rewrite (insertBy_stable z x acc Hacc).
      rewrite <- app_assoc. simpl. now destruct (level cmp z x).
Qed.

(** The sort returns a permutation that is ordered by the comparator and
    keeps the elements of every level in the order they had. *)
Lemma sortBy_correct (l : list A) :
  StronglySorted ordered (sortBy cmp l)
  /\ Permutation l (sortBy cmp l)
  /\ forall z, filter (level cmp z) (sortBy cmp l) = filter (level cmp z) l.
Proof.
  destruct (sortBy_from l [] (SSorted_nil _)) as (Hs & Hp & Hf).
  split; [exact Hs |]. split; [exact Hp |]. exact Hf.
Qed.
End SortFacts.

Lemma sortBy_keeps_class {A : Type} (cmp : A -> A -> Z) (P : A -> bool) :
  (forall x y, below cmp x y = true -> below cmp y x = false) ->
  (forall x y z, below cmp x z = true ->
                 below cmp x y = true \/ below cmp y z = true) ->
  (forall x y, P x = true -> level cmp x y = P y) ->
  forall l, filter P (sortBy cmp l) = filter P l.
Proof.
  intros Hasym Hbetween Hclass l.
  destruct (sortBy_correct cmp Hasym Hbetween l) as (_ & Hperm & Hstable).
  destruct (existsb P l) eqn:Hex.
  - apply existsb_exists in Hex as (z & _ & Hz).
    assert (Hext : forall l', filter P l' = filter (level cmp z) l').
    { apply filter_ext. intros y. symmetry. now apply Hclass. }
    rewrite !Hext. apply Hstable.
  - assert (Hnone : forall l', (forall y, In y l' -> P y = false) ->
                               filter P l' = []).
    { induction l' as [| a r IH]; intros H; [reflexivity |].
      simpl. rewrite (H a (or_introl eq_refl)). apply IH.
      intros y Hy. apply H. now right. }
    assert (Hl : forall y, In y l -> P y = false).
    { intros y Hy. destruct (P y) eqn:E; [| reflexivity].
      assert (existsb P l = true) by (apply existsb_exists; now exists y).
      congruence. }
    rewrite (Hnone l Hl). apply Hnone.
    intros y Hy. apply Hl. apply (Permutation_in y (Permutation_sym Hperm) Hy).
Qed.

(** ** Children order *)

Lemma compareBirth_below (x y : option Z) :
  below compareBirth x y = true
  <-> hasBirth x = true /\ (hasBirth y = false \/ yearOf x < yearOf y).
Proof.
  unfold below, compareBirth.
  destruct (hasBirth x), (hasBirth y); simpl; rewrite Z.ltb_lt.
  - split.
    + intros H. split; [reflexivity |]. right. lia.
    + intros [_ [H | H]]; [discriminate | lia].
  - split.
    + intros _. split; [reflexivity |]. now left.
    + intros _. lia.
  - split; [lia | intros [H _]; discriminate].
  - split; [lia | intros [H _]; discriminate].
Qed.

Lemma compareBirth_not_below (x y : option Z) :
  below compareBirth y x = false <-> birthOrder x y.
Proof.
  unfold birthOrder. destruct (below compareBirth y x) eqn:E.
  - apply compareBirth_below in E as [Hy Hx]. split; [discriminate |].
    intros [H | (H1 & H2 & H3)]; [congruence |].
    destruct Hx as [Hx | Hx]; [congruence | lia].
  - split; [| reflexivity]. intros _.
    destruct (hasBirth y) eqn:Hy; [| now left]. right.
    destruct (hasBirth x) eqn:Hx.
    + repeat split. destruct (Z.le_gt_cases (yearOf x) (yearOf y)) as [|Hlt];
        [assumption |].
      assert (below compareBirth y x = true)
        by (apply compareBirth_below; split; [assumption | right; lia]).
      congruence.
    + assert (below compareBirth y x = true)
        by (apply compareBirth_below; split; [assumption | now left]).
      congruence.
Qed.

Lemma compareChildren_asym (reg : registry) (a b : jsval) :
  below (compareChildren reg) a b = true ->
  below (compareChildren reg) b a = false.
Proof.
  unfold compareChildren.
  change (below compareBirth (birthOf reg a) (birthOf reg b) = true ->
          below compareBirth (birthOf reg b) (birthOf reg a) = false).
  intros H. apply compareBirth_below in H as [Ha Hb].
  destruct (below compareBirth (birthOf reg b) (birthOf reg a)) eqn:E;
    [| reflexivity].
  apply compareBirth_below in E as [Hb' Ha'].
  destruct Hb as [Hb | Hb]; [congruence |].
  destruct Ha' as [Ha' | Ha']; [congruence | lia].
Qed.

Lemma compareChildren_between (reg : registry) (a b c : jsval) :
  below (compareChildren reg) a c = true ->
  below (compareChildren reg) a b = true
  \/ below (compareChildren reg) b c = true.
Proof.
  unfold compareChildren.
  change (below compareBirth (birthOf reg a) (birthOf reg c) = true ->
          below compareBirth (birthOf reg a) (birthOf reg b) = true
          \/ below compareBirth (birthOf reg b) (birthOf reg c) = true).
  rewrite !compareBirth_below. intros [Ha Hc].
  destruct (hasBirth (birthOf reg b)) eqn:Hb.
  - destruct Hc as [Hc | Hc].
    + right. split; [reflexivity | now left].
    + destruct (Z.lt_ge_cases (yearOf (birthOf reg a)) (yearOf (birthOf reg b))).
      * left. split; [assumption | now right].
      * right. split; [reflexivity | right; lia].
  - left. split; [assumption | now left].
Qed.

(** The undated children form one level of the comparator. *)
Lemma undated_level (reg : registry) (a b : jsval) :
  negb (hasBirth (birthOf reg a)) = true ->
  level (compareChildren reg) a b = negb (hasBirth (birthOf reg b)).
Proof.
  intros Ha. apply negb_true_iff in Ha. unfold level, compareChildren.
  change (negb (below compareBirth (birthOf reg a) (birthOf reg b))
          && negb (below compareBirth (birthOf reg b) (birthOf reg a))
          = negb (hasBirth (birthOf reg b))).
  destruct (below compareBirth (birthOf reg a) (birthOf reg b)) eqn:E1.
  - apply compareBirth_below in E1 as [E1 _]. congruence.
  - simpl. destruct (hasBirth (birthOf reg b)) eqn:Hb; simpl.
    + apply negb_false_iff. apply compareBirth_below. split; [assumption | now left].
    + apply negb_true_iff.
      destruct (below compareBirth (birthOf reg b) (birthOf reg a)) eqn:E2;
        [| reflexivity].
      apply compareBirth_below in E2 as [E2 _]. congruence.
Qed.

Lemma find_map_same {A : Type} (f : A -> bool) (g : A -> A) (l : list A) :
  (forall x, f (g x) = f x) -> find f (map g l) = option_map g (find f l).
Proof.
  intros H. induction l as [| a l IH]; simpl; [reflexivity |].
  rewrite H. now destruct (f a).
Qed.

Lemma birthOf_sortChildren (reg : registry) (c : jsval) :
  birthOf (sortChildren reg) c = birthOf reg c.
Proof.
  unfold birthOf, persons_get, sortChildren.
  rewrite find_map_same by reflexivity.
  now destruct (find (fun p => jsval_eqb (id p) c) reg).
Qed.

(** After the children sort every children list has its dated children
    first, by ascending year, and its undated children after them, in the
    order in which they were attached.  A child counts as dated when its
    birth year is not 0. *)
Lemma sortChildren_sorted (reg : registry) (p : person) :
  In p (sortChildren reg) ->
  exists p0,
    In p0 reg /\ id p0 = id p /\ events p0 = events p
    /\ Permutation (children p0) (children p)
    /\ StronglySorted
         (fun a b => birthOrder (birthOf (sortChildren reg) a)
                                (birthOf (sortChildren reg) b))
         (children p)
    /\ filter (fun c => negb (hasBirth (birthOf (sortChildren reg) c)))
              (children p)
       = filter (fun c => negb (hasBirth (birthOf (sortChildren reg) c)))
                (children p0).
Proof.
  unfold sortChildren at 1. intros Hin.
  apply in_map_iff in Hin as (p0 & <- & Hin0).
  exists p0. split; [assumption |]. split; [reflexivity |].
  split; [reflexivity |]. simpl children.
  change (fun a b => compareBirth (birthOf reg a) (birthOf reg b))
    with (compareChildren reg).
  destruct (sortBy_correct (compareChildren reg) (compareChildren_asym reg)
              (compareChildren_between reg) (children p0)) as (Hs & Hp & _).
  split; [exact Hp |]. split.
  - eapply StronglySorted_ind with
      (P := fun l => StronglySorted _ l); [constructor | | exact Hs].
    intros a l Hl IH Ha. constructor; [assumption |].
    rewrite Forall_forall in *. intros b Hb. rewrite !birthOf_sortChildren.
    apply compareBirth_not_below. exact (Ha b Hb).
  - assert (Hext : forall l,
              filter (fun c => negb (hasBirth (birthOf (sortChildren reg) c))) l
              = filter (fun c => negb (hasBirth (birthOf reg c))) l).
    { apply filter_ext. intros c. now rewrite birthOf_sortChildren. }
    rewrite !Hext.
    apply (sortBy_keeps_class (compareChildren reg)).
    + apply compareChildren_asym.
    + apply compareChildren_between.
    + intros x y Hx. now apply undated_level.
Qed.


(** The children lists of an assembled tree. *)
Lemma children_sorted_after_assembly (v : variant) (reg : registry) (p : person) :
  In p (persons (assemble v reg)) ->
  exists p0,
    In p0 (secondPass v reg) /\ id p0 = id p
    /\ Permutation (children p0) (children p)
    /\ StronglySorted
         (fun a b => birthOrder (birthOf (persons (assemble v reg)) a)
                                (birthOf (persons (assemble v reg)) b))
         (children p)
    /\ filter (fun c => negb (hasBirth (birthOf (persons (assemble v reg)) c)))
              (children p)
       = filter (fun c => negb (hasBirth (birthOf (persons (assemble v reg)) c)))
                (children p0).
Proof.
  simpl persons. intros Hin.
  destruct (sortChildren_sorted _ _ Hin) as (p0 & H1 & H2 & _ & H3 & H4 & H5).
  exists p0. repeat split; assumption.
Qed.

Example demoTree_children_years :
  map (birthOf (persons demoTree)) (children (personNamed demoTree "Rosa"))
  = [Some 1515; Some 1520].
Proof. vm_compute. reflexivity. Qed.

(** ** Search ranking *)

Lemma StronglySorted_firstn {A : Type} (R : A -> A -> Prop) (n : nat)
      (l : list A) :
  StronglySorted R l -> StronglySorted R (firstn n l).
Proof.
  intros H. revert n. induction H as [| a l Hl IH Ha]; intros n.
  - rewrite firstn_nil. constructor.
  - destruct n as [| n]; simpl; constructor; [apply IH |].
    rewrite Forall_forall in *. intros b Hb. apply Ha.
    revert Hb. clear. revert n.
    induction l as [| c l IHl]; intros n Hb.
    + now rewrite firstn_nil in Hb.
    + destruct n; simpl in Hb; [contradiction |].
      destruct Hb as [<- | Hb]; [now left | right; eauto].
Qed.

Section SearchFacts.
Variable localeCompare : string -> string -> Z.
Hypothesis collate_asym :
  forall x y, below localeCompare x y = true -> below localeCompare y x = false.
Hypothesis collate_between :
  forall x y z, below localeCompare x z = true ->
                below localeCompare x y = true \/ below localeCompare y z = true.
Variable queryLower : string.

Lemma relevance_below (a b : hit) :
  below (relevance localeCompare queryLower) a b
  = match matchReason a, matchReason b with
    | ByName, BySpouse => true
    | BySpouse, ByName => false
    | _, _ =>
        match isPrefixHit queryLower a, isPrefixHit queryLower b with
        | true, false => true
        | false, true => false
        | _, _ => below localeCompare (name (hitPerson a)) (name (hitPerson b))
        end
    end.
Proof.
  unfold below, relevance.
  destruct (matchReason a), (matchReason b); try reflexivity;
    destruct (isPrefixHit queryLower a), (isPrefixHit queryLower b);
    reflexivity.
Qed.

Lemma relevance_asym (a b : hit) :
  below (relevance localeCompare queryLower) a b = true ->
  below (relevance localeCompare queryLower) b a = false.
Proof.
  rewrite !relevance_below.
  destruct (matchReason a), (matchReason b); try discriminate; try reflexivity;
    destruct (isPrefixHit queryLower a), (isPrefixHit queryLower b);
    try discriminate; try reflexivity; apply collate_asym.
Qed.

Lemma relevance_between (a b c : hit) :
  below (relevance localeCompare queryLower) a c = true ->
  below (relevance localeCompare queryLower) a b = true
  \/ below (relevance localeCompare queryLower) b c = true.
Proof.
  rewrite !relevance_below.
  destruct (matchReason a), (matchReason b), (matchReason c);
    try discriminate; try (now left); try (now right);
    destruct (isPrefixHit queryLower a), (isPrefixHit queryLower b),
      (isPrefixHit queryLower c);
    try discriminate; try (now left); try (now right); apply collate_between.
Qed.

Lemma relevance_ranked (a b : hit) :
  below (relevance localeCompare queryLower) b a = false ->
  ranked localeCompare queryLower a b.
Proof.
  rewrite relevance_below. unfold ranked, below.
  destruct (matchReason a), (matchReason b); try discriminate; try exact (fun _ => I);
    destruct (isPrefixHit queryLower a), (isPrefixHit queryLower b);
    try discriminate; try exact (fun _ => I); intros H; apply Z.ltb_ge in H;
    exact H.
Qed.

Lemma sortBy_relevance_ranked (l : list hit) :
  StronglySorted (ranked localeCompare queryLower)
                 (sortBy (relevance localeCompare queryLower) l).
Proof.
  destruct (sortBy_correct (relevance localeCompare queryLower)
              relevance_asym relevance_between l) as (Hs & _).
  induction Hs as [| a r Hr IH Ha]; constructor; [assumption |].
  rewrite Forall_forall in *. intros b Hb. apply relevance_ranked. now apply Ha.
Qed.
End SearchFacts.

(** Whatever the collation of the host, as long as it is a strict weak
    order, the result of a search lists every name match before every
    spouse match, in each tier every match whose name starts with the
    query before the others, and otherwise by the collation of the
    names; it has at most 20 entries. *)
Lemma performSearch_ranked (localeCompare : string -> string -> Z)
      (reg : registry) (query : string) :
  (forall x y, below localeCompare x y = true -> below localeCompare y x = false) ->
  (forall x y z, below localeCompare x z = true ->
                 below localeCompare x y = true \/ below localeCompare y z = true) ->
  StronglySorted (ranked localeCompare (toLowerCase query))
                 (performSearch localeCompare reg query)
  /\ (List.length (performSearch localeCompare reg query) <= 20)%nat.
Proof.
  intros Ha Hb. unfold performSearch, rankedMatches. split.
  - apply StronglySorted_firstn. now apply sortBy_relevance_ranked.
  - apply firstn_le_length.
Qed.

(** ** The registry keeps its identifiers unique *)

Lemma modify_ids (k : jsval) (f : person -> person) (reg : registry) :
  (forall p, id (f p) = id p) -> map id (modify k f reg) = map id reg.
Proof.
  intros Hf. unfold modify. rewrite map_map. apply map_ext.
  intros p. now destruct (jsval_eqb (id p) k).
Qed.

Lemma persons_has_in (k : jsval) (reg : registry) :
  persons_has k reg = true <-> In k (map id reg).
Proof.
  unfold persons_has. rewrite existsb_exists, in_map_iff. split.
  - intros (p & Hin & Hk). apply jsval_eqb_eq in Hk. now exists p.
  - intros (p & Hk & Hin). exists p. split; [assumption |].
    now apply jsval_eqb_eq.
Qed.

Lemma persons_set_ids (v : person) (reg : registry) :
  map id (persons_set v reg)
  = if persons_has (id v) reg then map id reg else map id reg ++ [id v].
Proof.
  induction reg as [| p r IH]; [reflexivity |].
  unfold persons_has in *. simpl.
  destruct (jsval_eqb (id p) (id v)) eqn:E; simpl.
  - apply jsval_eqb_eq in E. now rewrite E.
  - rewrite IH. now destruct (existsb _ r).
Qed.

Lemma persons_set_unique (v : person) (reg : registry) :
  NoDup (map id reg) -> NoDup (map id (persons_set v reg)).
Proof.
  intros H. rewrite persons_set_ids.
  destruct (persons_has (id v) reg) eqn:E; [assumption |].
  apply NoDup_app; [assumption | repeat constructor; intros [] |].
  intros k Hk [<- | []]. apply persons_has_in in Hk. congruence.
Qed.

Lemma resolveIdentity_unique (v : variant) (r : record) (reg : registry) :
  NoDup (map id reg) -> NoDup (map id (fst (resolveIdentity v r reg))).
Proof.
  intros H. unfold resolveIdentity. destruct v.
  - destruct (persons_has _ reg); [assumption | now apply persons_set_unique].
  - destruct (truthy (AnchorId r)).
    + destruct (persons_has _ reg); [assumption | now apply persons_set_unique].
    + destruct (find _ reg); [assumption | now apply persons_set_unique].
Qed.

Lemma resolveParent_ids (v : variant) (r : record) (k : jsval) (reg : registry) :
  map id (resolveParent v r k reg) = map id reg.
Proof.
  unfold resolveParent, assignParent.
  repeat match goal with
         | |- context [if ?b then _ else _] => destruct b
         | |- context [match ?o with Some _ => _ | None => _ end] => destruct o
         | |- context [match ?x with Widget => _ | Block => _ end] => destruct x
         end; try reflexivity; now apply modify_ids.
Qed.

Lemma ingest_unique (v : variant) (reg reg' : registry) (r : record) :
  NoDup (map id reg) -> ingest v reg r = Some reg' -> NoDup (map id reg').
Proof.
  intros H. unfold ingest.
  destruct (String.eqb (Person r) ""); [now intros [= <-] |].
  pose proof (resolveIdentity_unique v r reg H) as H1.
  destruct (resolveIdentity v r reg) as [reg1 anchorId]. simpl in H1.
  destruct (convertExcelDate (Datum r)) as [d |]; [| discriminate].
  intros [= <-]. rewrite resolveParent_ids, modify_ids; [assumption | reflexivity].
Qed.

Lemma firstPass_unique (v : variant) (data : list record) :
  forall reg reg', NoDup (map id reg) -> firstPass v reg data = Some reg' ->
                   NoDup (map id reg').
Proof.
  induction data as [| r data IH]; intros reg reg' H; simpl.
  - now intros [= <-].
  - destruct (ingest v reg r) as [reg1 |] eqn:E; [| discriminate].
    apply IH. now apply (ingest_unique v reg reg1 r).
Qed.

Lemma link_ids (v : variant) (reg : registry) (k : jsval) :
  map id (link v reg k) = map id reg.
Proof.
  unfold link, attachByName.
  repeat match goal with
         | |- context [if ?b then _ else _] => destruct b
         | |- context [match ?o with Some _ => _ | None => _ end] => destruct o
         end; try reflexivity; rewrite ?modify_ids; reflexivity.
Qed.

Lemma secondPass_ids (v : variant) (reg : registry) :
  map id (secondPass v reg) = map id reg.
Proof.
  unfold secondPass. generalize (map id reg) at 1 as keys. intros keys.
  revert reg. induction keys as [| k keys IH]; intros reg; [reflexivity |].
  simpl. rewrite IH. apply link_ids.
Qed.

Lemma sortChildren_ids (reg : registry) : map id (sortChildren reg) = map id reg.
Proof. unfold sortChildren. rewrite map_map. now apply map_ext. Qed.

(** The identifiers of the persons of a built tree are pairwise
    different, so that an identifier stands for one person object. *)
Lemma buildTree_ids_unique (v : variant) (data : list record) (t : FamilyTree) :
  buildTree v data = Some t -> NoDup (map id (persons t)).
Proof.
  unfold buildTree. destruct (firstPass v [] data) as [reg |] eqn:E; [| discriminate].
  intros [= <-]. simpl. rewrite sortChildren_ids, secondPass_ids.
  apply (firstPass_unique v data [] reg); [constructor | assumption].
Qed.

(** ** What the copy with identity by name does with anchor ids *)

Lemma sameEvents_refl (reg : registry) : sameEvents reg reg.
Proof. intros k p H. now exists p. Qed.

Lemma sameEvents_trans (a b c : registry) :
  sameEvents a b -> sameEvents b c -> sameEvents a c.
Proof.
  intros Hab Hbc k p H. destruct (Hab k p H) as (p1 & H1 & E1).
  destruct (Hbc k p1 H1) as (p2 & H2 & E2). exists p2. split; [assumption |].
  congruence.
Qed.

Lemma persons_get_modify (k a : jsval) (f : person -> person) (reg : registry) :
  (forall p, id (f p) = id p) ->
  persons_get k (modify a f reg)
  = option_map (fun p => if jsval_eqb (id p) a then f p else p)
               (persons_get k reg).
Proof.
  intros Hf. unfold persons_get, modify. apply find_map_same.
  intros p. destruct (jsval_eqb (id p) a); [now rewrite Hf | reflexivity].
Qed.

Lemma modify_sameEvents (a : jsval) (f : person -> person) (reg : registry) :
  (forall p, id (f p) = id p) -> (forall p, events (f p) = events p) ->
  sameEvents reg (modify a f reg).
Proof.
  intros Hid Hev k p H. rewrite persons_get_modify, H by assumption. simpl.
  eexists. split; [reflexivity |]. destruct (jsval_eqb (id p) a); [apply Hev | reflexivity].
Qed.

Lemma persons_get_set_other (k : jsval) (v : person) (reg : registry) :
  id v <> k -> persons_get k (persons_set v reg) = persons_get k reg.
Proof.
  intros Hne. unfold persons_get. induction reg as [| p r IH]; simpl.
  - destruct (jsval_eqb (id v) k) eqn:E; [| reflexivity].
    apply jsval_eqb_eq in E. contradiction.
  - destruct (jsval_eqb (id p) (id v)) eqn:E; simpl.
    + apply jsval_eqb_eq in E.
      destruct (jsval_eqb (id v) k) eqn:E1;
        [apply jsval_eqb_eq in E1; contradiction |].
      rewrite E. now rewrite E1.
    + now rewrite IH.
Qed.

Lemma persons_get_set_new (v : person) (reg : registry) :
  persons_has (id v) reg = false ->
  persons_get (id v) (persons_set v reg) = Some v.
Proof.
  unfold persons_get, persons_has. induction reg as [| p r IH]; simpl.
  - intros _. now rewrite jsval_eqb_refl.
  - destruct (jsval_eqb (id p) (id v)) eqn:E; simpl; [discriminate |].
    intros H. rewrite E. now apply IH.
Qed.

Lemma persons_has_get (k : jsval) (reg : registry) :
  persons_has k reg = true -> exists p, persons_get k reg = Some p.
Proof.
  unfold persons_has, persons_get. induction reg as [| p r IH]; simpl;
    [discriminate |].
  destruct (jsval_eqb (id p) k); [now eexists | exact IH].
Qed.

Lemma persons_has_none (k : jsval) (reg : registry) :
  persons_has k reg = false -> persons_get k reg = None.
Proof.
  unfold persons_has, persons_get. induction reg as [| p r IH]; simpl;
    [reflexivity |].
  destruct (jsval_eqb (id p) k); [discriminate | exact IH].
Qed.

Section BlockAnchors.
Variable k : string.

Lemma resolveIdentity_keeps (r : record) (reg : registry) (p : person) :
  harmless k r ->
  persons_get (JStr k) reg = Some p ->
  persons_get (JStr k) (fst (resolveIdentity Block r reg)) = Some p.
Proof.
  intros Hh Hp. unfold resolveIdentity.
  destruct (truthy (AnchorId r)) eqn:Ht.
  - destruct (persons_has (JStr (toString (AnchorId r))) reg) eqn:Hhas;
      [assumption |]. simpl.
    rewrite persons_get_set_other; [assumption |]. simpl. intros E.
    rewrite E in Hhas. apply persons_has_none in Hhas. congruence.
  - destruct (find _ reg); [assumption |]. simpl.
    rewrite persons_get_set_other; [assumption |]. simpl.
    intros [= E]. now apply (Hh Ht).
Qed.

Lemma resolveIdentity_anchor (r : record) (reg : registry) :
  truthy (AnchorId r) = true -> toString (AnchorId r) = k ->
  snd (resolveIdentity Block r reg) = JStr k
  /\ exists p, persons_get (JStr k) (fst (resolveIdentity Block r reg)) = Some p.
Proof.
  intros Ht Hk. unfold resolveIdentity. rewrite Ht, Hk.
  destruct (persons_has (JStr k) reg) eqn:Hhas; simpl.
  - split; [reflexivity |]. now apply persons_has_get.
  - split; [reflexivity |]. eexists.
    apply (persons_get_set_new (newPerson (JStr k) (Person r))). exact Hhas.
Qed.

Lemma resolveParent_sameEvents (v : variant) (r : record) (a : jsval)
      (reg : registry) :
  sameEvents reg (resolveParent v r a reg).
Proof.
  unfold resolveParent, assignParent.
  repeat match goal with
         | |- context [if ?b then _ else _] => destruct b
         | |- context [match ?o with Some _ => _ | None => _ end] => destruct o
         | |- context [match ?x with Widget => _ | Block => _ end] => destruct x
         end; try apply sameEvents_refl; now apply modify_sameEvents.
Qed.

Lemma ingest_keeps (reg reg' : registry) (r : record) :
  harmless k r -> ingest Block reg r = Some reg' ->
  forall p e, persons_get (JStr k) reg = Some p -> In e (events p) ->
              exists p', persons_get (JStr k) reg' = Some p' /\ In e (events p').
Proof.
  intros Hh. unfold ingest.
  destruct (String.eqb (Person r) ""); [intros [= <-] p e Hp He; now exists p |].
  pose proof (resolveIdentity_keeps r reg) as Hkeep.
  destruct (resolveIdentity Block r reg) as [reg1 a]. simpl in Hkeep.
  destruct (convertExcelDate (Datum r)) as [d |]; [| discriminate].
  intros [= <-] p e Hp He. specialize (Hkeep p Hh Hp).
  assert (H2 : persons_get (JStr k) (modify a (pushEvent (makeEvent r d)) reg1)
               = Some (if jsval_eqb (id p) a then pushEvent (makeEvent r d) p
                       else p)).
  { rewrite persons_get_modify, Hkeep by reflexivity. reflexivity. }
  destruct (resolveParent_sameEvents Block r a _ _ _ H2) as (p' & Hp' & Hev).
  exists p'. split; [assumption |]. rewrite Hev.
  destruct (jsval_eqb (id p) a); [| assumption].
  simpl. apply in_or_app. now left.
Qed.

Lemma ingest_adds (reg reg' : registry) (r : record) :
  Person r <> "" -> truthy (AnchorId r) = true -> toString (AnchorId r) = k ->
  ingest Block reg r = Some reg' ->
  exists p' d,
    persons_get (JStr k) reg' = Some p'
    /\ convertExcelDate (Datum r) = Some d
    /\ In (makeEvent r d) (events p').
Proof.
  intros Hn Ht Hk. unfold ingest.
  destruct (String.eqb_spec (Person r) ""); [contradiction |].
  destruct (resolveIdentity_anchor r reg Ht Hk) as (Ha & p & Hp).
  destruct (resolveIdentity Block r reg) as [reg1 a]. simpl in Ha, Hp. subst a.
  destruct (convertExcelDate (Datum r)) as [d |]; [| discriminate].
  intros [= <-].
  assert (H2 : persons_get (JStr k)
                 (modify (JStr k) (pushEvent (makeEvent r d)) reg1)
               = Some (pushEvent (makeEvent r d) p)).
  { rewrite persons_get_modify, Hp by reflexivity. simpl.
    apply persons_get_some in Hp as [_ ->]. now rewrite jsval_eqb_refl. }
  destruct (resolveParent_sameEvents Block r (JStr k) _ _ _ H2) as (p' & Hp' & Hev).
  exists p', d. split; [assumption |]. split; [reflexivity |].
  rewrite Hev. simpl. apply in_or_app. right. now left.
Qed.

Lemma firstPass_collects (data : list record) :
  Forall (harmless k) data ->
  forall reg reg',
    firstPass Block reg data = Some reg' ->
    (forall p e, persons_get (JStr k) reg = Some p -> In e (events p) ->
                 exists p', persons_get (JStr k) reg' = Some p'
                            /\ In e (events p'))
    /\ (forall r, In r data -> Person r <> "" -> truthy (AnchorId r) = true ->
                  toString (AnchorId r) = k ->
                  exists p' d, persons_get (JStr k) reg' = Some p'
                               /\ convertExcelDate (Datum r) = Some d
                               /\ In (makeEvent r d) (events p')).
Proof.
  induction 1 as [| r data Hr Hdata IH]; intros reg reg'; simpl.
  - intros [= <-]. split; [intros p e Hp He; now exists p | intros r []].
  - destruct (ingest Block reg r) as [reg1 |] eqn:E; [| discriminate].
    intros Hrest. destruct (IH reg1 reg' Hrest) as [Hkeep Hadd]. split.
    + intros p e Hp He.
      destruct (ingest_keeps reg reg1 r Hr E p e Hp He) as (p1 & Hp1 & He1).
      now apply (Hkeep p1 e).
    + intros r0 [<- | Hin] Hn Ht Hk.
      * destruct (ingest_adds reg reg1 r Hn Ht Hk E) as (p1 & d & Hp1 & Hd & He1).
        destruct (Hkeep p1 _ Hp1 He1) as (p' & Hp' & He').
        now exists p', d.
      * now apply Hadd.
Qed.
End BlockAnchors.

Lemma link_sameEvents (v : variant) (reg : registry) (k : jsval) :
  sameEvents reg (link v reg k).
Proof.
  unfold link, attachByName.
  repeat match goal with
         | |- context [if ?b then _ else _] => destruct b
         | |- context [match ?o with Some _ => _ | None => _ end] => destruct o
         end; try apply sameEvents_refl;
    try (now apply modify_sameEvents);
    (eapply sameEvents_trans; now apply modify_sameEvents).
Qed.

Lemma secondPass_sameEvents (v : variant) (reg : registry) :
  sameEvents reg (secondPass v reg).
Proof.
  unfold secondPass. generalize (map id reg) as keys. intros keys.
  revert reg. induction keys as [| k keys IH]; intros reg; [apply sameEvents_refl |].
  simpl. eapply sameEvents_trans; [apply link_sameEvents | apply IH].
Qed.

Lemma sortChildren_sameEvents (reg : registry) : sameEvents reg (sortChildren reg).
Proof.
  intros k p H. unfold persons_get, sortChildren.
  rewrite find_map_same by reflexivity. unfold persons_get in H. rewrite H.
  simpl. now eexists.
Qed.

(** In the copy that resolves identity by anchor id and by name, two
    records with non-empty anchor ids that are equal as strings end up in
    one person, the only one with that identifier, which carries the
    events of both; this needs that no record without anchor id bears the
    identifier as its person name. *)
Theorem block_merges_anchor (data : list record) (t : FamilyTree) (k : string)
        (r1 r2 : record) :
  buildTree Block data = Some t ->
  Forall (harmless k) data ->
  In r1 data -> In r2 data ->
  Person r1 <> "" -> Person r2 <> "" ->
  truthy (AnchorId r1) = true -> truthy (AnchorId r2) = true ->
  toString (AnchorId r1) = k -> toString (AnchorId r2) = k ->
  exists p d1 d2,
    persons_get (JStr k) (persons t) = Some p
    /\ (forall q, In q (persons t) -> id q = JStr k -> q = p)
    /\ convertExcelDate (Datum r1) = Some d1
    /\ convertExcelDate (Datum r2) = Some d2
    /\ In (makeEvent r1 d1) (events p)
    /\ In (makeEvent r2 d2) (events p).
Proof.
  intros Hb Hh Hin1 Hin2 Hn1 Hn2 Ht1 Ht2 Hk1 Hk2.
  pose proof (buildTree_ids_unique Block data t Hb) as Hnd.
  unfold buildTree in Hb.
  destruct (firstPass Block [] data) as [reg |] eqn:E; [| discriminate].
  injection Hb as <-.
  destruct (firstPass_collects k data Hh [] reg E) as [_ Hadd].
  destruct (Hadd r1 Hin1 Hn1 Ht1 Hk1) as (p1 & d1 & Hp1 & Hd1 & He1).
  destruct (Hadd r2 Hin2 Hn2 Ht2 Hk2) as (p2 & d2 & Hp2 & Hd2 & He2).
  assert (p2 = p1) by congruence. subst p2.
  assert (Hsame : sameEvents reg (persons (assemble Block reg))).
  { simpl. eapply sameEvents_trans;
      [apply secondPass_sameEvents | apply sortChildren_sameEvents]. }
  destruct (Hsame _ _ Hp1) as (p & Hp & Hev).
  exists p, d1, d2. split; [assumption |]. split.
  - intros q Hq Hid. apply persons_get_some in Hp as [Hpin Hpid].
    clear - Hnd Hq Hid Hpin Hpid.
    induction (persons (assemble Block reg)) as [| a l IH]; [contradiction |].
    simpl in Hnd. inversion Hnd as [| x y Hnot Hrest]; subst.
    destruct Hq as [-> | Hq], Hpin as [-> | Hpin]; try reflexivity.
    + exfalso. apply Hnot. apply in_map_iff. exists p. split; [congruence | assumption].
    + exfalso. apply Hnot. apply in_map_iff. exists q. split; [congruence | assumption].
    + now apply IH.
  - rewrite Hev. repeat split; assumption.
Qed.

Example block_merges_anchor_mixed :
  exists p d1 d2,
    persons_get (JStr "5")
      (persons (assemble Block
                  [ mkPerson (JStr "5") "Anna"
                      [ mkEvent "Geburt" "1515" "" "" "" "";
                        mkEvent "Tod" "1580" "" "" "" "" ] [] JNull ]))
    = Some p
    /\ (forall q,
          In q (persons (assemble Block
                  [ mkPerson (JStr "5") "Anna"
                      [ mkEvent "Geburt" "1515" "" "" "" "";
                        mkEvent "Tod" "1580" "" "" "" "" ] [] JNull ])) ->
          id q = JStr "5" -> q = p)
    /\ convertExcelDate (JNum 1515) = Some d1
    /\ convertExcelDate (JNum 1580) = Some d2
    /\ In (makeEvent (mkRec "Anna" (JNum 5) "Geburt" (JNum 1515) "" JNull) d1)
          (events p)
    /\ In (makeEvent (mkRec "Anna" (JStr "5") "Tod" (JNum 1580) "" JNull) d2)
          (events p).
Proof.
  apply (block_merges_anchor mixedAnchorData _ "5"
           (mkRec "Anna" (JNum 5) "Geburt" (JNum 1515) "" JNull)
           (mkRec "Anna" (JStr "5") "Tod" (JNum 1580) "" JNull)).
  - vm_compute. reflexivity.
  - repeat constructor; intros H; vm_compute in H; discriminate H.
  - now left.
  - right. now left.
  - discriminate.
  - discriminate.
  - reflexivity.
  - reflexivity.
  - reflexivity.
  - reflexivity.
Qed.

(** ** Search with a case-insensitive collation *)

Lemma compareStr_asym (a : string) :
  forall b, below compareStr a b = true -> below compareStr b a = false.
Proof.
  unfold below. induction a as [| x a IH]; intros [| y b]; simpl; try reflexivity;
    try discriminate.
  destruct (Nat.ltb_spec (nat_of_ascii x) (nat_of_ascii y)) as [Hxy | Hxy].
  - intros _. destruct (Nat.ltb_spec (nat_of_ascii y) (nat_of_ascii x)); [lia |].
    reflexivity.
  - destruct (Nat.ltb_spec (nat_of_ascii y) (nat_of_ascii x)) as [Hyx | Hyx];
      [discriminate |].
    apply IH.
Qed.

Lemma compareStr_between (a : string) :
  forall b c, below compareStr a c = true ->
              below compareStr a b = true \/ below compareStr b c = true.
Proof.
  unfold below. induction a as [| x a IH]; intros [| y b] [| z c]; simpl;
    try discriminate; try (now left); try (now right).
  - destruct (Nat.ltb_spec (nat_of_ascii x) (nat_of_ascii z)) as [Hxz | Hxz].
    + intros _. destruct (Nat.ltb_spec (nat_of_ascii x) (nat_of_ascii y));
        [now left |].
      right. destruct (Nat.ltb_spec (nat_of_ascii y) (nat_of_ascii z));
        [reflexivity | lia].
    + destruct (Nat.ltb_spec (nat_of_ascii z) (nat_of_ascii x)) as [Hzx | Hzx];
        [discriminate |].
      intros Hac.
      destruct (Nat.ltb_spec (nat_of_ascii x) (nat_of_ascii y)); [now left |].
      destruct (Nat.ltb_spec (nat_of_ascii y) (nat_of_ascii x)).
      * right. destruct (Nat.ltb_spec (nat_of_ascii y) (nat_of_ascii z));
          [reflexivity | lia].
      * destruct (Nat.ltb_spec (nat_of_ascii y) (nat_of_ascii z)); [lia |].
        destruct (Nat.ltb_spec (nat_of_ascii z) (nat_of_ascii y)); [lia |].
        now apply IH.
Qed.

Lemma ciCompare_asym (a b : string) :
  below ciCompare a b = true -> below ciCompare b a = false.
Proof. apply compareStr_asym. Qed.

Lemma ciCompare_between (a b c : string) :
  below ciCompare a c = true ->
  below ciCompare a b = true \/ below ciCompare b c = true.
Proof. apply compareStr_between. Qed.

Lemma ranked_rankedCI (localeCompare : string -> string -> Z)
      (queryLower : string) (a b : hit) :
  (forall x y, below ciCompare x y = true -> below localeCompare x y = true) ->
  ranked localeCompare queryLower a b -> rankedCI queryLower a b.
Proof.
  intros Hci. unfold ranked, rankedCI.
  destruct (matchReason a), (matchReason b); try exact (fun H => H);
    destruct (isPrefixHit queryLower a), (isPrefixHit queryLower b);
    try exact (fun H => H); intros H;
    (destruct (below ciCompare (name (hitPerson b)) (name (hitPerson a))) eqn:E;
     [| reflexivity]);
    apply Hci in E; unfold below in E; apply Z.ltb_lt in E; lia.
Qed.



Example search_otto :
  map (fun h => (name (hitPerson h), matchReason h, matchedSpouse h))
      (performSearch ciCompare (persons searchTree) "Otto")
  = [ ("Otto Braun", ByName, None); ("Lotto Meier", ByName, None);
      ("Anna Schmidt", BySpouse, Some "Otto Schmidt") ].
Proof. vm_compute. reflexivity. Qed.

(** * Further properties of the code *)

(** ** The second pass links children and parents consistently *)

Lemma persons_get_unique (reg : registry) (p : person) :
  NoDup (map id reg) -> In p reg -> persons_get (id p) reg = Some p.
Proof.
  unfold persons_get. induction reg as [| a r IH]; intros Hnd Hin; [contradiction |].
  simpl in *. inversion Hnd as [| x l Hnot Hrest]; subst.
  destruct Hin as [-> | Hin]; [now rewrite jsval_eqb_refl |].
  destruct (jsval_eqb (id a) (id p)) eqn:E.
  - apply jsval_eqb_eq in E. exfalso. apply Hnot. rewrite E. now apply in_map.
  - now apply IH.
Qed.

Lemma persons_get_present (reg : registry) (p : person) :
  In p reg -> exists q, persons_get (id p) reg = Some q.
Proof.
  intros Hin. apply persons_has_get. apply persons_has_in. now apply in_map.
Qed.

(** One step of the second pass that attaches the person under [k] to
    the person under [kq]. *)
Lemma linked_attach (done : list jsval) (k kq : jsval) (reg reg' : registry)
      (h : person -> person) (p q0 : person) :
  (forall x, persons_get x reg' = option_map h (persons_get x reg)) ->
  (forall y, children (h y)
             = if jsval_eqb (id y) kq then children y ++ [k] else children y) ->
  (forall y, id y <> k -> parentId (h y) = parentId y) ->
  ~ In k done ->
  persons_get k reg = Some p ->
  parentId (h p) = kq ->
  persons_get kq reg = Some q0 ->
  linked done reg -> linked (k :: done) reg'.
Proof.
  intros Hget Hch Hpar Hk Hp Hpk Hq (I1 & I2 & I3).
  assert (Hidq : id q0 = kq) by (now apply persons_get_some in Hq).
  split; [| split].
  - intros kx x' c Hx' Hc. rewrite Hget in Hx'.
    destruct (persons_get kx reg) as [x |] eqn:Hx; [| discriminate].
    injection Hx' as <-. rewrite Hch in Hc.
    assert (Hold : In c (children x) ->
                   In c (k :: done)
                   /\ exists pc, persons_get c reg' = Some pc /\ parentId pc = kx).
    { intros Hc'. destruct (I1 kx x c Hx Hc') as (Hd & pc & Hpc & Hpp).
      split; [now right |]. exists (h pc). rewrite Hget, Hpc. split; [reflexivity |].
      rewrite Hpar; [assumption |].
      apply persons_get_some in Hpc as [_ ->]. intros ->. contradiction. }
    destruct (jsval_eqb (id x) kq) eqn:E; [| now apply Hold].
    apply in_app_or in Hc as [Hc | [Heq | []]]; [now apply Hold |].
    subst c. split; [now left |]. exists (h p). rewrite Hget, Hp. split; [reflexivity |].
    apply jsval_eqb_eq in E. apply persons_get_some in Hx as [_ Hx]. congruence.
  - intros kx x' Hx'. rewrite Hget in Hx'.
    destruct (persons_get kx reg) as [x |] eqn:Hx; [| discriminate].
    injection Hx' as <-. rewrite Hch.
    destruct (jsval_eqb (id x) kq); [| now apply (I2 kx)].
    apply NoDup_app; [now apply (I2 kx) | repeat constructor; intros [] |].
    intros c Hc [Heq | []]. subst c. now destruct (I1 kx x k Hx Hc).
  - intros kp p' q' Hin Hp' Ht Hq'. rewrite Hget in Hp'.
    destruct (persons_get kp reg) as [p0 |] eqn:Hp0; [| discriminate].
    injection Hp' as <-. rewrite Hget in Hq'.
    destruct (persons_get (parentId (h p0)) reg) as [q |] eqn:Hq1; [| discriminate].
    injection Hq' as <-. rewrite Hch.
    destruct (jsval_eqb_eq kp k) as [_ Hrefl].
    destruct (jsval_eqb kp k) eqn:Ek.
    + apply jsval_eqb_eq in Ek. subst kp. rewrite Hp in Hp0. injection Hp0 as <-.
      rewrite Hpk in Hq1. rewrite Hq in Hq1. injection Hq1 as <-.
      rewrite Hidq, jsval_eqb_refl. apply in_or_app. right. now left.
    + assert (Hne : id p0 <> k).
      { apply persons_get_some in Hp0 as [_ ->]. intros ->.
        rewrite jsval_eqb_refl in Ek. discriminate. }
      rewrite (Hpar p0 Hne) in Hq1, Ht.
      destruct Hin as [-> | Hin]; [now rewrite jsval_eqb_refl in Ek |].
      pose proof (I3 kp p0 q Hin Hp0 Ht Hq1) as Hold.
      destruct (jsval_eqb (id q) kq); [apply in_or_app; now left | assumption].
Qed.

(** One step of the second pass that leaves the registry as it is. *)
Lemma linked_skip (done : list jsval) (k : jsval) (reg : registry) :
  (forall p, persons_get k reg = Some p -> truthy (parentId p) = true ->
             persons_get (parentId p) reg = None) ->
  linked done reg -> linked (k :: done) reg.
Proof.
  intros Hno (I1 & I2 & I3). split; [| split].
  - intros kx x c Hx Hc. destruct (I1 kx x c Hx Hc) as (Hd & Hpc).
    split; [now right | assumption].
  - exact I2.
  - intros kp p q [<- | Hin] Hp Ht Hq.
    + rewrite (Hno p Hp Ht) in Hq. discriminate.
    + now apply (I3 kp p q).
Qed.

Lemma parentByName_in (v : variant) (p q : person) (reg : registry) :
  parentByName v p reg = Some q -> In q reg.
Proof.
  unfold parentByName. destruct (find (hasHint v) (events p)) as [e |];
    [| discriminate].
  destruct v.
  - intros H. now apply find_some in H.
  - destruct (negb (String.eqb (parent1 e) "")).
    + destruct (find (nameMatches (parent1 e)) reg) as [q1 |] eqn:E1.
      * intros [= <-]. now apply find_some in E1.
      * destruct (negb (String.eqb (parent2 e) "")); [| discriminate].
        intros H. now apply find_some in H.
    + destruct (negb (String.eqb (parent2 e) "")); [| discriminate].
      intros H. now apply find_some in H.
Qed.

Lemma linked_link (v : variant) (done : list jsval) (k : jsval) (reg : registry) :
  ~ In k done -> linked done reg -> linked (k :: done) (link v reg k).
Proof.
  intros Hk Hinv. unfold link.
  destruct (persons_get k reg) as [p |] eqn:Hp.
  2:{ apply linked_skip; [| assumption]. intros p Hp'. congruence. }
  assert (Hidp : id p = k) by (now apply persons_get_some in Hp).
  assert (Hattach :
            (truthy (parentId p) = true -> persons_get (parentId p) reg = None) ->
            linked (k :: done) (attachByName v p reg)).
  { intros Hnone. unfold attachByName.
    destruct (parentByName v p reg) as [q |] eqn:Hq.
    2:{ apply linked_skip; [| assumption].
        intros p' Hp'. rewrite Hp in Hp'. injection Hp' as <-. exact Hnone. }
    destruct (existsb (fun c => jsval_eqb c (id p)) (children q)).
    { apply linked_skip; [| assumption].
      intros p' Hp'. rewrite Hp in Hp'. injection Hp' as <-. exact Hnone. }
    destruct (persons_get_present reg q (parentByName_in v p q reg Hq))
      as (q0 & Hq0).
    apply (linked_attach done k (id q) reg _
             (fun y => (fun y' => if jsval_eqb (id y') (id p)
                                  then setParentId (id q) y' else y')
                         (if jsval_eqb (id y) (id q)
                          then pushChild (id p) y else y)) p q0);
      try assumption.
    - intros x. rewrite !persons_get_modify by reflexivity.
      now destruct (persons_get x reg).
    - intros y. rewrite Hidp.
      destruct (jsval_eqb (id y) (id q)); simpl;
        now destruct (jsval_eqb (id y) k).
    - intros y Hne. rewrite Hidp.
      destruct (jsval_eqb (id y) (id q)); simpl.
      + destruct (jsval_eqb (id y) k) eqn:E; [| reflexivity].
        apply jsval_eqb_eq in E. contradiction.
      + destruct (jsval_eqb (id y) k) eqn:E; [| reflexivity].
        apply jsval_eqb_eq in E. contradiction.
    - destruct (jsval_eqb (id p) (id q)); simpl;
        now rewrite jsval_eqb_refl. }
  destruct (truthy (parentId p)) eqn:Ht.
  - destruct (persons_get (parentId p) reg) as [parent |] eqn:Hpar.
    + assert (Hidpar : id parent = parentId p)
        by (now apply persons_get_some in Hpar).
      apply (linked_attach done k (parentId p) reg _
               (fun y => if jsval_eqb (id y) (id parent)
                         then pushChild (id p) y else y) p parent);
        try assumption.
      * intros x. now rewrite persons_get_modify by reflexivity.
      * intros y. rewrite Hidpar, Hidp.
        now destruct (jsval_eqb (id y) (parentId p)).
      * intros y _. now destruct (jsval_eqb (id y) (id parent)).
      * now destruct (jsval_eqb (id p) (id parent)).
    + apply Hattach. intros _. reflexivity.
  - apply Hattach. intros H. discriminate H.
Qed.

Lemma linked_fold (v : variant) (keys : list jsval) :
  forall done reg,
    NoDup keys -> (forall k, In k keys -> ~ In k done) ->
    linked done reg ->
    linked (rev keys ++ done) (fold_left (link v) keys reg).
Proof.
  induction keys as [| k keys IH]; intros done reg Hnd Hdis Hinv; [assumption |].
  simpl. inversion Hnd as [| x l Hnot Hrest]; subst.
  rewrite <- app_assoc. simpl. apply IH; [assumption | |].
  - intros k' Hk' [<- | Hin]; [contradiction |].
    apply (Hdis k'); [now right | assumption].
  - apply linked_link; [| assumption]. apply Hdis. now left.
Qed.

Lemma linked_secondPass (v : variant) (reg : registry) :
  NoDup (map id reg) ->
  (forall p, In p reg -> children p = []) ->
  linked (rev (map id reg)) (secondPass v reg).
Proof.
  intros Hnd Hempty. unfold secondPass.
  rewrite <- (app_nil_r (rev (map id reg))).
  apply linked_fold; [assumption | intros k _ [] |].
  split; [| split].
  - intros kq q c Hq Hc. apply persons_get_some in Hq as [Hq _].
    rewrite (Hempty q Hq) in Hc. contradiction.
  - intros kq q Hq. apply persons_get_some in Hq as [Hq _].
    rewrite (Hempty q Hq). constructor.
  - intros kp p q [].
Qed.

Lemma linked_sortChildren (done : list jsval) (reg : registry) :
  linked done reg -> linked done (sortChildren reg).
Proof.
  intros (I1 & I2 & I3).
  assert (Hget : forall x,
             persons_get x (sortChildren reg)
             = option_map
                 (fun p => setChildren
                             (sortBy (fun a b => compareBirth (birthOf reg a)
                                                              (birthOf reg b))
                                     (children p)) p)
                 (persons_get x reg)).
  { intros x. unfold persons_get, sortChildren. now apply find_map_same. }
  assert (Hperm : forall l,
             Permutation l
               (sortBy (fun a b => compareBirth (birthOf reg a) (birthOf reg b)) l)).
  { intros l.
    now destruct (sortBy_correct (compareChildren reg) (compareChildren_asym reg)
                    (compareChildren_between reg) l) as (_ & Hp & _). }
  split; [| split].
  - intros kq q' c Hq' Hc. rewrite Hget in Hq'.
    destruct (persons_get kq reg) as [q |] eqn:Hq; [| discriminate].
    injection Hq' as <-. simpl in Hc.
    apply (Permutation_in c (Permutation_sym (Hperm (children q)))) in Hc.
    destruct (I1 kq q c Hq Hc) as (Hd & pc & Hpc & Hpp).
    split; [assumption |]. eexists. rewrite Hget, Hpc. split; [reflexivity |].
    exact Hpp.
  - intros kq q' Hq'. rewrite Hget in Hq'.
    destruct (persons_get kq reg) as [q |] eqn:Hq; [| discriminate].
    injection Hq' as <-. simpl.
    apply (Permutation_NoDup (Hperm (children q))). now apply (I2 kq).
  - intros kp p' q' Hin Hp' Ht Hq'. rewrite Hget in Hp'.
    destruct (persons_get kp reg) as [p |] eqn:Hp; [| discriminate].
    injection Hp' as <-. simpl in Ht, Hq'. rewrite Hget in Hq'.
    destruct (persons_get (parentId p) reg) as [q |] eqn:Hq; [| discriminate].
    injection Hq' as <-. simpl.
    apply (Permutation_in kp (Hperm (children q))). now apply (I3 kp p q).
Qed.

(** The first pass leaves every children list empty. *)
Lemma modify_keeps (P : person -> Prop) (k : jsval) (f : person -> person)
      (reg : registry) :
  (forall p, P p -> P (f p)) -> Forall P reg -> Forall P (modify k f reg).
Proof.
  intros Hf H. unfold modify. apply Forall_map.
  apply (Forall_impl _ (P := P)); [| assumption].
  intros p Hp. destruct (jsval_eqb (id p) k); [now apply Hf | assumption].
Qed.

Lemma persons_set_keeps (P : person -> Prop) (v : person) (reg : registry) :
  P v -> Forall P reg -> Forall P (persons_set v reg).
Proof.
  intros Hv. induction 1 as [| p r Hp Hr IH]; simpl; [now repeat constructor |].
  destruct (jsval_eqb (id p) (id v)); now constructor.
Qed.

Lemma ingest_no_children (v : variant) (reg reg' : registry) (r : record) :
  Forall (fun p => children p = []) reg -> ingest v reg r = Some reg' ->
  Forall (fun p => children p = []) reg'.
Proof.
  intros H. unfold ingest.
  destruct (String.eqb (Person r) ""); [now intros [= <-] |].
  assert (H1 : Forall (fun p => children p = []) (fst (resolveIdentity v r reg))).
  { unfold resolveIdentity. destruct v.
    - destruct (persons_has _ reg); [assumption |].
      now apply persons_set_keeps.
    - destruct (truthy (AnchorId r)).
      + destruct (persons_has _ reg); [assumption |]. now apply persons_set_keeps.
      + destruct (find _ reg); [assumption |]. now apply persons_set_keeps. }
  destruct (resolveIdentity v r reg) as [reg1 a]. simpl in H1.
  destruct (convertExcelDate (Datum r)) as [d |]; [| discriminate].
  intros [= <-].
  assert (H2 : Forall (fun p => children p = [])
                      (modify a (pushEvent (makeEvent r d)) reg1)).
  { apply modify_keeps; [| assumption]. intros p Hp. exact Hp. }
  unfold resolveParent, assignParent.
  repeat match goal with
         | |- context [if ?b then _ else _] => destruct b
         | |- context [match ?o with Some _ => _ | None => _ end] => destruct o
         | |- context [match ?x with Widget => _ | Block => _ end] => destruct x
         end; try assumption;
    (apply modify_keeps; [intros ? Hkeep; exact Hkeep | assumption]).
Qed.

Lemma firstPass_no_children (v : variant) (data : list record) :
  forall reg reg',
    Forall (fun p => children p = []) reg -> firstPass v reg data = Some reg' ->
    Forall (fun p => children p = []) reg'.
Proof.
  induction data as [| r data IH]; intros reg reg' H; simpl.
  - now intros [= <-].
  - destruct (ingest v reg r) as [reg1 |] eqn:E; [| discriminate].
    apply IH. now apply (ingest_no_children v reg reg1 r).
Qed.

Lemma buildTree_linked (v : variant) (data : list record) (t : FamilyTree) :
  buildTree v data = Some t ->
  linked (rev (map id (persons t))) (persons t).
Proof.
  unfold buildTree. destruct (firstPass v [] data) as [reg |] eqn:E; [| discriminate].
  intros [= <-]. simpl. rewrite sortChildren_ids, secondPass_ids.
  apply linked_sortChildren. apply linked_secondPass.
  - apply (firstPass_unique v data [] reg); [constructor | assumption].
  - pose proof (firstPass_no_children v data [] reg (Forall_nil _) E) as H.
    rewrite Forall_forall in H. exact H.
Qed.

(** X1: after [buildTree] the children lists and the parent ids say the same:
    a person is in the children list of another one exactly when its
    parent id is that person's id.  (A parent id that is empty, or that
    belongs to nobody, puts the person in no list.) *)
Theorem children_match_parents (v : variant) (data : list record)
        (t : FamilyTree) (p q : person) :
  buildTree v data = Some t ->
  In p (persons t) -> In q (persons t) ->
  (In (id p) (children q) -> parentId p = id q)
  /\ (truthy (parentId p) = true -> parentId p = id q ->
      In (id p) (children q)).
Proof.
  intros Hb Hp Hq.
  pose proof (buildTree_ids_unique v data t Hb) as Hnd.
  destruct (buildTree_linked v data t Hb) as (I1 & I2 & I3).
  pose proof (persons_get_unique _ p Hnd Hp) as Hgp.
  pose proof (persons_get_unique _ q Hnd Hq) as Hgq.
  split.
  - intros Hin. destruct (I1 (id q) q (id p) Hgq Hin) as (_ & pc & Hpc & Hpp).
    congruence.
  - intros Ht Heq. apply (I3 (id p) p q); try assumption.
    + apply in_rev. rewrite rev_involutive. now apply in_map.
    + now rewrite Heq.
Qed.

Lemma children_match_parents_witness :
  (In (id (personNamed demoTree "Emil")) (children (personNamed demoTree "Anna"))
   -> parentId (personNamed demoTree "Emil") = id (personNamed demoTree "Anna"))
  /\ (truthy (parentId (personNamed demoTree "Emil")) = true ->
      parentId (personNamed demoTree "Emil") = id (personNamed demoTree "Anna") ->
      In (id (personNamed demoTree "Emil"))
         (children (personNamed demoTree "Anna"))).
Proof.
  apply (children_match_parents Block demoData demoTree).
  - vm_compute. reflexivity.
  - vm_compute. tauto.
  - vm_compute. tauto.
Defined.

Lemma NoDup_flat_map_owner {A B C : Type} (f : A -> list B) (g : A -> C)
      (owner : B -> C) (l : list A) :
  (forall q, In q l -> NoDup (f q)) ->
  (forall q c, In q l -> In c (f q) -> owner c = g q) ->
  NoDup (map g l) -> NoDup (flat_map f l).
Proof.
  induction l as [| a l IH]; intros Hnd Hown Hg; [constructor |].
  simpl in *. inversion Hg as [| x y Hnot Hrest]; subst.
  apply NoDup_app.
  - apply Hnd. now left.
  - apply IH; [intros q Hq; apply Hnd; now right | | assumption].
    intros q c Hq Hc. apply Hown; [now right | assumption].
  - intros c Hc Hc'. apply in_flat_map in Hc' as (q & Hq & Hcq).
    apply Hnot. apply in_map_iff. exists q. split; [| assumption].
    rewrite <- (Hown q c (or_intror Hq) Hcq).
    apply Hown; [now left | assumption].
Qed.

(** X2: no person is a child twice: the children lists of a built tree,
    taken together, hold every reference at most once, and every
    reference is the id of a person of the tree. *)
Theorem children_not_shared (v : variant) (data : list record) (t : FamilyTree) :
  buildTree v data = Some t ->
  NoDup (allChildren (persons t))
  /\ incl (allChildren (persons t)) (map id (persons t)).
Proof.
  intros Hb.
  pose proof (buildTree_ids_unique v data t Hb) as Hnd.
  destruct (buildTree_linked v data t Hb) as (I1 & I2 & I3).
  split.
  - apply (NoDup_flat_map_owner children (fun q => Some (id q))
             (fun c => option_map parentId (persons_get c (persons t)))).
    + intros q Hq. apply (I2 (id q)). now apply persons_get_unique.
    + intros q c Hq Hc.
      destruct (I1 (id q) q c (persons_get_unique _ q Hnd Hq) Hc)
        as (_ & pc & Hpc & Hpp).
      rewrite Hpc. simpl. now rewrite Hpp.
    + clear - Hnd. induction (persons t) as [| a l IH]; [constructor |].
      simpl in *. inversion Hnd as [| x y Hnot Hrest]; subst.
      constructor; [| now apply IH].
      intros Hin. apply in_map_iff in Hin as (q & [= Hq] & Hin).
      apply Hnot. rewrite <- Hq. now apply in_map.
  - intros c Hc. apply in_flat_map in Hc as (q & Hq & Hcq).
    destruct (I1 (id q) q c (persons_get_unique _ q Hnd Hq) Hcq)
      as (_ & pc & Hpc & _).
    apply persons_get_some in Hpc as [Hin <-]. now apply in_map.
Qed.

Lemma children_not_shared_witness :
  NoDup (allChildren (persons demoTree))
  /\ incl (allChildren (persons demoTree)) (map id (persons demoTree)).
Proof.
  apply (children_not_shared Block demoData demoTree).
  vm_compute. reflexivity.
Defined.

(** ** No event is invented *)

Lemma totalEvents_modify_same (k : jsval) (f : person -> person) (reg : registry) :
  (forall p, events (f p) = events p) ->
  totalEvents (modify k f reg) = totalEvents reg.
Proof.
  intros Hf. unfold totalEvents, modify. rewrite map_map. f_equal.
  apply map_ext. intros p. destruct (jsval_eqb (id p) k); [now rewrite Hf | reflexivity].
Qed.

Lemma totalEvents_push (k : jsval) (e : event) (reg : registry) :
  NoDup (map id reg) -> persons_has k reg = true ->
  totalEvents (modify k (pushEvent e) reg) = S (totalEvents reg).
Proof.
  unfold totalEvents, modify, persons_has.
  induction reg as [| p r IH]; intros Hnd Hhas; [discriminate |].
  simpl in *. inversion Hnd as [| x l Hnot Hrest]; subst.
  destruct (jsval_eqb (id p) k) eqn:E.
  - simpl. rewrite length_app. simpl.
    assert (Hsame : map (fun p0 => List.length
                                     (events (if jsval_eqb (id p0) k
                                              then pushEvent e p0 else p0))) r
                    = map (fun p0 => List.length (events p0)) r).
    { apply map_ext_in. intros q Hq.
      destruct (jsval_eqb (id q) k) eqn:Eq; [| reflexivity].
      apply jsval_eqb_eq in E, Eq. exfalso. apply Hnot.
      rewrite E, <- Eq. now apply in_map. }
    rewrite map_map in *. rewrite Hsame. lia.
  - simpl in Hhas. rewrite map_map in *. rewrite IH by assumption. lia.
Qed.

Lemma totalEvents_set (v : person) (reg : registry) :
  events v = [] ->
  (totalEvents (persons_set v reg) <= totalEvents reg)%nat
  /\ (persons_has (id v) reg = false ->
      totalEvents (persons_set v reg) = totalEvents reg).
Proof.
  intros Hv. unfold totalEvents, persons_has.
  induction reg as [| p r [IH1 IH2]]; simpl.
  - rewrite Hv. simpl. split; [lia | reflexivity].
  - destruct (jsval_eqb (id p) (id v)); simpl.
    + rewrite Hv. simpl. split; [lia | discriminate].
    + split; [lia |]. intros H. now rewrite IH2.
Qed.

Lemma persons_has_set (v : person) (reg : registry) :
  persons_has (id v) (persons_set v reg) = true.
Proof.
  apply persons_has_in. rewrite persons_set_ids.
  destruct (persons_has (id v) reg) eqn:E.
  - now apply persons_has_in.
  - apply in_or_app. right. now left.
Qed.

Lemma resolveIdentity_events (v : variant) (r : record) (reg : registry) :
  persons_has (snd (resolveIdentity v r reg)) (fst (resolveIdentity v r reg)) = true
  /\ (totalEvents (fst (resolveIdentity v r reg)) <= totalEvents reg)%nat
  /\ (v = Widget -> totalEvents (fst (resolveIdentity v r reg)) = totalEvents reg).
Proof.
  unfold resolveIdentity. destruct v.
  - destruct (persons_has _ reg) eqn:E; simpl.
    + split; [assumption |]. split; [lia | reflexivity].
    + split; [apply (persons_has_set (newPerson _ (Person r))) |].
      destruct (totalEvents_set (newPerson
                  (if truthy (AnchorId r) then AnchorId r else JStr (Person r))
                  (Person r)) reg eq_refl) as [H1 H2].
      split; [assumption |]. intros _. now apply H2.
  - destruct (truthy (AnchorId r)).
    + destruct (persons_has _ reg) eqn:E; simpl.
      * split; [assumption |]. split; [lia | discriminate].
      * split; [apply (persons_has_set (newPerson _ (Person r))) |].
        split; [| discriminate].
        now apply (totalEvents_set (newPerson (JStr (toString (AnchorId r)))
                                              (Person r))).
    + destruct (find _ reg) as [existing |] eqn:E; simpl.
      * split; [| split; [lia | discriminate]].
        apply persons_has_in. apply in_map. now apply find_some in E.
      * split; [apply (persons_has_set (newPerson _ (Person r))) |].
        split; [| discriminate].
        now apply (totalEvents_set (newPerson (JStr (Person r)) (Person r))).
Qed.

Lemma resolveParent_events (v : variant) (r : record) (k : jsval) (reg : registry) :
  totalEvents (resolveParent v r k reg) = totalEvents reg.
Proof.
  unfold resolveParent, assignParent.
  repeat match goal with
         | |- context [if ?b then _ else _] => destruct b
         | |- context [match ?o with Some _ => _ | None => _ end] => destruct o
         | |- context [match ?x with Widget => _ | Block => _ end] => destruct x
         end; try reflexivity; now apply totalEvents_modify_same.
Qed.

Lemma firstPass_events (v : variant) (data : list record) :
  forall reg reg',
    NoDup (map id reg) -> firstPass v reg data = Some reg' ->
    (totalEvents reg' <= totalEvents reg + List.length (filter named data))%nat
    /\ (v = Widget ->
        totalEvents reg' = (totalEvents reg + List.length (filter named data))%nat).
Proof.
  induction data as [| r data IH]; intros reg reg' Hnd; simpl.
  - intros [= <-]. split; [lia | intros _; lia].
  - destruct (ingest v reg r) as [reg1 |] eqn:E; [| discriminate].
    intros Hrest.
    destruct (IH reg1 reg' (ingest_unique v reg reg1 r Hnd E) Hrest) as [IH1 IH2].
    unfold ingest in E.
    assert (Hn : named r = negb (String.eqb (Person r) "")) by reflexivity.
    rewrite Hn. destruct (String.eqb (Person r) ""); cbn [negb].
    + injection E as <-. split; assumption.
    + cbn [List.length]. pose proof (resolveIdentity_events v r reg) as (Hhas & Hle & Heq).
      pose proof (resolveIdentity_unique v r reg Hnd) as Hnd1.
      destruct (resolveIdentity v r reg) as [r1 a]. simpl in *.
      destruct (convertExcelDate (Datum r)) as [d |]; [| discriminate].
      injection E as <-.
      rewrite resolveParent_events, totalEvents_push in IH1, IH2 by assumption.
      split; [lia |]. intros Hv. specialize (IH2 Hv). specialize (Heq Hv). lia.
Qed.

Lemma link_events (v : variant) (reg : registry) (k : jsval) :
  totalEvents (link v reg k) = totalEvents reg.
Proof.
  unfold link, attachByName.
  repeat match goal with
         | |- context [if ?b then _ else _] => destruct b
         | |- context [match ?o with Some _ => _ | None => _ end] => destruct o
         end; try reflexivity; rewrite ?totalEvents_modify_same; reflexivity.
Qed.

Lemma assemble_events (v : variant) (reg : registry) :
  totalEvents (persons (assemble v reg)) = totalEvents reg.
Proof.
  simpl. unfold sortChildren, totalEvents at 1. rewrite map_map. simpl.
  fold (totalEvents (secondPass v reg)). unfold secondPass.
  generalize (map id reg) as keys. intros keys. revert reg.
  induction keys as [| k keys IH]; intros reg; [reflexivity |].
  simpl. rewrite IH. apply link_events.
Qed.

(** X3: every record that bears a person name adds one event to one person
    and nothing else does: a built tree never holds more events than the
    source has such records, and the copy under [widgets/] holds exactly
    as many. *)
Theorem events_accounted (v : variant) (data : list record) (t : FamilyTree) :
  buildTree v data = Some t ->
  (totalEvents (persons t) <= List.length (filter named data))%nat
  /\ (v = Widget -> totalEvents (persons t) = List.length (filter named data)).
Proof.
  unfold buildTree. destruct (firstPass v [] data) as [reg |] eqn:E; [| discriminate].
  intros [= <-]. rewrite assemble_events.
  destruct (firstPass_events v data [] reg (NoDup_nil _) E) as [H1 H2].
  simpl in *. split; [lia |]. intros Hv. now rewrite (H2 Hv).
Qed.

Lemma events_accounted_witness :
  exists t,
    buildTree Widget demoData = Some t
    /\ totalEvents (persons t) = List.length (filter named demoData).
Proof.
  destruct (buildTree Widget demoData) as [t |] eqn:E;
    [| vm_compute in E; discriminate E].
  exists t. split; [reflexivity |].
  exact (proj2 (events_accounted Widget demoData t E) eq_refl).
Defined.

(** ** The root *)

(** X4: a registry that is not empty has a root, the root is one of its
    persons, and it is a person without parent id whenever there is one;
    the empty registry has no root. *)
Theorem root_is_chosen (reg : registry) :
  selectRoot [] = None
  /\ (reg <> [] ->
      exists r, selectRoot reg = Some r /\ In r reg
                /\ ((exists p, In p reg /\ noParent p = true) -> noParent r = true)).
Proof.
  split; [reflexivity |]. intros Hne.
  assert (Hfb : exists r, fallbackRoot reg = Some r /\ In r reg
                  /\ ((exists p, In p reg /\ noParent p = true) -> noParent r = true)).
  { unfold fallbackRoot. destruct (filter noParent reg) as [| first rest] eqn:Hf.
    - destruct reg as [| a l]; [contradiction |]. exists a.
      split; [reflexivity |]. split; [now left |].
      intros (p & Hp & Hn).
      assert (Hin : In p (filter noParent (a :: l))) by (now apply filter_In).
      rewrite Hf in Hin. contradiction.
    - exists (reduceEarlier first rest). split; [reflexivity |].
      pose proof (reduceEarlier_in rest first) as Hin. rewrite <- Hf in Hin.
      apply filter_In in Hin as [Hin Hn]. split; [assumption |]. intros _. exact Hn. }
  unfold selectRoot. destruct (persons_get (JStr "0") reg) as [p0 |] eqn:H0;
    [| exact Hfb].
  destruct (noParent p0) eqn:Hn; [| exact Hfb].
  exists p0. split; [reflexivity |]. split; [| intros _; exact Hn].
  now apply persons_get_some in H0.
Qed.

Lemma root_is_chosen_witness :
  selectRoot [] = None
  /\ exists r, selectRoot (persons demoTree) = Some r /\ In r (persons demoTree)
               /\ noParent r = true.
Proof.
  destruct (root_is_chosen (persons demoTree)) as [Hnone Hsome].
  destruct Hsome as (r & Hr & Hin & Hn); [vm_compute; discriminate |].
  split; [exact Hnone |]. exists r. split; [exact Hr |]. split; [exact Hin |].
  apply Hn. exists (personNamed demoTree "Rosa").
  split; [vm_compute; tauto | reflexivity].
Defined.

(** ** The path to the root *)

(** The walk of [getPathToRoot] comes to an end within the fuel given to
    it, after at most one person more than the registry holds. *)
Lemma getPathToRoot_returns (reg : registry) (root start : person) :
  exists walk,
    walkUp (List.length reg + 2) reg [] [] start = Some walk
    /\ getPathToRoot reg root start = Some (rev (anchorAtRoot root walk))
    /\ (List.length walk <= S (List.length reg))%nat.
Proof.
  set (base := id start :: map id reg).
  destruct (walkUp_enough_fuel reg base) with
    (fuel := (List.length reg + 2)%nat) (visited := @nil jsval)
    (path := @nil person) (current := start) as (walk & Hw).
  - intros p Hp. right. now apply in_map.
  - constructor.
  - intros k [].
  - now left.
  - unfold base. simpl. rewrite length_map. lia.
  - exists walk. split; [exact Hw |].
    unfold getPathToRoot. rewrite Hw. split; [reflexivity |].
    destruct (walkUp_spec _ _ _ _ _ _ Hw) as (ext & -> & Hanc & Hnd & _ & Hreg).
    simpl.
    assert (Hincl : incl (map id ext) base).
    { intros k Hk. apply in_map_iff in Hk as (p & <- & Hp).
      destruct (Hreg p Hp) as [-> | Hr]; [now left |].
      right. now apply in_map. }
    pose proof (NoDup_incl_length Hnd Hincl) as Hl.
    unfold base in Hl. simpl in Hl. rewrite !length_map in Hl. exact Hl.
Qed.

Lemma getPathToRoot_ends (reg : registry) (root start : person) :
  exists top middle front,
    getPathToRoot reg root start = Some (top :: middle)
    /\ id top = id root
    /\ top :: middle = front ++ [start]
    /\ (List.length (top :: middle) <= List.length reg + 2)%nat.
Proof.
  destruct (getPathToRoot_returns reg root start)
    as (walk & Hw & Hp & Hlen).
  destruct (getPathToRoot_ends_in_start reg root start _ Hp) as (front & Hfront).
  assert (Hhead : exists top middle,
             rev (anchorAtRoot root walk) = top :: middle /\ id top = id root
             /\ (List.length (top :: middle) <= List.length reg + 2)%nat).
  { unfold anchorAtRoot. rewrite last_rev_head.
    destruct (rev walk) as [| top more] eqn:E; simpl.
    - rewrite rev_app_distr. simpl. rewrite E. exists root, [].
      repeat split. simpl. lia.
    - assert (Hl : List.length (top :: more) = List.length walk)
        by (now rewrite <- E, length_rev).
      simpl in Hl.
      destruct (jsval_eqb (id top) (id root)) eqn:Eid.
      + rewrite E. exists top, more. apply jsval_eqb_eq in Eid.
        split; [reflexivity |]. split; [assumption |]. lia.
      + rewrite rev_app_distr. simpl. rewrite E. exists root, (top :: more).
        split; [reflexivity |]. split; [reflexivity |].
        simpl in *. lia. }
  destruct Hhead as (top & middle & Heq & Hid & Hl).
  exists top, middle, front. rewrite Hp, Heq. split; [reflexivity |].
  split; [assumption |]. split; [now rewrite <- Heq | assumption].
Qed.

(** X5: [getPathToRoot] always returns a path; it begins with a person that
    has the id of the root, ends with the person asked for, and has at
    most two persons more than the registry. *)
Theorem path_runs_from_root (reg : registry) (root start : person) :
  exists top middle front,
    getPathToRoot reg root start = Some (top :: middle)
    /\ id top = id root
    /\ top :: middle = front ++ [start]
    /\ (List.length (top :: middle) <= List.length reg + 2)%nat.
Proof. apply getPathToRoot_ends. Qed.

(** X6: [getBreadcrumbPath], which puts each person in front of the path
    while it walks up, and [getPathToRoot], which appends and reverses at
    the end, return the same path for every registry, root and person. *)
Theorem breadcrumb_is_path_to_root (reg : registry) (root start : person) :
  getBreadcrumbPath reg root start = getPathToRoot reg root start.
Proof. apply getBreadcrumbPath_getPathToRoot. Qed.


(** ** History: going back restores the focus *)

Lemma findByName_in (reg : registry) (p : person) :
  In p reg -> findByName reg (name p) <> None.
Proof.
  intros Hin H. pose proof (find_none _ _ H p Hin) as Hf. simpl in Hf.
  now rewrite String.eqb_refl in Hf.
Qed.

Lemma followState_resolved (reg : registry) (front : list string) (n : string)
      (f : person) :
  Forall (fun m => findByName reg m <> None) front ->
  findByName reg n = Some f ->
  forall cur, followState reg (front ++ [n]) cur = Some f.
Proof.
  intros Hfront Hn. induction Hfront as [| m r Hm Hr IH]; intros cur; simpl.
  - now rewrite Hn.
  - destruct (findByName reg m); [apply IH | contradiction].
Qed.

(** The persons of a path are the person asked for, the root, or persons
    of the registry. *)
Lemma getPathToRoot_members (reg : registry) (root start : person)
      (path : list person) :
  getPathToRoot reg root start = Some path ->
  forall p, In p path -> p = start \/ p = root \/ In p reg.
Proof.
  unfold getPathToRoot.
  destruct (walkUp (List.length reg + 2) reg [] [] start) as [walk |] eqn:Hw;
    [| discriminate].
  intros [= <-] p Hp. apply in_rev in Hp.
  destruct (walkUp_spec _ _ _ _ _ _ Hw) as (ext & Heq & _ & _ & _ & Hmem).
  simpl in Heq. subst walk.
  assert (Hin : In p ext \/ p = root).
  { unfold anchorAtRoot in Hp.
    destruct (last (map Some ext) None) as [top |].
    - destruct (jsval_eqb (id top) (id root)); [now left |].
      apply in_app_or in Hp as [Hp | [<- | []]]; [now left | now right].
    - apply in_app_or in Hp as [Hp | [<- | []]]; [now left | now right]. }
  destruct Hin as [Hin | ->]; [| right; now left].
  destruct (Hmem p Hin) as [-> | Hr]; [now left | right; now right].
Qed.

(** X7: going back to a history entry that [navigateToPerson] pushed puts the
    focus on the person navigated to, provided that person is the first
    one in the registry bearing its name. *)
Theorem popstate_restores_focus (t : FamilyTree) (root f : person)
        (t' : FamilyTree) (e : historyEntry) :
  In root (persons t) -> In f (persons t) ->
  findByName (persons t) (name f) = Some f ->
  navigateToPerson t root f = Some (t', e) ->
  currentRoot t' = Some f
  /\ forall u, persons u = persons t ->
               currentRoot (onPopState u (Some (statePath e))) = Some f.
Proof.
  intros Hroot Hf Hfirst. unfold navigateToPerson, updateURL.
  rewrite getBreadcrumbPath_getPathToRoot.
  destruct (getPathToRoot (persons t) root f) as [path |] eqn:Hp; [| discriminate].
  intros [= <- <-]. split; [reflexivity |]. intros u Hu. simpl.
  destruct (getPathToRoot_ends_in_start _ _ _ _ Hp) as (front & ->).
  rewrite Hu, map_app. simpl.
  rewrite (followState_resolved (persons t) (map name front) (name f) f);
    [reflexivity | | assumption].
  apply Forall_forall. intros m Hm. apply in_map_iff in Hm as (p & <- & Hin).
  apply findByName_in.
  destruct (getPathToRoot_members _ _ _ _ Hp p) as [-> | [-> | Hr]];
    try assumption.
  apply in_or_app. now left.
Qed.

Lemma popstate_restores_focus_witness :
  exists t' e,
    navigateToPerson demoTree (personNamed demoTree "Rosa")
                     (personNamed demoTree "Emil") = Some (t', e)
    /\ currentRoot t' = Some (personNamed demoTree "Emil")
    /\ forall u, persons u = persons demoTree ->
                 currentRoot (onPopState u (Some (statePath e)))
                 = Some (personNamed demoTree "Emil").
Proof.
  destruct (navigateToPerson demoTree (personNamed demoTree "Rosa")
                             (personNamed demoTree "Emil"))
    as [[t' e] |] eqn:E; [| vm_compute in E; discriminate E].
  exists t', e. split; [reflexivity |].
  apply (popstate_restores_focus demoTree (personNamed demoTree "Rosa")
           (personNamed demoTree "Emil") t' e).
  - vm_compute. tauto.
  - vm_compute. tauto.
  - vm_compute. reflexivity.
  - exact E.
Defined.

(** ** URL: reloading restores the focus *)

Lemma sapp_assoc (a b c : string) : ((a ++ b) ++ c = a ++ (b ++ c))%string.
Proof. induction a as [| x a IH]; simpl; [reflexivity | now rewrite IH]. Qed.

Lemma sapp_nil_r (a : string) : (a ++ "")%string = a.
Proof. induction a as [| x a IH]; simpl; [reflexivity | now rewrite IH]. Qed.

Lemma rev_string_aux_app (s : string) :
  forall acc, rev_string_aux s acc = (rev_string s ++ acc)%string.
Proof.
  unfold rev_string. induction s as [| c s IH]; intros acc; simpl; [reflexivity |].
  rewrite (IH (String c acc)), (IH (String c EmptyString)), sapp_assoc.
  reflexivity.
Qed.

Lemma rev_string_app (a b : string) :
  rev_string (a ++ b) = (rev_string b ++ rev_string a)%string.
Proof.
  induction a as [| x a IH]; simpl.
  - now rewrite sapp_nil_r.
  - change (rev_string (String x (a ++ b)))
      with (rev_string_aux (a ++ b) (String x EmptyString)).
    change (rev_string (String x a))
      with (rev_string_aux a (String x EmptyString)).
    rewrite !rev_string_aux_app, IH, sapp_assoc. reflexivity.
Qed.

Lemma rev_string_involutive (s : string) : rev_string (rev_string s) = s.
Proof.
  induction s as [| c s IH]; [reflexivity |].
  change (String c s) with (String c EmptyString ++ s)%string at 1.
  rewrite rev_string_app, rev_string_app, IH. reflexivity.
Qed.

Lemma startsWith_app_long (y z p : string) :
  (String.length p <= String.length y)%nat ->
  startsWith (y ++ z) p = startsWith y p.
Proof.
  revert y. induction p as [| a p IH]; intros y Hl.
  - destruct y; simpl; [now destruct z | reflexivity].
  - destruct y as [| b y]; simpl in Hl; [lia |].
    simpl. rewrite IH by lia. reflexivity.
Qed.

(** Inside a safe name, and at its end, no separator starts before the
    one that [join] puts behind it. *)
Lemma urlSafe_no_start (a b rest : string) (c : ascii) :
  urlSafe (a ++ String c b) ->
  startsWith (String c b ++ " > " ++ rest) " > " = false.
Proof.
  unfold urlSafe. intros Hs.
  destruct (startsWith (String c b ++ " > " ++ rest) " > ") eqn:E; [| reflexivity].
  assert (E' : startsWith (String c b ++ " >") " > " = true).
  { rewrite <- (startsWith_app_long (String c b ++ " >") (" " ++ rest) " > ").
    - rewrite sapp_assoc. exact E.
    - clear. simpl. induction b as [| d b IH]; simpl in *; lia. }
  assert (Hinc : includes ((a ++ String c b) ++ " >") " > " = true).
  { apply includes_substring. apply startsWith_prefix in E' as (r & Hr).
    exists a, r. rewrite sapp_assoc. now rewrite Hr. }
  congruence.
Qed.

Lemma urlSafe_no_start_last (a b : string) (c : ascii) :
  urlSafe (a ++ String c b) -> startsWith (String c b) " > " = false.
Proof.
  unfold urlSafe. intros Hs.
  destruct (startsWith (String c b) " > ") eqn:E; [| reflexivity].
  assert (Hinc : includes ((a ++ String c b) ++ " >") " > " = true).
  { apply includes_substring. apply startsWith_prefix in E as (r & Hr).
    exists a, (r ++ " >")%string. rewrite sapp_assoc, Hr, !sapp_assoc.
    reflexivity. }
  congruence.
Qed.

Lemma startsWith_nil (s : string) : startsWith s "" = true.
Proof. now destruct s. Qed.

Lemma splitAux_piece (rest : string) (n : string) :
  forall a cur,
    urlSafe (a ++ n) ->
    splitAux " > " (n ++ " > " ++ rest) O cur
    = (rev_string cur ++ n)%string :: splitAux " > " rest O EmptyString.
Proof.
  induction n as [| c n IH]; intros a cur Hs.
  - rewrite sapp_nil_r.
    change (splitAux " > " ("" ++ " > " ++ rest) O cur)
      with (if Ascii.eqb " " " " && (Ascii.eqb ">" ">"
               && (Ascii.eqb " " " " && startsWith rest ""))
            then rev_string cur :: splitAux " > " rest O EmptyString
            else splitAux " > " (String ">" (String " " rest)) O (String " " cur)).
    now rewrite startsWith_nil.
  - change (splitAux " > " (String c n ++ " > " ++ rest) O cur)
      with (if startsWith (String c n ++ " > " ++ rest) " > "
            then rev_string cur
                   :: splitAux " > " (n ++ " > " ++ rest)
                               (String.length " > " - 1) EmptyString
            else splitAux " > " (n ++ " > " ++ rest) O (String c cur)).
    rewrite (urlSafe_no_start a n rest c Hs).
    rewrite (IH (a ++ String c EmptyString)%string).
    + f_equal. unfold rev_string at 1. simpl.
      rewrite rev_string_aux_app, sapp_assoc. reflexivity.
    + now rewrite sapp_assoc.
Qed.

Lemma splitAux_last (n : string) :
  forall a cur,
    urlSafe (a ++ n) ->
    splitAux " > " n O cur = [(rev_string cur ++ n)%string].
Proof.
  induction n as [| c n IH]; intros a cur Hs.
  - simpl. now rewrite sapp_nil_r.
  - change (splitAux " > " (String c n) O cur)
      with (if startsWith (String c n) " > "
            then rev_string cur
                   :: splitAux " > " n (String.length " > " - 1) EmptyString
            else splitAux " > " n O (String c cur)).
    rewrite (urlSafe_no_start_last a n c Hs).
    rewrite (IH (a ++ String c EmptyString)%string).
    + f_equal. unfold rev_string at 1. simpl.
      rewrite rev_string_aux_app, sapp_assoc. reflexivity.
    + now rewrite sapp_assoc.
Qed.

(** Splitting a joined path gives the names back when every name is
    safe. *)
Lemma split_join (names : list string) :
  names <> [] -> Forall urlSafe names ->
  split " > " (join " > " names) = names.
Proof.
  intros Hne Hs. unfold split.
  induction Hs as [| n r Hn Hr IH]; [contradiction |].
  destruct r as [| m r].
  - simpl. now rewrite (splitAux_last n EmptyString EmptyString Hn).
  - change (join " > " (n :: m :: r))
      with (n ++ " > " ++ join " > " (m :: r))%string.
    rewrite (splitAux_piece _ n EmptyString EmptyString Hn).
    simpl (rev_string "" ++ n)%string. f_equal. apply IH. discriminate.
Qed.

Lemma join_not_empty (n m : string) (r : list string) :
  String.eqb (join " > " (n :: m :: r)) "" = false.
Proof.
  change (join " > " (n :: m :: r))
    with (n ++ " > " ++ join " > " (m :: r))%string.
  apply String.eqb_neq. destruct n; discriminate.
Qed.

(** X8: reloading the page with the URL that [navigateToPerson] has written
    puts the focus on the person navigated to.  This needs the names of
    the registry to be safe for the path format and free of surrounding
    white space, and the person to be the first one bearing its name. *)
Theorem reload_restores_focus (t u : FamilyTree) (root f : person)
        (t' : FamilyTree) (e : historyEntry) :
  rootPerson t = Some root ->
  In root (persons t) -> In f (persons t) ->
  NoDup (map id (persons t)) ->
  (forall p, In p (persons t) -> urlSafe (name p) /\ trim (name p) = name p) ->
  findByName (persons t) (name f) = Some f ->
  navigateToPerson t root f = Some (t', e) ->
  persons u = persons t -> rootPerson u = rootPerson t ->
  currentRoot (loadFromURL u (decodedParam e)) = Some f.
Proof.
  intros Hrp Hroot Hf Hnd Hnames Hfirst Hnav Hpu Hru.
  unfold navigateToPerson in Hnav.
  destruct (updateURL (persons t) root f) as [e0 |] eqn:Hup; [| discriminate].
  injection Hnav as _ <-. unfold updateURL in Hup.
  destruct (getBreadcrumbPath (persons t) root f) as [path |] eqn:Hbc;
    [| discriminate].
  injection Hup as <-.
  pose proof Hbc as Hp. rewrite getBreadcrumbPath_getPathToRoot in Hp.
  destruct (getPathToRoot_ends (persons t) root f)
    as (top & middle & front & Hp' & Hid & Hend & _).
  rewrite Hp in Hp'. injection Hp' as ->.
  assert (Hmem : forall p, In p (top :: middle) -> In p (persons t)).
  { intros p Hin.
    destruct (getPathToRoot_members _ _ _ _ Hp p Hin) as [-> | [-> | Hr]];
      assumption. }
  destruct middle as [| second more].
  - (* the path is the root alone: the parameter is deleted *)
    unfold decodedParam, loadFromURL. simpl pathParam.
    simpl. apply jsval_eqb_eq in Hid. rewrite Hid. simpl.
    rewrite Hru, Hrp. f_equal.
    destruct front as [| x front]; simpl in Hend.
    + injection Hend as ->.
      apply jsval_eqb_eq in Hid.
      pose proof (persons_get_unique _ f Hnd Hf) as H1.
      pose proof (persons_get_unique _ root Hnd Hroot) as H2.
      rewrite Hid in H1. congruence.
    + injection Hend as _ Hend. destruct front; discriminate Hend.
  - (* a longer path: the parameter holds the joined names *)
    match goal with
    | |- context [decodedParam ?e0] =>
        assert (Hd : decodedParam e0
                     = join " > " (name top :: name second :: map name more))
          by reflexivity;
        rewrite Hd
    end.
    unfold loadFromURL. rewrite join_not_empty. cbn [currentRoot].
    change (name top :: name second :: map name more)
      with (map name (top :: second :: more)).
    rewrite split_join.
    + assert (Hrec : reconstruct t (map name (top :: second :: more)) = Some f).
      { apply (reconstruct_breadcrumb t root f); [assumption | | ].
        - apply Forall_forall. intros n Hn.
          apply in_map_iff in Hn as (p & <- & Hin). unfold resolves.
          rewrite (proj2 (Hnames p (Hmem p Hin))).
          apply findByName_in. now apply Hmem.
        - now rewrite (proj2 (Hnames f Hf)). }
      unfold reconstruct in *. now rewrite Hpu, Hru.
    + discriminate.
    + apply Forall_forall. intros n Hn.
      apply (in_map_iff name (top :: second :: more)) in Hn as (p & <- & Hin).
      exact (proj1 (Hnames p (Hmem p Hin))).
Qed.

Lemma reload_restores_focus_witness :
  exists t' e,
    navigateToPerson demoTree (personNamed demoTree "Rosa")
                     (personNamed demoTree "Emil") = Some (t', e)
    /\ decodedParam e = "Rosa > Anna > Emil"
    /\ currentRoot (loadFromURL demoTree (decodedParam e))
       = Some (personNamed demoTree "Emil").
Proof.
  destruct (navigateToPerson demoTree (personNamed demoTree "Rosa")
                             (personNamed demoTree "Emil"))
    as [[t' e] |] eqn:E; [| vm_compute in E; discriminate E].
  exists t', e. split; [reflexivity |]. split.
  - vm_compute in E. injection E as _ <-. reflexivity.
  - apply (reload_restores_focus demoTree demoTree (personNamed demoTree "Rosa")
             (personNamed demoTree "Emil") t' e).
    + reflexivity.
    + vm_compute. tauto.
    + vm_compute. tauto.
    + apply (buildTree_ids_unique Block demoData). vm_compute. reflexivity.
    + intros p Hp. vm_compute in Hp.
      destruct Hp as [<- | [<- | [<- | [<- | []]]]]; vm_compute; split; reflexivity.
    + vm_compute. reflexivity.
    + exact E.
    + reflexivity.
    + reflexivity.
Defined.

(** ** Search: what is found *)

Lemma sortBy_perm_any {A : Type} (cmp : A -> A -> Z) (l : list A) :
  Permutation l (sortBy cmp l).
Proof.
  unfold sortBy.
  assert (H : forall acc,
             Permutation (acc ++ l) (fold_left (fun a x => insertBy cmp x a) l acc)).
  { induction l as [| x l IH]; intros acc; simpl.
    - now rewrite app_nil_r.
    - rewrite <- IH. rewrite <- (insertBy_perm cmp x acc). simpl.
      symmetry. apply Permutation_middle. }
  exact (H []).
Qed.

Lemma in_firstn {A : Type} (n : nat) (l : list A) (x : A) :
  In x (firstn n l) -> In x l.
Proof.
  intros H. rewrite <- (firstn_skipn n l). apply in_or_app. now left.
Qed.

Lemma matchPerson_sound (queryLower : string) (p : person) (h : hit) :
  In h (matchPerson queryLower p) ->
  hitPerson h = p
  /\ match matchReason h with
     | ByName =>
         includes (toLowerCase (name p)) queryLower = true
         /\ matchedSpouse h = None
     | BySpouse =>
         includes (toLowerCase (name p)) queryLower = false
         /\ exists e, In e (events p) /\ type e = "Heirat"
                      /\ matchedSpouse h = Some (partner e)
                      /\ includes (toLowerCase (partner e)) queryLower = true
     end.
Proof.
  unfold matchPerson.
  destruct (includes (toLowerCase (name p)) queryLower) eqn:En.
  - intros [<- | []]. simpl. now repeat split.
  - destruct (find _ (filter isMarriage (events p))) as [m |] eqn:Ef;
      [| intros []].
    intros [<- | []]. simpl. split; [reflexivity |]. split; [reflexivity |].
    apply find_some in Ef as [Hin Hinc]. apply filter_In in Hin as [Hin Hm].
    unfold isMarriage in Hm. apply andb_true_iff in Hm as [Ht _].
    apply String.eqb_eq in Ht. exists m. now repeat split.
Qed.



Lemma matchPerson_complete (queryLower : string) (p : person) :
  (includes (toLowerCase (name p)) queryLower = true
   \/ exists e, In e (events p) /\ isMarriage e = true
                /\ includes (toLowerCase (partner e)) queryLower = true) ->
  exists h, matchPerson queryLower p = [h] /\ hitPerson h = p.
Proof.
  intros H. unfold matchPerson.
  destruct (includes (toLowerCase (name p)) queryLower) eqn:En;
    [now eexists |].
  destruct H as [H | (e & Hin & Hm & Hinc)]; [discriminate |].
  destruct (find _ (filter isMarriage (events p))) as [m |] eqn:Ef;
    [now eexists |].
  exfalso.
  assert (Hf : In e (filter isMarriage (events p))) by (now apply filter_In).
  pose proof (find_none _ _ Ef e Hf) as Hno. simpl in Hno. congruence.
Qed.

Lemma matchPerson_short (queryLower : string) (p : person) :
  (List.length (matchPerson queryLower p) <= 1)%nat.
Proof.
  unfold matchPerson. destruct (includes _ queryLower); [simpl; lia |].
  destruct (find _ _); simpl; lia.
Qed.

Lemma hits_unique (queryLower : string) (reg : registry) :
  NoDup (map id reg) ->
  NoDup (map (fun h => id (hitPerson h)) (flat_map (matchPerson queryLower) reg)).
Proof.
  induction reg as [| p r IH]; intros Hnd; [constructor |].
  simpl in *. inversion Hnd as [| x l Hnot Hrest]; subst.
  rewrite map_app. apply NoDup_app.
  - pose proof (matchPerson_short queryLower p) as Hs.
    destruct (matchPerson queryLower p) as [| h [| h' m]]; simpl in *;
      [constructor | repeat constructor; intros [] | lia].
  - now apply IH.
  - intros k Hk Hk'. apply in_map_iff in Hk as (h & <- & Hh).
    apply in_map_iff in Hk' as (h' & Heq & Hh').
    apply in_flat_map in Hh' as (q & Hq & Hh').
    apply matchPerson_sound in Hh as [E1 _].
    apply matchPerson_sound in Hh' as [E2 _].
    apply Hnot. rewrite E1, E2 in Heq. rewrite <- Heq. now apply in_map.
Qed.



(** ** Years *)

Example getYear_samples :
  getYear "" = "" /\ getYear " 1485 " = "1485" /\ getYear "1927-05-18" = "1927"
  /\ getYear "ca. 1500" = "1500" /\ getYear "985" = "985"
  /\ getYear "17.05.1920" = "1920" /\ getYear "19200517" = "1920"
  /\ getYear "am 19200517" = "am 19200517" /\ getYear "10000-01-01" = "1000".
Proof. vm_compute. repeat split; reflexivity. Qed.

Example formatPartnerBirthDeath_samples :
  formatPartnerBirthDeath "*1954" = "*1954"
  /\ formatPartnerBirthDeath (deathMark ++ "2019") = (deathMark ++ "2019")%string
  /\ formatPartnerBirthDeath ("1887" ++ enDash ++ "1918")
     = ("1887" ++ enDash ++ "1918")%string
  /\ formatPartnerBirthDeath "no-year-text" = "no-year-text"
  /\ formatPartnerBirthDeath "*27.05.1970" = "*1970"
  /\ formatPartnerBirthDeath "*1920 - 1980" = ("1920" ++ enDash ++ "1980")%string
  /\ formatPartnerBirthDeath "*12-03-1920" = "*1920"
  /\ formatPartnerBirthDeath "geb. 1920" = "1920".
Proof. vm_compute. repeat split; reflexivity. Qed.

Lemma yearChecked_all :
  forallb (fun k => yearChecked (Z.of_nat k)) (seq 1 (Z.to_nat 9999)) = true.
Proof. vm_compute. reflexivity. Qed.

Lemma yearChecked_ok (n : Z) : 0 < n < 10000 -> yearChecked n = true.
Proof.
  intros H. pose proof yearChecked_all as Hall.
  rewrite forallb_forall in Hall.
  specialize (Hall (Z.to_nat n)). rewrite Z2Nat.id in Hall by lia.
  apply Hall. apply in_seq. lia.
Qed.

Lemma isDigit_not_white (c : ascii) : isDigit c = true -> isWhite c = false.
Proof.
  destruct c as [[] [] [] [] [] [] [] []]; intros H; try discriminate H;
    reflexivity.
Qed.

Lemma dropWhile_keeps_tail (f : ascii -> bool) (c : ascii) (p : string) :
  f c = false ->
  forall x, exists x', dropWhile f (x ++ String c p) = (x' ++ String c p)%string.
Proof.
  intros Hc x. induction x as [| e x IH].
  - exists EmptyString. simpl. now rewrite Hc.
  - simpl. destruct (f e).
    + exact IH.
    + exists (String e x). reflexivity.
Qed.

(** [trim] keeps the first five characters of a string that opens with a
    year and a hyphen. *)
Lemma trim_year_hyphen (a b c d : ascii) (r : string) :
  isDigit a = true ->
  exists r',
    trim (String a (String b (String c (String d (String "-" r)))))
    = String a (String b (String c (String d (String "-" r')))).
Proof.
  intros Ha. unfold trim.
  cbn [dropWhile]. rewrite (isDigit_not_white a Ha).
  change (String a (String b (String c (String d (String "-" r)))))
    with (String a (String b (String c (String d (String "-" EmptyString))))
          ++ r)%string.
  rewrite rev_string_app.
  change (rev_string (String a (String b (String c (String d (String "-" EmptyString))))))
    with (String "-" (String d (String c (String b (String a EmptyString))))).
  destruct (dropWhile_keeps_tail isWhite "-"
              (String d (String c (String b (String a EmptyString))))
              eq_refl (rev_string r)) as [x' Hx].
  rewrite Hx, rev_string_app.
  exists (rev_string x'). reflexivity.
Qed.

Lemma isYearString_shape (s : string) :
  isYearString s = true ->
  exists a b c d,
    s = String a (String b (String c (String d EmptyString)))
    /\ isDigit a = true /\ isDigit b = true /\ isDigit c = true
    /\ isDigit d = true.
Proof.
  destruct s as [| a [| b [| c [| d [| e s]]]]]; simpl; try discriminate.
  intros H. apply andb_prop in H as [H Hd]. apply andb_prop in H as [H Hc].
  apply andb_prop in H as [Ha Hb]. exists a, b, c, d. repeat split; assumption.
Qed.

(** A year of four digits, a hyphen and anything after it. *)
Lemma getYear_date (y rest : string) :
  isYearString y = true -> getYear (y ++ "-" ++ rest) = y.
Proof.
  intros Hy. destruct (isYearString_shape y Hy) as (a & b & c & d & -> & Ha & Hb & Hc & Hd).
  unfold getYear. cbn [append String.eqb].
  destruct (trim_year_hyphen a b c d rest Ha) as [r' ->].
  cbn [isYearString leadingYear]. rewrite Ha, Hb, Hc, Hd. reflexivity.
Qed.

Lemma fourDigits_date (y rest : string) :
  isYearString y = true -> fourDigits (y ++ rest) = fourDigits y.
Proof.
  intros Hy. destruct (isYearString_shape y Hy) as (a & b & c & d & -> & _).
  reflexivity.
Qed.

Lemma serial_year_range (n : Z) :
  10000 <= n <= 2958465 -> 1927 <= YearFromDay (epochDay + n) <= 9999.
Proof.
  intros H. pose proof (YearFromDay_spec (epochDay + n)) as Hs.
  unfold epochDay in *.
  assert (H1 : DayFromYear 1927 = -15706) by (vm_compute; reflexivity).
  assert (H2 : DayFromYear 10000 = 2932897) by (vm_compute; reflexivity).
  split.
  - destruct (Z_lt_le_dec (YearFromDay (-25569 + n)) 1927) as [Hlt | ]; [| assumption].
    assert (DayFromYear (YearFromDay (-25569 + n) + 1) <= DayFromYear 1927).
    { destruct (Z.eq_dec (YearFromDay (-25569 + n) + 1) 1927) as [-> | Hne]; [lia |].
      apply Z.lt_le_incl, DayFromYear_mono. lia. }
    lia.
  - destruct (Z_lt_le_dec 9999 (YearFromDay (-25569 + n))) as [Hlt | ]; [| assumption].
    assert (DayFromYear 10000 <= DayFromYear (YearFromDay (-25569 + n))).
    { destruct (Z.eq_dec 10000 (YearFromDay (-25569 + n))) as [<- | Hne]; [lia |].
      apply Z.lt_le_incl, DayFromYear_mono. lia. }
    lia.
Qed.

Lemma parseFloat_small (n : Z) :
  0 < n <= 2958465 -> parseFloat (JNum n) = PInt n.
Proof.
  intros H. unfold parseFloat, safeInteger.
  destruct (Z.ltb_spec (Z.abs n) (2 ^ 53)); [reflexivity |].
  assert (2 ^ 53 = 9007199254740992) by reflexivity. lia.
Qed.

Lemma convertExcelDate_serial (n : Z) :
  10000 <= n <= 2958465 ->
  convertExcelDate (JNum n)
  = Some (decimal (YearFromDay (epochDay + n)) ++ "-"
          ++ padStart2 (MonthFromDay (epochDay + n) + 1) ++ "-"
          ++ padStart2 (DateFromDay (epochDay + n)))%string.
Proof.
  intros H. unfold convertExcelDate.
  assert (Hg : negb (truthy (JNum n)) || jsval_eqb (JNum n) (JStr "")
               || jsval_eqb (JNum n) (JStr "0") || jsval_eqb (JNum n) (JNum 0) = false).
  { simpl. destruct (Z.eqb_spec n 0); [lia | reflexivity]. }
  rewrite Hg.
  assert (Hp : parseFloat (JNum n) = PInt n).
  { exact (parseFloat_small n ltac:(lia)). }
  rewrite Hp.
  destruct (Z.leb_spec n 0); [lia |].
  destruct (Z.ltb_spec n 10000); [lia |].
  rewrite daysToAdd_is_serial by lia.
  rewrite timeClip_range by lia.
  destruct (Z.leb_spec n 100025569); [| lia].
  rewrite epoch_plus_days. reflexivity.
Qed.





(** ** The partner's years *)

Lemma yearAt_year (s y : string) : yearAt s = Some y -> isYearString y = true.
Proof.
  destruct s as [| a [| b [| c [| d r]]]]; simpl; try discriminate.
  destruct (isDigit a && isDigit b && isDigit c && isDigit d) eqn:E;
    simpl; [| discriminate].
  destruct (negb (startsWord r)); [| discriminate].
  intros [= <-]. simpl. exact E.
Qed.

Lemma yearRuns_years (s : string) :
  forall skip prev y, In y (yearRuns skip prev s) -> isYearString y = true.
Proof.
  induction s as [| c r IH]; intros skip prev y; cbn [yearRuns]; [intros [] |].
  destruct skip as [| k]; [| apply IH].
  destruct prev; [apply IH |].
  destruct (yearAt (String c r)) as [y0 |] eqn:E; [| apply IH].
  intros [<- | Hin]; [exact (yearAt_year _ _ E) | exact (IH _ _ _ Hin)].
Qed.

Lemma isDigit_word (c : ascii) : isDigit c = true -> isWordChar c = true.
Proof. intros H. unfold isWordChar. now rewrite H. Qed.

(** A year that ends at a word boundary is the first match, and the
    search goes on behind it. *)
Lemma yearRuns_year (y r : string) :
  isYearString y = true -> startsWord r = false ->
  yearRuns O false (y ++ r) = y :: yearRuns O true r.
Proof.
  intros Hy Hr.
  destruct (isYearString_shape y Hy) as (a & b & c & d & -> & Ha & Hb & Hc & Hd).
  cbn [append yearRuns yearAt]. rewrite Ha, Hb, Hc, Hd, Hr. cbn [andb negb].
  rewrite (isDigit_word d Hd). destruct r; reflexivity.
Qed.

Lemma yearRuns_range (y1 y2 : string) :
  isYearString y1 = true -> isYearString y2 = true ->
  yearRuns O false (y1 ++ enDash ++ y2) = [y1; y2].
Proof.
  intros H1 H2. rewrite yearRuns_year by (assumption || reflexivity).
  f_equal.
  pose proof (yearRuns_year y2 EmptyString H2 eq_refl) as Hy.
  rewrite sapp_nil_r in Hy.
  destruct (isYearString_shape y2 H2) as (a & b & c & d & -> & Ha & Hb & Hc & Hd).
  change (yearRuns O true (enDash ++ String a (String b (String c (String d EmptyString)))))
    with (yearRuns O false (String a (String b (String c (String d EmptyString))))).
  exact Hy.
Qed.

Lemma isDigit_digitChars (c : ascii) : isDigit c = true -> In c digitChars.
Proof.
  destruct c as [[] [] [] [] [] [] [] []]; intros H; try discriminate H;
    simpl; tauto.
Qed.

Lemma isYearString_listed (y : string) :
  isYearString y = true -> In y fourDigitStrings.
Proof.
  intros Hy.
  destruct (isYearString_shape y Hy) as (a & b & c & d & -> & Ha & Hb & Hc & Hd).
  unfold fourDigitStrings.
  apply in_flat_map. exists a. split; [now apply isDigit_digitChars |].
  apply in_flat_map. exists b. split; [now apply isDigit_digitChars |].
  apply in_flat_map. exists c. split; [now apply isDigit_digitChars |].
  apply (in_map (fun d => String a (String b (String c (String d EmptyString))))).
  now apply isDigit_digitChars.
Qed.

Lemma spanChecked_all : forallb spanChecked fourDigitStrings = true.
Proof. vm_compute. reflexivity. Qed.

Lemma spanChecked_ok (y : string) :
  isYearString y = true ->
  formatPartnerBirthDeath y = y
  /\ formatPartnerBirthDeath (birthMark ++ y) = (birthMark ++ y)%string
  /\ formatPartnerBirthDeath (deathMark ++ y) = (deathMark ++ y)%string.
Proof.
  intros Hy. pose proof spanChecked_all as Hall.
  rewrite forallb_forall in Hall.
  specialize (Hall y (isYearString_listed y Hy)).
  unfold spanChecked in Hall.
  apply andb_prop in Hall as [Hall H3]. apply andb_prop in Hall as [H1 H2].
  apply String.eqb_eq in H1, H2, H3. repeat split; assumption.
Qed.

Lemma formatPartnerBirthDeath_range (y1 y2 : string) :
  isYearString y1 = true -> isYearString y2 = true ->
  formatPartnerBirthDeath (y1 ++ enDash ++ y2) = (y1 ++ enDash ++ y2)%string.
Proof.
  intros H1 H2. unfold formatPartnerBirthDeath.
  rewrite yearRuns_range by assumption.
  assert (Hne : String.eqb (y1 ++ enDash ++ y2) "" = false).
  { destruct (isYearString_shape y1 H1) as (a & b & c & d & -> & _). reflexivity. }
  rewrite Hne.
  assert (Hin : includes (y1 ++ enDash ++ y2) enDash = true).
  { apply includes_substring. now exists y1, y2. }
  rewrite Hin. reflexivity.
Qed.

(** What [formatPartnerBirthDeath] can return. *)
Lemma formatPartnerBirthDeath_shape (s : string) :
  formatPartnerBirthDeath s = s
  \/ (exists y, isYearString y = true
        /\ (formatPartnerBirthDeath s = y
            \/ formatPartnerBirthDeath s = (birthMark ++ y)%string
            \/ formatPartnerBirthDeath s = (deathMark ++ y)%string))
  \/ (exists y1 y2, isYearString y1 = true /\ isYearString y2 = true
        /\ formatPartnerBirthDeath s = (y1 ++ enDash ++ y2)%string).
Proof.
  unfold formatPartnerBirthDeath.
  destruct (String.eqb_spec s ""); [left; now subst |].
  destruct (yearRuns O false s) as [| first more] eqn:E; [now left |].
  assert (Hf : isYearString first = true).
  { apply (yearRuns_years s O false). rewrite E. now left. }
  assert (Hl : isYearString (last more first) = true).
  { destruct more as [| m more]; [exact Hf |].
    apply (yearRuns_years s O false). rewrite E. right.
    destruct (exists_last (l := m :: more) ltac:(discriminate)) as (l' & x & Hx).
    rewrite Hx, last_last. apply in_or_app. right. now left. }
  right.
  destruct ((includes s enDash || includes s "-")
            && (2 <=? List.length (first :: more))%nat).
  - right. exists first, (last more first). repeat split; assumption.
  - left. exists first. split; [assumption |].
    destruct (includes s birthMark); [right; now left |].
    destruct (includes s deathMark); [right; now right | now left].
Qed.

(** X13: formatting the years of a partner a second time changes nothing. *)
Theorem formatPartnerBirthDeath_idempotent (s : string) :
  formatPartnerBirthDeath (formatPartnerBirthDeath s)
  = formatPartnerBirthDeath s.
Proof.
  destruct (formatPartnerBirthDeath_shape s)
    as [H | [(y & Hy & [H | [H | H]]) | (y1 & y2 & H1 & H2 & H)]];
    rewrite H.
  - exact H.
  - apply (spanChecked_ok y Hy).
  - apply (spanChecked_ok y Hy).
  - apply (spanChecked_ok y Hy).
  - now apply formatPartnerBirthDeath_range.
Qed.

(** ** The events of a card *)

Example getUniqueEvents_sample :
  getUniqueEvents
    [mkEvent "Geburt" "1901" "" "" "" "";
     mkEvent "Heirat" "1925" "Berta" "*1903" "" "";
     mkEvent "Geburt" "1901" "" "" "Otto" "Ida";
     mkEvent "Heirat" "1925" "Clara" "" "" ""]
  = [mkCard "Geburt" "1901" "" ""; mkCard "Heirat" "1925" "Berta" "*1903";
     mkCard "Heirat" "1925" "Clara" ""].
Proof. reflexivity. Qed.

(** With an underscore in a date two events can share a key without
    sharing the partner; the partners are then joined. *)
Example getUniqueEvents_merge :
  getUniqueEvents
    [mkEvent "Heirat" "_a" "b" "" "" ""; mkEvent "Heirat" "" "a_b" "" "" ""]
  = [mkCard "Heirat" "_a" "b, a_b" ""].
Proof. reflexivity. Qed.

Lemma includes_tail (c : ascii) (s p : string) :
  includes (String c s) p = false -> includes s p = false.
Proof.
  change (includes (String c s) p) with (startsWith (String c s) p || includes s p).
  intros H. now apply orb_false_elim in H.
Qed.

Lemma underscore_splits (a a' x x' : string) :
  includes a "_" = false -> includes a' "_" = false ->
  (a ++ "_" ++ x = a' ++ "_" ++ x')%string -> a = a' /\ x = x'.
Proof.
  revert a'. induction a as [| c a IH]; intros [| c' a'] Ha Ha' H.
  - injection H as H. now split.
  - injection H as Hc _. subst c'.
    change (includes (String "_" a') "_")
      with (startsWith (String "_" a') "_" || includes a' "_") in Ha'.
    simpl in Ha'. now rewrite startsWith_nil in Ha'.
  - injection H as Hc _. subst c.
    change (includes (String "_" a) "_")
      with (startsWith (String "_" a) "_" || includes a "_") in Ha.
    simpl in Ha. now rewrite startsWith_nil in Ha.
  - injection H as Hc H. subst c'.
    destruct (IH a' (includes_tail _ _ _ Ha) (includes_tail _ _ _ Ha') H)
      as [-> ->].
    now split.
Qed.

Lemma eventKey_inj (a b : event) :
  plainKey a -> plainKey b -> eventKey a = eventKey b ->
  type a = type b /\ date a = date b /\ partner a = partner b.
Proof.
  intros [Ha1 Ha2] [Hb1 Hb2] H. unfold eventKey in H.
  destruct (underscore_splits _ _ _ _ Ha1 Hb1 H) as [Ht H'].
  destruct (underscore_splits _ _ _ _ Ha2 Hb2 H') as [Hd Hp].
  repeat split; assumption.
Qed.

Lemma sameEntry_key (a b : event) : sameEntry a b = true -> eventKey a = eventKey b.
Proof.
  unfold sameEntry, eventKey. intros H.
  apply andb_prop in H as [H Hp]. apply andb_prop in H as [Ht Hd].
  apply String.eqb_eq in Ht, Hd, Hp. now rewrite Ht, Hd, Hp.
Qed.

Lemma includes_self (s : string) : includes s s = true.
Proof. apply includes_substring. exists EmptyString, EmptyString. simpl. now rewrite sapp_nil_r. Qed.

Lemma addEvent_run (evs : list event) :
  forall seen eventMap,
    Forall plainKey evs -> Forall plainKey seen -> cardsOf seen eventMap ->
    fold_left addEvent evs eventMap
    = eventMap ++ map (fun e => (eventKey e, cardOf e)) (firstEntries seen evs).
Proof.
  induction evs as [| e rest IH]; intros seen eventMap Hevs Hseen [Inv1 Inv2].
  - simpl. now rewrite app_nil_r.
  - inversion Hevs as [| ? ? He Hrest]; subst.
    cbn [fold_left firstEntries]. unfold addEvent at 2.
    destruct (existsb (fun kv => String.eqb (fst kv) (eventKey e)) eventMap) eqn:Ehas.
    + apply existsb_exists in Ehas as (kv & Hin & Hk).
      apply String.eqb_eq in Hk.
      destruct (Inv1 kv Hin) as (e0 & Hin0 & Hk0 & _).
      assert (Hsame : existsb (sameEntry e) seen = true).
      { apply existsb_exists. exists e0. split; [assumption |].
        rewrite Forall_forall in Hseen.
        destruct (eventKey_inj e e0 He (Hseen e0 Hin0) ltac:(congruence))
          as (Ht & Hd & Hp).
        unfold sameEntry. rewrite Ht, Hd, Hp, !String.eqb_refl. reflexivity. }
      rewrite Hsame.
      assert (Hsame_map :
        map (fun kv => if String.eqb (fst kv) (eventKey e)
                       then (fst kv, mergePartner e (snd kv)) else kv) eventMap
        = eventMap).
      { rewrite <- (map_id eventMap) at 2. apply map_ext_in.
        intros [k c] Hkc. cbn [fst snd].
        destruct (String.eqb_spec k (eventKey e)) as [Hk' |]; [| reflexivity].
        destruct (Inv1 (k, c) Hkc) as (e1 & Hin1 & Hk1 & Hc1).
        cbn [fst snd] in Hk1, Hc1.
        rewrite Forall_forall in Hseen.
        destruct (eventKey_inj e e1 He (Hseen e1 Hin1) ltac:(congruence))
          as (_ & _ & Hp).
        unfold mergePartner. rewrite Hc1. cbn [cardPartner cardOf].
        rewrite <- Hp, includes_self, andb_false_r. reflexivity. }
      rewrite Hsame_map. apply IH; [assumption | assumption | now split].
    + assert (Hnew : existsb (sameEntry e) seen = false).
      { destruct (existsb (sameEntry e) seen) eqn:E; [| reflexivity].
        apply existsb_exists in E as (e0 & Hin0 & Hs).
        apply sameEntry_key in Hs. rewrite Hs, (Inv2 e0 Hin0) in Ehas.
        discriminate. }
      rewrite Hnew. cbn [map].
      rewrite (IH (e :: seen) (eventMap ++ [(eventKey e, cardOf e)]));
        [now rewrite <- app_assoc | assumption | now constructor |].
      split.
      * intros kv Hin. apply in_app_or in Hin as [Hin | [<- | []]].
        -- destruct (Inv1 kv Hin) as (e0 & Hin0 & H0).
           exists e0. split; [now right | assumption].
        -- exists e. repeat split. now left.
      * intros e0 [<- | Hin0]; rewrite existsb_app.
        -- cbn [existsb fst]. rewrite String.eqb_refl. apply orb_true_r.
        -- rewrite (Inv2 e0 Hin0). reflexivity.
Qed.

(** X14: as long as no type and no date holds an underscore, the events of
    a card are the first occurrences by type, date and partner, in their
    order and with the partner's years of the first occurrence; the branch
    that joins partners is never taken. *)
Theorem getUniqueEvents_first_entries (evs : list event) :
  Forall plainKey evs ->
  getUniqueEvents evs = map cardOf (firstEntries [] evs).
Proof.
  intros H. unfold getUniqueEvents.
  rewrite (addEvent_run evs [] [] H (Forall_nil _)).
  - cbn [app]. rewrite map_map. reflexivity.
  - split; [intros kv [] | intros e []].
Qed.

Lemma getUniqueEvents_first_entries_witness :
  getUniqueEvents
    [mkEvent "Geburt" "1901" "" "" "" "";
     mkEvent "Heirat" "1925" "Berta" "*1903" "" "";
     mkEvent "Geburt" "1901" "" "" "Otto" "Ida";
     mkEvent "Heirat" "1925" "Clara" "" "" ""]
  = map cardOf
      (firstEntries []
         [mkEvent "Geburt" "1901" "" "" "" "";
          mkEvent "Heirat" "1925" "Berta" "*1903" "" "";
          mkEvent "Geburt" "1901" "" "" "Otto" "Ida";
          mkEvent "Heirat" "1925" "Clara" "" "" ""]).
Proof.
  apply getUniqueEvents_first_entries.
  repeat constructor.
Defined.

(** ** Highlighting *)

Example highlightText_samples :
  highlightText "Anna Maria" "an"
  = Some (openTag ++ "An" ++ closeTag ++ "na Maria")%string
  /\ highlightText "a.b (x)" "." = Some ("a" ++ openTag ++ "." ++ closeTag ++ "b (x)")%string
  /\ highlightText "aaa" "aa" = Some (openTag ++ "aa" ++ closeTag ++ "a")%string
  /\ highlightText "Otto" "" = Some "Otto"
  /\ highlightText "Otto" "x" = Some "Otto".
Proof. repeat split; reflexivity. Qed.

Lemma isSyntaxChar_isEscaped (c : ascii) : isSyntaxChar c = isEscaped c.
Proof. destruct c as [[] [] [] [] [] [] [] []]; reflexivity. Qed.

Lemma isEscaped_backslash (c : ascii) :
  isEscaped c = false -> Ascii.eqb c "\" = false.
Proof.
  destruct (Ascii.eqb_spec c "\") as [-> |]; [discriminate | reflexivity].
Qed.

Lemma escapeRegex_literal_holds (query : string) :
  literalOf false (escapeRegex query) = Some query.
Proof.
  induction query as [| c r IH]; [reflexivity |].
  cbn [escapeRegex]. destruct (isEscaped c) eqn:E.
  - cbn [literalOf]. change (Ascii.eqb "\" "\") with true. cbn iota.
    rewrite isSyntaxChar_isEscaped, E, IH. reflexivity.
  - cbn [literalOf]. rewrite (isEscaped_backslash c E), isSyntaxChar_isEscaped, E, IH.
    reflexivity.
Qed.

(** X15: the pattern [escapeRegex] makes of a query stands for the query
    itself, character by character: no character of the query is left to
    act as an operator. *)
Theorem escapeRegex_literal (query : string) :
  literalOf false (escapeRegex query) = Some query.
Proof. apply escapeRegex_literal_holds. Qed.

Lemma startsWithCI_lower (p : string) :
  forall s, startsWithCI s p = startsWith (toLowerCase s) (toLowerCase p).
Proof.
  induction p as [| a p IH]; intros [| b s]; try reflexivity.
  cbn [startsWithCI toLowerCase startsWith]. now rewrite IH.
Qed.

Lemma replaceMatches_skip (lit : string) (k : nat) :
  forall s, replaceMatches lit k s = replaceMatches lit O (dropS k s).
Proof.
  induction k as [| k IH]; intros [| c r]; try reflexivity.
  cbn [replaceMatches dropS]. apply IH.
Qed.

Lemma takeS_dropS (n : nat) : forall s, (takeS n s ++ dropS n s)%string = s.
Proof.
  induction n as [| n IH]; intros [| c r]; try reflexivity.
  cbn [takeS dropS append]. now rewrite IH.
Qed.

Lemma startsWithCI_take (p : string) :
  forall s, startsWithCI s p = true ->
            toLowerCase (takeS (String.length p) s) = toLowerCase p.
Proof.
  induction p as [| a p IH]; intros [| b s] H; try reflexivity; try discriminate H.
  cbn [startsWithCI] in H. apply andb_prop in H as [Hc Hs].
  apply Ascii.eqb_eq in Hc.
  cbn [String.length takeS toLowerCase]. now rewrite Hc, (IH s Hs).
Qed.

Lemma replaceMatches_none (lit : string) (s : string) :
  includes (toLowerCase s) (toLowerCase lit) = false ->
  replaceMatches lit O s = s.
Proof.
  induction s as [| c r IH]; [reflexivity |].
  cbn [toLowerCase].
  change (includes (String (lowerChar c) (toLowerCase r)) (toLowerCase lit))
    with (startsWith (toLowerCase (String c r)) (toLowerCase lit)
          || includes (toLowerCase r) (toLowerCase lit)).
  rewrite <- startsWithCI_lower. intros H. apply orb_false_elim in H as [H1 H2].
  cbn [replaceMatches]. rewrite H1, (IH H2). reflexivity.
Qed.

Lemma replaceMatches_first (lit : string) (s : string) :
  lit <> EmptyString ->
  includes (toLowerCase s) (toLowerCase lit) = true ->
  exists front m rest,
    s = (front ++ m ++ rest)%string
    /\ toLowerCase m = toLowerCase lit
    /\ (forall i, (i < String.length front)%nat ->
                  startsWithCI (dropS i s) lit = false)
    /\ replaceMatches lit O s
       = (front ++ openTag ++ m ++ closeTag ++ replaceMatches lit O rest)%string.
Proof.
  intros Hlit. induction s as [| c r IH].
  - destruct lit as [| a lit]; [congruence | discriminate].
  - cbn [toLowerCase].
    change (includes (String (lowerChar c) (toLowerCase r)) (toLowerCase lit))
      with (startsWith (toLowerCase (String c r)) (toLowerCase lit)
            || includes (toLowerCase r) (toLowerCase lit)).
    rewrite <- startsWithCI_lower. intros H.
    destruct (startsWithCI (String c r) lit) eqn:E.
    + exists EmptyString, (takeS (String.length lit) (String c r)),
        (dropS (String.length lit) (String c r)).
      split; [now rewrite takeS_dropS |].
      split; [now apply startsWithCI_take |].
      split; [intros i Hi; simpl in Hi; lia |].
      cbn [replaceMatches]. rewrite E, replaceMatches_skip.
      destruct lit as [| a lit]; [congruence |].
      cbn [String.length dropS].
      replace (S (String.length lit) - 1)%nat with (String.length lit) by lia.
      reflexivity.
    + simpl in H. destruct (IH H) as (front & m & rest & Hs & Hm & Hfront & Hr).
      exists (String c front), m, rest.
      split; [cbn [append]; now rewrite <- Hs |].
      split; [assumption |].
      split.
      * intros [| i] Hi; [exact E |].
        cbn [dropS]. apply Hfront. simpl in Hi. lia.
      * cbn [replaceMatches]. rewrite E, Hr. reflexivity.
Qed.



(** ** Descendant count on child links without a loop *)

Lemma countDescendants_bounded (reg : registry) (depth : jsval -> nat) :
  (forall p c child,
      In p reg -> In c (children p) -> persons_get c reg = Some child ->
      (depth (id child) < depth (id p))%nat) ->
  forall k p, In p reg -> (depth (id p) < k)%nat ->
    exists n, forall fuel, (depth (id p) < fuel)%nat ->
                           countDescendants fuel reg p = Some n.
Proof.
  intros Hdepth. induction k as [| k IH]; intros p Hp Hk; [lia |].
  assert (Hkids : forall c, In c (children p) ->
            exists n, forall f, (depth (id p) <= f)%nat ->
              match persons_get c reg with
              | Some child => countDescendants f reg child
              | None => Some O
              end = Some n).
  { intros c Hc. destruct (persons_get c reg) as [child |] eqn:Hg.
    - pose proof (Hdepth p c child Hp Hc Hg) as Hlt.
      destruct (IH child (proj1 (persons_get_some _ _ _ Hg)) ltac:(lia)) as [n Hn].
      exists n. intros f Hf. apply Hn. lia.
    - exists O. reflexivity. }
  assert (Hsum : exists s, forall f, (depth (id p) <= f)%nat ->
            sumOpt (map (fun c => match persons_get c reg with
                                  | Some child => countDescendants f reg child
                                  | None => Some O
                                  end) (children p)) = Some s).
  { clear Hk IH. induction (children p) as [| c cs IHcs].
    - exists O. reflexivity.
    - destruct (Hkids c (or_introl eq_refl)) as [n Hn].
      destruct (IHcs (fun c' Hc' => Hkids c' (or_intror Hc'))) as [s Hs].
      exists (n + s)%nat. intros f Hf. cbn [map sumOpt].
      rewrite (Hn f Hf), (Hs f Hf). reflexivity. }
  destruct Hsum as [s Hs].
  exists (List.length (children p) + s)%nat. intros [| f] Hf; [lia |].
  cbn [countDescendants]. rewrite Hs by lia. reflexivity.
Qed.

(** X17: where the child links fall along some measure of depth, so that no
    chain of children comes back to a person, the descendant count of
    every person is found: beyond that depth the number does not depend on
    the bound put on the nesting of the calls. *)
Theorem countDescendants_returns (reg : registry) (depth : jsval -> nat) :
  (forall p c child,
      In p reg -> In c (children p) -> persons_get c reg = Some child ->
      (depth (id child) < depth (id p))%nat) ->
  forall p, In p reg ->
    exists n, forall fuel, (depth (id p) < fuel)%nat ->
                           countDescendants fuel reg p = Some n.
Proof.
  intros Hdepth p Hp.
  exact (countDescendants_bounded reg depth Hdepth (S (depth (id p))) p Hp
           (Nat.lt_succ_diag_r _)).
Qed.

Lemma countDescendants_returns_witness :
  exists n, forall fuel,
    (demoDepth (id (personNamed demoTree "Rosa")) < fuel)%nat ->
    countDescendants fuel (persons demoTree) (personNamed demoTree "Rosa")
    = Some n.
Proof.
  apply (countDescendants_returns (persons demoTree) demoDepth).
  - intros p c child Hp Hc Hg. cbn [demoTree persons] in Hp, Hg.
    destruct Hp as [<- | [<- | [<- | [<- | []]]]]; cbn [children] in Hc;
      repeat (destruct Hc as [<- | Hc]); try contradiction;
      vm_compute in Hg; injection Hg as <-; vm_compute; lia.
  - vm_compute. tauto.
Defined.

(** ** The two copies on records without name hints *)

Lemma ingest_agree (r : record) (reg : registry) :
  plainRecord r -> ingest Widget reg r = ingest Block reg r.
Proof.
  intros [Hp | (H1 & H2 & s & Ha & Hs)]; unfold ingest.
  - rewrite Hp. reflexivity.
  - destruct (String.eqb (Person r) ""); [reflexivity |].
    assert (Hid : resolveIdentity Widget r reg = resolveIdentity Block r reg).
    { unfold resolveIdentity. rewrite Ha. simpl.
      destruct (String.eqb_spec s ""); [contradiction | reflexivity]. }
    rewrite Hid. destruct (resolveIdentity Block r reg) as [reg1 anchorId].
    destruct (convertExcelDate (Datum r)) as [d |]; [| reflexivity].
    unfold resolveParent. rewrite H1, H2. reflexivity.
Qed.

Lemma firstPass_agree (data : list record) :
  Forall plainRecord data ->
  forall reg, firstPass Widget reg data = firstPass Block reg data.
Proof.
  induction 1 as [| r data Hr _ IH]; intros reg; [reflexivity |].
  simpl. rewrite (ingest_agree r reg Hr).
  destruct (ingest Block reg r); [apply IH | reflexivity].
Qed.

Lemma modify_events (k : jsval) (f : person -> person) (reg : registry) :
  (forall p e, In e (events (f p)) ->
               In e (events p) \/ (parent1 e = "" /\ parent2 e = "")) ->
  noHints reg -> noHints (modify k f reg).
Proof.
  intros Hf Hreg q e Hq He. unfold modify in Hq.
  apply in_map_iff in Hq as (p & <- & Hp).
  destruct (jsval_eqb (id p) k); [| exact (Hreg p e Hp He)].
  destruct (Hf p e He) as [Hin | Hplain]; [exact (Hreg p e Hp Hin) | exact Hplain].
Qed.

Lemma persons_set_in (v : person) (reg : registry) (p : person) :
  In p (persons_set v reg) -> p = v \/ In p reg.
Proof.
  induction reg as [| q reg IH]; simpl.
  - intros [<- | []]. now left.
  - destruct (jsval_eqb (id q) (id v)).
    + intros [<- | Hin]; [now left | right; now right].
    + intros [<- | Hin]; [right; now left |].
      destruct (IH Hin) as [-> | H]; [now left | right; now right].
Qed.

Lemma ingest_noHints (r : record) (reg reg' : registry) :
  plainRecord r -> ingest Block reg r = Some reg' -> noHints reg -> noHints reg'.
Proof.
  intros Hr. unfold ingest.
  destruct (String.eqb_spec (Person r) "") as [Hp | Hp]; [now intros [= <-] |].
  destruct Hr as [Hr | (H1 & H2 & s & Ha & Hs)]; [contradiction |].
  destruct (resolveIdentity Block r reg) as [reg1 anchorId] eqn:Hid.
  destruct (convertExcelDate (Datum r)) as [d |]; [| discriminate].
  intros [= <-] Hreg.
  assert (Hreg1 : noHints reg1).
  { unfold resolveIdentity in Hid. rewrite Ha in Hid. simpl in Hid.
    destruct (String.eqb_spec s ""); [contradiction |]. simpl in Hid.
    destruct (persons_has (JStr s) reg); injection Hid as <- _; [exact Hreg |].
    intros p e Hin He. apply persons_set_in in Hin as [-> | Hin];
      [contradiction | exact (Hreg p e Hin He)]. }
  unfold resolveParent. rewrite H1, H2. simpl.
  assert (Hpush : noHints (modify anchorId (pushEvent (makeEvent r d)) reg1)).
  { apply modify_events; [| exact Hreg1].
    intros p e He. simpl in He. apply in_app_or in He as [He | [<- | []]];
      [now left | right]. simpl. now split. }
  destruct (truthy (ParentId r)); [| exact Hpush].
  apply modify_events; [| exact Hpush]. intros p e He. now left.
Qed.

Lemma firstPass_noHints (data : list record) :
  Forall plainRecord data ->
  forall reg reg', firstPass Block reg data = Some reg' ->
                   noHints reg -> noHints reg'.
Proof.
  induction 1 as [| r data Hr _ IH]; intros reg reg'; simpl.
  - now intros [= <-].
  - destruct (ingest Block reg r) as [reg1 |] eqn:E; [| discriminate].
    intros Hf Hreg. apply (IH reg1 reg' Hf).
    exact (ingest_noHints r reg reg1 Hr E Hreg).
Qed.

Lemma parentByName_noHints (v : variant) (reg : registry) (p : person) :
  noHints reg -> In p reg -> parentByName v p reg = None.
Proof.
  intros Hreg Hp. unfold parentByName.
  destruct (find (hasHint v) (events p)) as [e |] eqn:E; [| reflexivity].
  apply find_some in E as [He Hh].
  destruct (Hreg p e Hp He) as [H1 H2].
  destruct v; simpl in Hh; rewrite ?H1, ?H2 in Hh; discriminate.
Qed.

Lemma link_agree (reg : registry) (k : jsval) :
  noHints reg ->
  link Widget reg k = link Block reg k /\ noHints (link Block reg k).
Proof.
  intros Hreg. unfold link.
  destruct (persons_get k reg) as [p |] eqn:Hg; [| now split].
  pose proof (proj1 (persons_get_some _ _ _ Hg)) as Hp.
  unfold attachByName. rewrite !(parentByName_noHints _ reg p Hreg Hp).
  destruct (truthy (parentId p)); [| now split].
  destruct (persons_get (parentId p) reg) as [parent |]; [| now split].
  split; [reflexivity |].
  apply modify_events; [| exact Hreg]. intros q e He. now left.
Qed.

Lemma secondPass_agree (keys : list jsval) :
  forall reg, noHints reg ->
              fold_left (link Widget) keys reg = fold_left (link Block) keys reg.
Proof.
  induction keys as [| k keys IH]; intros reg Hreg; [reflexivity |].
  simpl. destruct (link_agree reg k Hreg) as [-> Hn]. now apply IH.
Qed.

(** X18: on records that bear their anchor as a non-empty string and name
    no parent, the copy under [widgets/] and the block copy build the
    same tree, or both give none. *)
Theorem copies_agree (data : list record) :
  Forall plainRecord data -> buildTree Widget data = buildTree Block data.
Proof.
  intros H. unfold buildTree. rewrite (firstPass_agree data H).
  destruct (firstPass Block [] data) as [reg |] eqn:E; [| reflexivity].
  assert (Hn : noHints reg).
  { apply (firstPass_noHints data H [] reg E). intros p e []. }
  unfold assemble, secondPass. now rewrite (secondPass_agree _ reg Hn).
Qed.

Lemma copies_agree_witness : buildTree Widget demoData = buildTree Block demoData.
Proof.
  apply copies_agree. unfold demoData.
  repeat (apply Forall_cons;
          [right; split; [reflexivity | split; [reflexivity |]]; eexists;
           split; [reflexivity | discriminate] |]).
  apply Forall_nil.
Defined.

(** ** The order of the marriages *)

Example parseInt_samples :
  parseInt "1925-05-01" = Some 1925 /\ parseInt "ca. 1900" = None
  /\ parseInt "  -12x" = Some (-12) /\ parseInt "0x1F" = Some 31
  /\ parseInt "0x" = None /\ parseInt "" = None /\ parseInt "+7" = Some 7.
Proof. repeat split; reflexivity. Qed.

Section CardFacts.
Variable localeCompare : string -> string -> Z.
Hypothesis collate_asym :
  forall x y, below localeCompare x y = true -> below localeCompare y x = false.
Hypothesis collate_between :
  forall x y z, below localeCompare x z = true ->
                below localeCompare x y = true \/ below localeCompare y z = true.

Lemma compareMarriage_below (a b : card) :
  below (compareMarriage localeCompare) a b
  = if marriageYear (cardDate a) =? marriageYear (cardDate b)
    then below localeCompare (cardDate a) (cardDate b)
    else marriageYear (cardDate a) <? marriageYear (cardDate b).
Proof.
  unfold below, compareMarriage.
  destruct (Z.eqb_spec (marriageYear (cardDate a)) (marriageYear (cardDate b)));
    cbn [negb]; [reflexivity |].
  destruct (Z.ltb_spec (marriageYear (cardDate a) - marriageYear (cardDate b)) 0);
    destruct (Z.ltb_spec (marriageYear (cardDate a)) (marriageYear (cardDate b)));
    (reflexivity || lia).
Qed.

Lemma compareMarriage_asym (a b : card) :
  below (compareMarriage localeCompare) a b = true ->
  below (compareMarriage localeCompare) b a = false.
Proof.
  rewrite !compareMarriage_below.
  destruct (Z.eqb_spec (marriageYear (cardDate a)) (marriageYear (cardDate b)))
    as [E | E].
  - rewrite <- E, Z.eqb_refl. apply collate_asym.
  - destruct (Z.eqb_spec (marriageYear (cardDate b)) (marriageYear (cardDate a)));
      [congruence |].
    intros H. apply Z.ltb_lt in H. apply Z.ltb_ge. lia.
Qed.

Lemma compareMarriage_between (a b c : card) :
  below (compareMarriage localeCompare) a c = true ->
  below (compareMarriage localeCompare) a b = true
  \/ below (compareMarriage localeCompare) b c = true.
Proof.
  rewrite !compareMarriage_below.
  destruct (Z.eqb_spec (marriageYear (cardDate a)) (marriageYear (cardDate c)));
    destruct (Z.eqb_spec (marriageYear (cardDate a)) (marriageYear (cardDate b)));
    destruct (Z.eqb_spec (marriageYear (cardDate b)) (marriageYear (cardDate c)));
    try congruence; rewrite ?Z.ltb_lt; try apply collate_between; lia.
Qed.

Lemma sortBy_marriageOrder (l : list card) :
  StronglySorted (marriageOrder localeCompare)
                 (sortBy (compareMarriage localeCompare) l)
  /\ Permutation l (sortBy (compareMarriage localeCompare) l).
Proof.
  destruct (sortBy_correct (compareMarriage localeCompare)
              compareMarriage_asym compareMarriage_between l) as (Hs & Hp & _).
  split; [| exact Hp]. clear Hp.
  induction Hs as [| a r Hr IH Ha]; constructor; [assumption |].
  rewrite Forall_forall in *. intros b Hb. specialize (Ha b Hb).
  rewrite compareMarriage_below in Ha. unfold marriageOrder, below in *.
  destruct (Z.eqb_spec (marriageYear (cardDate b)) (marriageYear (cardDate a))).
  - right. split; [congruence |]. now apply Z.ltb_ge in Ha.
  - left. apply Z.ltb_ge in Ha. lia.
Qed.
End CardFacts.

Lemma filter_filter_imp {A : Type} (P Q : A -> bool) (l : list A) :
  (forall x, P x = true -> Q x = true) ->
  filter P (filter Q l) = filter P l.
Proof.
  intros H. induction l as [| a l IH]; [reflexivity |].
  cbn [filter]. destruct (Q a) eqn:EQ.
  - cbn [filter]. now rewrite IH.
  - destruct (P a) eqn:EP; [| exact IH].
    rewrite (H a EP) in EQ. discriminate.
Qed.

Lemma mergePartner_keeps (e : event) (c : card) :
  cardType (mergePartner e c) = cardType c
  /\ cardDate (mergePartner e c) = cardDate c.
Proof.
  unfold mergePartner.
  destruct (negb (String.eqb (partner e) "")
            && negb (includes (cardPartner c) (partner e))); now split.
Qed.

(** Every card of [getUniqueEvents] has the type and the date of one of
    the events. *)
Lemma addEvent_origin (all evs : list event) :
  forall eventMap,
    incl evs all ->
    (forall kv, In kv eventMap ->
       exists e, In e all /\ cardType (snd kv) = type e
                 /\ cardDate (snd kv) = date e) ->
    forall kv, In kv (fold_left addEvent evs eventMap) ->
      exists e, In e all /\ cardType (snd kv) = type e
                /\ cardDate (snd kv) = date e.
Proof.
  induction evs as [| e rest IH]; intros eventMap Hincl Hmap; [exact Hmap |].
  cbn [fold_left]. apply IH.
  - intros x Hx. apply Hincl. now right.
  - intros kv Hkv. unfold addEvent in Hkv.
    destruct (existsb (fun kv => String.eqb (fst kv) (eventKey e)) eventMap).
    + apply in_map_iff in Hkv as (kv0 & <- & Hin0).
      destruct (Hmap kv0 Hin0) as (e0 & He0 & Ht & Hd).
      destruct (String.eqb (fst kv0) (eventKey e)); [| now exists e0].
      exists e0. cbn [snd].
      destruct (mergePartner_keeps e (snd kv0)) as [-> ->]. now split.
    + apply in_app_or in Hkv as [Hin0 | [<- | []]]; [now apply Hmap |].
      exists e. split; [apply Hincl; now left | now split].
Qed.

Lemma getUniqueEvents_origin (evs : list event) (c : card) :
  In c (getUniqueEvents evs) ->
  exists e, In e evs /\ cardType c = type e /\ cardDate c = date e.
Proof.
  unfold getUniqueEvents. intros Hc. apply in_map_iff in Hc as (kv & <- & Hkv).
  apply (addEvent_origin evs evs [] (incl_refl _)); [intros ? [] | exact Hkv].
Qed.

(** X19: whatever the collation of the host, as long as it is a strict weak
    order, the marriages of a card are shown by the number their date
    begins with, a date that begins with no number counting as 0, and for
    equal numbers by the collation of the dates; they are the marriages
    among the unique events, each one once.  (The numbers are taken to be
    below 2^53, where they are held exactly.) *)
Theorem marriages_in_order (localeCompare : string -> string -> Z)
        (evs : list event) :
  (forall x y, below localeCompare x y = true -> below localeCompare y x = false) ->
  (forall x y z, below localeCompare x z = true ->
                 below localeCompare x y = true \/ below localeCompare y z = true) ->
  (forall e, In e evs -> safeInteger (marriageYear (date e)) = true) ->
  exists shown,
    sortedMarriages localeCompare evs = Some shown
    /\ StronglySorted (marriageOrder localeCompare) shown
    /\ Permutation (filter isMarriageCard (getUniqueEvents evs)) shown.
Proof.
  intros Ha Hb Hsafe. unfold sortedMarriages.
  set (marriages := filter isMarriageCard _).
  assert (Hm : marriages = filter isMarriageCard (getUniqueEvents evs)).
  { unfold marriages. apply filter_filter_imp. intros c Hc.
    unfold isMarriageCard in Hc. apply String.eqb_eq in Hc. now rewrite Hc. }
  assert (Hall : forallb (fun m => safeInteger (marriageYear (cardDate m)))
                         marriages = true).
  { apply forallb_forall. intros c Hc. rewrite Hm in Hc.
    apply filter_In in Hc as [Hc _].
    destruct (getUniqueEvents_origin evs c Hc) as (e & He & _ & ->).
    now apply Hsafe. }
  rewrite Hall. eexists. split; [reflexivity |].
  destruct (sortBy_marriageOrder localeCompare Ha Hb marriages) as [Hs Hp].
  split; [exact Hs |]. rewrite <- Hm. exact Hp.
Qed.

Lemma marriages_in_order_witness :
  exists shown,
    sortedMarriages ciCompare
      [mkEvent "Heirat" "1930-02-01" "Clara" "" "" "";
       mkEvent "Geburt" "1901" "" "" "" "";
       mkEvent "Heirat" "ca. 1950" "Dora" "" "" "";
       mkEvent "Heirat" "1925" "Berta" "*1903" "" ""] = Some shown
    /\ StronglySorted (marriageOrder ciCompare) shown
    /\ Permutation
         (filter isMarriageCard
            (getUniqueEvents
               [mkEvent "Heirat" "1930-02-01" "Clara" "" "" "";
                mkEvent "Geburt" "1901" "" "" "" "";
                mkEvent "Heirat" "ca. 1950" "Dora" "" "" "";
                mkEvent "Heirat" "1925" "Berta" "*1903" "" ""])) shown.
Proof.
  apply (marriages_in_order ciCompare).
  - exact ciCompare_asym.
  - exact ciCompare_between.
  - intros e He. repeat (destruct He as [<- | He]; [reflexivity |]).
    contradiction.
Defined.

Example marriages_in_order_sample :
  option_map (map cardPartner)
    (sortedMarriages ciCompare
       [mkEvent "Heirat" "1930-02-01" "Clara" "" "" "";
        mkEvent "Geburt" "1901" "" "" "" "";
        mkEvent "Heirat" "ca. 1950" "Dora" "" "" "";
        mkEvent "Heirat" "1925" "Berta" "*1903" "" ""])
  = Some ["Dora"; "Berta"; "Clara"].
Proof. vm_compute. reflexivity. Qed.
